(** * Verification of the retrieval-and-orchestration engine

    A shallow embedding of the Python sources [app/llm_logic.py],
    [app/agent_logic.py], [app/routes.py] and [app/models.py], with the
    properties of the vector index store, the figure-region merge, the
    outline extraction, the task state machine and the bibliographic key,
    and of the index rebuild, the figure filter, the upload and the
    deletion of documents. *)

From Stdlib Require Import QArith Lqa Ascii DecimalString DecimalN.
From stdpp Require Import gmap strings list fin_maps sorting pretty.
From Equations Require Import Equations.
From Equations.Prop Require Import Logic.

Local Open Scope string_scope.
Local Open Scope list_scope.
Local Open Scope Z_scope.

(** ** Exceptions and fallible results

    Python exceptions are values of [exn]; a call that may raise returns a
    [result]. [str_exn] is Python's [str(e)]. *)

Inductive exn : Type :=
| ValueError (msg : string)
| RuntimeError (msg : string)
| FileNotFoundError (msg : string)
| KeyError (key : string)
| IndexError (msg : string)
| AssertionError (msg : string)
| AttributeError (msg : string)
| TypeError (msg : string)
| OtherError (msg : string).

Inductive result (A : Type) : Type :=
| Ok (a : A)
| Raise (e : exn).
Arguments Ok {A} a.
Arguments Raise {A} e.

Definition str_exn (e : exn) : string :=
  match e with
  | ValueError m | RuntimeError m | FileNotFoundError m | IndexError m
  | AssertionError m | AttributeError m | TypeError m | OtherError m => m
  | KeyError k => "'" +:+ k +:+ "'"
  end.

Definition is_ok {A} (r : result A) : bool :=
  match r with Ok _ => true | Raise _ => false end.

Global Instance result_ret : MRet result := fun A a => Ok a.
Global Instance result_bind : MBind result := fun A B f r =>
  match r with Ok a => f a | Raise e => Raise e end.

(** The newline character and [sep.join(parts)]. *)
Definition nl : string := String "010"%char EmptyString.

Fixpoint join (sep : string) (parts : list string) : string :=
  match parts with
  | [] => ""
  | [p] => p
  | p :: rest => p +:+ sep +:+ join sep rest
  end.

(** ** The vector index store ([app/llm_logic.py], [app/agent_logic.py]) *)

Module VectorIndex.

(** An embedding is a row of numbers. Components are exact rationals: every
    float32 is one, and the rounding of the distance computation is outside
    this model. *)
Definition vector : Type := list Q.

(** [faiss.IndexFlatL2(d)]: the dimension and the stored rows, in insertion
    order. [index.ntotal] is the number of rows. *)
Record Index : Type := mkIndex { dim : nat; xb : list vector }.

Definition IndexFlatL2 (d : nat) : Index := mkIndex d [].
Definition ntotal (ix : Index) : Z := Z.of_nat (length (xb ix)).

(** A mapping value [{'doc_id': doc_id, 'chunk_text': chunk}]. *)
Record entry : Type := mkEntry { doc_id : Z; chunk_text : string }.

Global Instance entry_eq_dec : EqDecision entry.
Proof. solve_decision. Defined.

(** The project's data directory: [docs.index] and [mapping.json], each
    present or not. *)
Record Store : Type := mkStore {
  index_file : option Index;
  mapping_file : option (gmap string entry)
}.

(** [np.array(embeddings, dtype=np.float32).shape]: equal-length rows form
    an (n, d) array; the empty list has shape (0,) and ragged rows do not
    form an array. *)
Definition np_shape (rows : list vector) : option (nat * nat) :=
  match rows with
  | [] => None
  | r :: rs =>
      if forallb (fun v => Nat.eqb (length v) (length r)) rs
      then Some (length rows, length r) else None
  end.

(** [index.add(x)]: [n, d = x.shape; assert d == self.d], then the rows are
    appended. *)
Definition index_add (ix : Index) (rows : list vector) : result Index :=
  match np_shape rows with
  | None => Raise (ValueError "not enough values to unpack (expected 2, got 1)")
  | Some (_, d) =>
      if Nat.eqb d (dim ix)
      then Ok (mkIndex (dim ix) (xb ix ++ rows))
      else Raise (AssertionError "")
  end.

(** The loop [for i, chunk in enumerate(chunks):
      mapping[str(start_index + i)] = {'doc_id': doc_id, 'chunk_text': chunk}],
    started at counter [i]. *)
Fixpoint add_chunks (start_index : Z) (doc : Z) (chunks : list string) (i : Z)
    (mapping : gmap string entry) : gmap string entry :=
  match chunks with
  | [] => mapping
  | chunk :: rest =>
      add_chunks start_index doc rest (i + 1)
        (<[pretty (start_index + i) := mkEntry doc chunk]> mapping)
  end.

(** [update_faiss_index(project_id, doc_id, chunks, embeddings)], on the
    project's store. Nothing is written when a step raises. *)
Definition load_or_create (st : Store) (embeddings : list vector)
  : result (Index * gmap string entry) :=
  match index_file st with
  | Some ix =>
      match mapping_file st with
      | Some m => Ok (ix, m)
      | None => Raise (FileNotFoundError "mapping.json")
      end
  | None =>
      match embeddings with
      | [] => Raise (IndexError "list index out of range")
      | e0 :: _ => Ok (IndexFlatL2 (length e0), ∅)
      end
  end.

Definition update_faiss_index (st : Store) (doc : Z) (chunks : list string)
    (embeddings : list vector) : result unit * Store :=
  match load_or_create st embeddings with
  | Raise e => (Raise e, st)
  | Ok (index, mapping) =>
      let start_index := ntotal index in
      match index_add index embeddings with
      | Raise e => (Raise e, st)
      | Ok index' =>
          let mapping' := add_chunks start_index doc chunks 0 mapping in
          (Ok tt, mkStore (Some index') (Some mapping'))
      end
  end.

(** The invariant of the data model: index size equals mapping size and
    every lookup key is the decimal form of a valid position. *)
Definition index_mapping_inv (ix : Index) (m : gmap string entry) : Prop :=
  size m = length (xb ix) ∧
  ∀ key, is_Some (m !! key) → ∃ i : Z, 0 ≤ i < ntotal ix ∧ key = pretty i.

(** The keys of positions [0 .. n-1]. *)
Definition position_keys (n : Z) : gset string :=
  list_to_set (pretty <$> seqZ 0 n).

(** *** Search *)

(** The squared Euclidean distance [IndexFlatL2] ranks by. *)
Fixpoint l2sqr (x y : vector) : Q :=
  match x, y with
  | a :: x', b :: y' => (a - b) * (a - b) + l2sqr x' y'
  | _, _ => 0
  end.

(** Candidates are (position, distance) pairs, ranked by distance. *)
Definition closer (a b : Z * Q) : Prop := Qle_bool a.2 b.2 = true.

Global Instance closer_dec : RelDecision closer.
Proof. intros a b. unfold closer. apply _. Defined.

Definition candidates (ix : Index) (q : vector) : list (Z * Q) :=
  imap (fun i v => (Z.of_nat i, l2sqr q v)) (xb ix).

Definition ranking (ix : Index) (q : vector) : list (Z * Q) :=
  merge_sort closer (candidates ix q).

(** [index.search(x, k)] for one query row: [assert d == self.d] and
    [assert k > 0]; the labels of the k nearest rows, nearest first, padded
    with -1 when the index holds fewer than k rows. *)
Definition search (ix : Index) (q : vector) (k : nat) : result (list Z) :=
  if negb (Nat.eqb (length q) (dim ix)) then Raise (AssertionError "")
  else if Nat.eqb k 0 then Raise (AssertionError "")
  else Ok (take k ((ranking ix q).*1 ++ replicate k (-1))).

(** The distance of the row at position [p] to the query. *)
Definition distance_at (ix : Index) (q : vector) (p : Z) : Q :=
  match xb ix !! Z.to_nat p with
  | Some v => l2sqr q v
  | None => 0%Q
  end.

(** [mapping[key]] *)
Definition getitem (m : gmap string entry) (key : string) : result entry :=
  match m !! key with
  | Some e => Ok e
  | None => Raise (KeyError key)
  end.

Definition bind {A B} (r : result A) (f : A → result B) : result B :=
  match r with Ok a => f a | Raise e => Raise e end.

(** [[mapping[str(i)]['chunk_text'] for i in indices[0]]] *)
Fixpoint resolve_chunks (m : gmap string entry) (labels : list Z)
  : result (list string) :=
  match labels with
  | [] => Ok []
  | i :: rest =>
      bind (getitem m (pretty i)) (fun e =>
      bind (resolve_chunks m rest) (fun chunks =>
      Ok (chunk_text e :: chunks)))
  end.

(** [get_rag_prompt(question, context)] of [app/prompts.py]. *)
Definition get_rag_prompt (question context : string) : string :=
  nl +:+
  "    Based on the following context, please provide a comprehensive answer to the user's question." +:+ nl +:+
  "    If the context does not contain the answer, please advise the user, but still answer the question to the best of your knowledge." +:+ nl +:+
  "    Context:" +:+ nl +:+
  "    ---" +:+ nl +:+
  "    " +:+ context +:+ nl +:+
  "    ---" +:+ nl +:+
  "    Question: " +:+ question +:+ nl +:+
  "    ".

Definition no_documents_answer : string :=
  "This project has no documents to search.".

Section collaborators.

(** The embedding and chat capabilities, and [RAG_TOP_K] of the
    configuration. A failing call raises the given exception. *)
Variable embed : string → result vector.
Variable chat : string → result string.
Variable top_k : nat.

(** Steps 3 and 4 of [answer_question]: the KNN search with
    [k = min(RAG_TOP_K, index.ntotal)] and the lookup of every label. *)
Definition retrieve_chunks (index : Index) (mapping : gmap string entry)
    (question_embedding : vector) : result (list string) :=
  let k := Nat.min top_k (length (xb index)) in
  bind (search index question_embedding k) (fun indices =>
  resolve_chunks mapping indices).

(** [answer_question(project_id, question)] *)
Definition answer_question (st : Store) (question : string) : result string :=
  match index_file st with
  | None => Ok no_documents_answer
  | Some index =>
      match mapping_file st with
      | None => Raise (FileNotFoundError "mapping.json")
      | Some mapping =>
          match embed question with
          | Raise e =>
              Raise (RuntimeError ("Failed to embed question: " +:+ str_exn e))
          | Ok question_embedding =>
              bind (retrieve_chunks index mapping question_embedding)
                (fun relevant_chunks =>
              let context := join (nl +:+ "---" +:+ nl) relevant_chunks in
              let rag_prompt := get_rag_prompt question context in
              match chat rag_prompt with
              | Ok content => Ok content
              | Raise e =>
                  Raise (RuntimeError
                    ("Failed to generate answer with LLM: " +:+ str_exn e))
              end)
          end
      end
  end.

(** The handler of [POST /api/projects/<id>/ask] in [app/routes.py], after
    its request validation: the status code and the JSON field it returns.
    An exception other than the two it catches leaves the handler. *)
Definition ask_project_question (st : Store) (question : string)
  : result (Z * string) :=
  match answer_question st question with
  | Ok answer_text => Ok (200, answer_text)
  | Raise (FileNotFoundError _) =>
      Ok (404, "Project data not found. Upload documents first.")
  | Raise (RuntimeError msg) => Ok (500, msg)
  | Raise e => Raise e
  end.

(** *** The context assembler *)

Record Figure : Type := mkFigure {
  fig_name : string; page_number : Z;
  fig_description : string; fig_analysis : string
}.

Record Document : Type := mkDocument {
  doc_ident : Z; filename : string; bibtex_key : string;
  figures : list Figure
}.

(** A context item [(doc_id, content)]. *)
Definition item : Type := Z * string.

Definition text_item (e : entry) : item :=
  (doc_id e, "Relevant Text Snippet:" +:+ nl +:+ chunk_text e).

(** The text branch:
    [for idx in text_indices[0]:
        if str(idx) in text_mapping:
            item = text_mapping[str(idx)]
            context_items.add((item['doc_id'], f"Relevant Text Snippet:\n..."))] *)
Fixpoint text_loop (text_mapping : gmap string entry) (text_indices : list Z)
    (context_items : gset item) : result (gset item) :=
  match text_indices with
  | [] => Ok context_items
  | idx :: rest =>
      if bool_decide (pretty idx ∈ dom text_mapping)
      then bind (getitem text_mapping (pretty idx)) (fun e =>
           text_loop text_mapping rest ({[ text_item e ]} ∪ context_items))
      else text_loop text_mapping rest context_items
  end.

(** What a label contributes to the context set. *)
Definition contribution (m : gmap string entry) (idx : Z) : option item :=
  text_item <$> m !! pretty idx.

(** [figure_analyses]: for every figure of every document, its analysis
    text and the owning document's id. *)
Definition analysis_text (fig : Figure) : string :=
  "Figure named '" +:+ fig_name fig +:+ "' on page " +:+ pretty (page_number fig)
  +:+ ". Description: " +:+ fig_description fig
  +:+ ". Analysis: " +:+ fig_analysis fig.

Definition figure_analyses (documents : list Document) : list item :=
  d ← documents; (fun fig => (doc_ident d, analysis_text fig)) <$> figures d.

(** [lst[idx]] with Python's negative indices. *)
Definition py_index {A} (lst : list A) (idx : Z) : result A :=
  let len := Z.of_nat (length lst) in
  let pos := if Z.ltb idx 0 then idx + len else idx in
  if Z.ltb pos 0 then Raise (IndexError "list index out of range")
  else match lst !! Z.to_nat pos with
       | Some a => Ok a
       | None => Raise (IndexError "list index out of range")
       end.

(** The figure branch:
    [for idx in fig_indices[0]:
        item = figure_analyses[idx]
        context_items.add((item['doc_id'], f"Relevant Figure Analysis:\n..."))] *)
Fixpoint figure_loop (analyses : list item) (fig_indices : list Z)
    (context_items : gset item) : result (gset item) :=
  match fig_indices with
  | [] => Ok context_items
  | idx :: rest =>
      bind (py_index analyses idx) (fun it =>
      figure_loop analyses rest
        ({[ (it.1, "Relevant Figure Analysis:" +:+ nl +:+ it.2) ]} ∪ context_items))
  end.

Fixpoint embed_all (texts : list string) : result (list vector) :=
  match texts with
  | [] => Ok []
  | t :: rest =>
      bind (embed t) (fun v =>
      bind (embed_all rest) (fun vs => Ok (v :: vs)))
  end.

(** [doc_map.get(doc_id)] for [doc_map = {doc.id: doc for doc in documents}] *)
Definition doc_map_get (documents : list Document) (d : Z) : option Document :=
  list_find (fun doc => doc_ident doc = d) (reverse documents) ≫= (fun p => Some p.2).

(** Step 4: the context block. A Python set is iterated in an unspecified
    order; [elements] fixes one. *)
Definition format_item (documents : list Document) (it : item) : string :=
  match doc_map_get documents it.1 with
  | None => ""
  | Some doc =>
      "--- SOURCE START ---" +:+ nl
      +:+ "Document Filename: " +:+ filename doc +:+ nl
      +:+ "Citation Key: " +:+ bibtex_key doc +:+ nl +:+ nl
      +:+ it.2 +:+ nl
      +:+ "--- SOURCE END ---" +:+ nl +:+ nl
  end.

Definition format_context (documents : list Document) (items : gset item)
  : string :=
  foldr (fun it acc => format_item documents it +:+ acc) "" (elements items).

(** Loading [docs.index] and [mapping.json]: [faiss.read_index] raises
    [missing_index] on a missing file, [open] raises [FileNotFoundError]. *)
Variable missing_index : exn.

Definition load_text_index (st : Store) : result (Index * gmap string entry) :=
  let loaded :=
    match index_file st with
    | None => Raise missing_index
    | Some ix =>
        match mapping_file st with
        | None => Raise (FileNotFoundError "mapping.json")
        | Some m => Ok (ix, m)
        end
    end in
  match loaded with
  | Raise (FileNotFoundError _) =>
      Raise (RuntimeError "Project text index not found. Please add documents.")
  | r => r
  end.

(** [_gather_context(project_id, user_prompt)] of [app/agent_logic.py]. *)
Definition gather_context (st : Store) (documents : list Document)
    (user_prompt : string) : result string :=
  bind (load_text_index st) (fun '(text_index, text_mapping) =>
  let analyses := figure_analyses documents in
  bind (match analyses with
        | [] => Ok None
        | _ :: _ =>
            bind (embed_all (snd <$> analyses)) (fun figure_embeddings =>
            match np_shape figure_embeddings with
            | None => Raise (ValueError "setting an array element with a sequence")
            | Some (_, d) =>
                bind (index_add (IndexFlatL2 d) figure_embeddings)
                  (fun figure_index => Ok (Some figure_index))
            end)
        end) (fun figure_index =>
  bind (embed user_prompt) (fun prompt_embedding =>
  bind (search text_index prompt_embedding top_k) (fun text_indices =>
  bind (text_loop text_mapping text_indices ∅) (fun context_items =>
  bind (match figure_index with
        | None => Ok context_items
        | Some fi =>
            bind (search fi prompt_embedding top_k) (fun fig_indices =>
            figure_loop analyses fig_indices context_items)
        end) (fun context_items =>
  Ok (format_context documents context_items))))))).

End collaborators.

End VectorIndex.

(** ** The figure region detector ([app/llm_logic.py]) *)

Module Figures.

(** A bounding box [(x0, y0, x1, y1)] as the page reports it, and
    [fitz.Rect]. Coordinates are exact rationals: every float is one, and
    the rounding of [x ± threshold] is outside this model, as are the
    library's infinite rectangle and NaN. *)
Definition bbox : Type := Q * Q * Q * Q.

Record Rect : Type := mkRect { x0 : Q; y0 : Q; x1 : Q; y1 : Q }.

(** [fitz.Rect(bbox)] and [tuple(r)] *)
Definition Rect_of (b : bbox) : Rect :=
  let '(a, b, c, d) := b in mkRect a b c d.
Definition tuple_of (r : Rect) : bbox := (x0 r, y0 r, x1 r, y1 r).

Definition Qltb (a b : Q) : bool := negb (Qle_bool b a).

(** Python's [max(a, b)] and [min(a, b)]: the first argument unless the
    second is strictly larger (smaller). *)
Definition py_max (a b : Q) : Q := if Qltb a b then b else a.
Definition py_min (a b : Q) : Q := if Qltb b a then b else a.

(** [Rect.is_empty]: [x0 >= x1 or y0 >= y1] *)
Definition is_empty (r : Rect) : bool :=
  Qle_bool (x1 r) (x0 r) || Qle_bool (y1 r) (y0 r).

(** [r + (-t, -t, t, t)] *)
Definition inflate (r : Rect) (t : Q) : Rect :=
  mkRect (x0 r - t) (y0 r - t) (x1 r + t) (y1 r + t).

(** [Rect.intersect] on two non-empty rectangles. *)
Definition intersect (a b : Rect) : Rect :=
  mkRect (py_max (x0 a) (x0 b)) (py_max (y0 a) (y0 b))
         (py_min (x1 a) (x1 b)) (py_min (y1 a) (y1 b)).

(** [a.intersects(b)]: false when either is empty, otherwise whether the
    intersection is non-empty. *)
Definition intersects (a b : Rect) : bool :=
  if is_empty a || is_empty b then false
  else negb (is_empty (intersect a b)).

(** [a | b], that is [Rect(a).include_rect(b)]: an empty [b] is ignored, an
    empty [a] is replaced by [b], otherwise the bounding union. *)
Definition union (a b : Rect) : Rect :=
  if is_empty b then a
  else if is_empty a then b
  else mkRect (py_min (x0 a) (x0 b)) (py_min (y0 a) (y0 b))
              (py_max (x1 a) (x1 b)) (py_max (y1 a) (y1 b)).

(** The proximity test of the merge:
    [(r1 + (-threshold, -threshold, threshold, threshold)).intersects(r2)] *)
Definition near (threshold : Q) (r1 r2 : Rect) : bool :=
  intersects (inflate r1 threshold) r2.

(** The inner loop [for j in range(i - 1, -1, -1)]: the first [j] below the
    counter whose rectangle is near [r1]. *)
Fixpoint scan_j (threshold : Q) (rects : list Rect) (r1 : Rect) (j : nat)
  : option nat :=
  match j with
  | O => None
  | S j' =>
      match rects !! j' with
      | Some r2 =>
          if near threshold r1 r2 then Some j'
          else scan_j threshold rects r1 j'
      | None => None
      end
  end.

(** The outer loop [for i in range(len(rects) - 1, -1, -1)]: the first pair
    [(i, j)] to merge. *)
Fixpoint scan_i (threshold : Q) (rects : list Rect) (i : nat)
  : option (nat * nat) :=
  match i with
  | O => None
  | S i' =>
      match rects !! i' with
      | Some r1 =>
          match scan_j threshold rects r1 i' with
          | Some j => Some (i', j)
          | None => scan_i threshold rects i'
          end
      | None => None
      end
  end.

(** One iteration of [while merged]: [None] when no pair merges
    ([merged] stays [False]); otherwise [rects[j] = r1 | r2; rects.pop(i)]. *)
Definition merge_pass (threshold : Q) (rects : list Rect) : option (list Rect) :=
  match scan_i threshold rects (length rects) with
  | None => None
  | Some (i, j) =>
      match rects !! i, rects !! j with
      | Some r1, Some r2 => Some (delete i (<[j := union r1 r2]> rects))
      | _, _ => None
      end
  end.

Lemma scan_j_lt threshold rects r1 j j' :
  scan_j threshold rects r1 j = Some j' → (j' < j)%nat.
Proof.
  induction j as [|j IH]; simpl; [done|].
  destruct (rects !! j); [|done].
  destruct (near threshold r1 r).
  - intros [= <-]. lia.
  - intros H. specialize (IH H). lia.
Qed.

Lemma scan_i_lt threshold rects n i j :
  scan_i threshold rects n = Some (i, j) → (j < i < n)%nat.
Proof.
  induction n as [|n IH]; simpl; [done|].
  destruct (rects !! n); [|done].
  destruct (scan_j threshold rects r n) as [j'|] eqn:Hj.
  - intros [= <- <-]. apply scan_j_lt in Hj. lia.
  - intros H. specialize (IH H). lia.
Qed.

(** A pass that merges removes exactly one rectangle. *)
Lemma merge_pass_length threshold rects rects' :
  merge_pass threshold rects = Some rects' →
  S (length rects') = length rects.
Proof.
  unfold merge_pass.
  destruct (scan_i threshold rects (length rects)) as [[i j]|] eqn:Hscan; [|done].
  apply scan_i_lt in Hscan.
  destruct (rects !! i); [|done]. destruct (rects !! j); [|done].
  intros [= <-]. rewrite length_delete.
  - rewrite length_insert. lia.
  - apply lookup_lt_is_Some. rewrite length_insert. lia.
Qed.

(** The loop [while merged], by recursion on the number of rectangles. *)
Equations? merge_loop (threshold : Q) (rects : list Rect) : list Rect
  by wf (length rects) lt :=
  merge_loop threshold rects with inspect (merge_pass threshold rects) := {
    | exist _ (Some rects') Hpass := merge_loop threshold rects'
    | exist _ None _ := rects }.
Proof. apply merge_pass_length in Hpass. lia. Qed.

(** [merge_nearby_bboxes(bboxes, threshold)] *)
Definition merge_nearby_bboxes (bboxes : list bbox) (threshold : Q) : list bbox :=
  match bboxes with
  | [] => []
  | _ => tuple_of <$> merge_loop threshold (Rect_of <$> bboxes)
  end.

(** The same loop with an explicit bound on the number of passes; [None]
    when the bound is exhausted before a pass leaves [merged] false. *)
Fixpoint merge_bounded (fuel : nat) (threshold : Q) (rects : list Rect)
  : option (list Rect) :=
  match merge_pass threshold rects with
  | None => Some rects
  | Some rects' =>
      match fuel with
      | O => None
      | S fuel' => merge_bounded fuel' threshold rects'
      end
  end.

(** Order-independence is stated for boxes of positive width and height,
    up to numeric equality of the coordinates. *)
Definition proper (r : Rect) : Prop := (x0 r < x1 r)%Q ∧ (y0 r < y1 r)%Q.

Definition rect_eq (a b : Rect) : Prop :=
  (x0 a == x0 b)%Q ∧ (y0 a == y0 b)%Q ∧ (x1 a == x1 b)%Q ∧ (y1 a == y1 b)%Q.

(** [inside a b]: the box [a] lies within the box [b]. *)
Definition inside (a b : Rect) : Prop :=
  (x0 b <= x0 a)%Q ∧ (y0 b <= y0 a)%Q ∧ (x1 a <= x1 b)%Q ∧ (y1 a <= y1 b)%Q.

(** A list in which no two boxes at different positions are near. *)
Definition stable (threshold : Q) (rects : list Rect) : Prop :=
  ∀ i j r1 r2, i ≠ j → rects !! i = Some r1 → rects !! j = Some r2 →
    near threshold r1 r2 = false.

Definition covered (rects : list Rect) (r : Rect) : Prop :=
  ∃ f, f ∈ rects ∧ inside r f.

End Figures.

(** ** JSON values and [json.loads]

    The fragment of JSON that the outline uses and a little more: objects,
    arrays, strings with the two-character escapes, integers and the three
    literals. [json_loads] follows the strict scanner of Python's [json]
    module on this fragment; fractions, exponents and [\u] escapes are not
    modelled and yield [None]. An object is kept as its list of members in
    source order. *)

Module Json.

Local Set Warnings "-register-all".

Inductive json : Type :=
| JNull
| JBool (b : bool)
| JInt (z : Z)
| JStr (s : string)
| JArr (elems : list json)
| JObj (members : list (string * json)).

Definition quote_char : ascii := "034"%char.
Definition nl_string : string := String "010"%char EmptyString.
Definition backslash : ascii := "092"%char.

Definition is_ws (c : ascii) : bool :=
  Ascii.eqb c " " || Ascii.eqb c "009" || Ascii.eqb c "010" || Ascii.eqb c "013".

Definition is_control (c : ascii) : bool := (nat_of_ascii c <? 32)%nat.

Fixpoint skip_ws (s : string) : string :=
  match s with
  | String c r => if is_ws c then skip_ws r else s
  | EmptyString => EmptyString
  end.

(** The character an escape [\e] stands for. *)
Definition unescape (e : ascii) : option ascii :=
  if Ascii.eqb e quote_char then Some quote_char
  else if Ascii.eqb e backslash then Some backslash
  else if Ascii.eqb e "/" then Some "/"%char
  else if Ascii.eqb e "b" then Some "008"%char
  else if Ascii.eqb e "f" then Some "012"%char
  else if Ascii.eqb e "n" then Some "010"%char
  else if Ascii.eqb e "r" then Some "013"%char
  else if Ascii.eqb e "t" then Some "009"%char
  else None.

(** A string literal after its opening quote: the decoded characters and
    the text after the closing quote. *)
Fixpoint parse_string_body (s : string) : option (string * string) :=
  match s with
  | EmptyString => None
  | String c r =>
      if Ascii.eqb c quote_char then Some (EmptyString, r)
      else if Ascii.eqb c backslash then
        match r with
        | EmptyString => None
        | String e r' =>
            match unescape e, parse_string_body r' with
            | Some ch, Some (body, rest) => Some (String ch body, rest)
            | _, _ => None
            end
        end
      else if is_control c then None
      else
        match parse_string_body r with
        | Some (body, rest) => Some (String c body, rest)
        | None => None
        end
  end.

(** Decimal digits. *)
Definition digit (c : ascii) : option (Decimal.uint → Decimal.uint) :=
  if Ascii.eqb c "0" then Some Decimal.D0
  else if Ascii.eqb c "1" then Some Decimal.D1
  else if Ascii.eqb c "2" then Some Decimal.D2
  else if Ascii.eqb c "3" then Some Decimal.D3
  else if Ascii.eqb c "4" then Some Decimal.D4
  else if Ascii.eqb c "5" then Some Decimal.D5
  else if Ascii.eqb c "6" then Some Decimal.D6
  else if Ascii.eqb c "7" then Some Decimal.D7
  else if Ascii.eqb c "8" then Some Decimal.D8
  else if Ascii.eqb c "9" then Some Decimal.D9
  else None.

Fixpoint parse_digits (s : string) : Decimal.uint * string :=
  match s with
  | EmptyString => (Decimal.Nil, EmptyString)
  | String c r =>
      match digit c with
      | Some d => let '(ds, rest) := parse_digits r in (d ds, rest)
      | None => (Decimal.Nil, s)
      end
  end.

Definition starts_fraction (s : string) : bool :=
  match s with
  | String c _ => Ascii.eqb c "." || Ascii.eqb c "e" || Ascii.eqb c "E"
  | EmptyString => false
  end.

(** An integer literal: an optional minus sign and decimal digits without
    a leading zero, not followed by a fraction or an exponent. *)
Definition parse_int (s : string) : option (json * string) :=
  let '(negative, s1) :=
    match s with
    | String c r => if Ascii.eqb c "-" then (true, r) else (false, s)
    | EmptyString => (false, s)
    end in
  let '(ds, rest) := parse_digits s1 in
  match ds with
  | Decimal.Nil => None
  | _ =>
      if Decimal.uint_beq (Decimal.unorm ds) ds && negb (starts_fraction rest)
      then
        let n := Z.of_N (N.of_uint ds) in
        Some (JInt (if negative then - n else n), rest)
      else None
  end.

(** [literal word v s]: [s] without the prefix [word]. *)
Fixpoint strip_prefix (word s : string) : option string :=
  match word, s with
  | EmptyString, _ => Some s
  | String a w, String b r => if Ascii.eqb a b then strip_prefix w r else None
  | String _ _, EmptyString => None
  end.

(** The scanner: one value at the head of [s], and the text after it. The
    fuel bounds the number of nested calls; the length of the text is
    always enough. *)
Fixpoint parse_value (fuel : nat) (s : string) : option (json * string) :=
  match fuel with
  | O => None
  | S fuel =>
      match s with
      | EmptyString => None
      | String c r =>
          if Ascii.eqb c "{" then
            match skip_ws r with
            | String c' r' =>
                if Ascii.eqb c' "}" then Some (JObj [], r')
                else
                  match parse_members fuel (String c' r') with
                  | Some (l, rest) => Some (JObj l, rest)
                  | None => None
                  end
            | EmptyString => None
            end
          else if Ascii.eqb c "[" then
            match skip_ws r with
            | String c' r' =>
                if Ascii.eqb c' "]" then Some (JArr [], r')
                else
                  match parse_elems fuel (String c' r') with
                  | Some (l, rest) => Some (JArr l, rest)
                  | None => None
                  end
            | EmptyString => None
            end
          else if Ascii.eqb c quote_char then
            match parse_string_body r with
            | Some (body, rest) => Some (JStr body, rest)
            | None => None
            end
          else if Ascii.eqb c "n" then
            match strip_prefix "null" s with
            | Some rest => Some (JNull, rest)
            | None => None
            end
          else if Ascii.eqb c "t" then
            match strip_prefix "true" s with
            | Some rest => Some (JBool true, rest)
            | None => None
            end
          else if Ascii.eqb c "f" then
            match strip_prefix "false" s with
            | Some rest => Some (JBool false, rest)
            | None => None
            end
          else parse_int s
      end
  end

with parse_elems (fuel : nat) (s : string) : option (list json * string) :=
  match fuel with
  | O => None
  | S fuel =>
      match parse_value fuel s with
      | None => None
      | Some (v, r) =>
          match skip_ws r with
          | String c r' =>
              if Ascii.eqb c "," then
                match parse_elems fuel (skip_ws r') with
                | Some (l, rest) => Some (v :: l, rest)
                | None => None
                end
              else if Ascii.eqb c "]" then Some ([v], r')
              else None
          | EmptyString => None
          end
      end
  end

with parse_members (fuel : nat) (s : string)
  : option (list (string * json) * string) :=
  match fuel with
  | O => None
  | S fuel =>
      match s with
      | String q r =>
          if Ascii.eqb q quote_char then
            match parse_string_body r with
            | None => None
            | Some (key, r1) =>
                match skip_ws r1 with
                | String c r2 =>
                    if Ascii.eqb c ":" then
                      match parse_value fuel (skip_ws r2) with
                      | None => None
                      | Some (v, r3) =>
                          match skip_ws r3 with
                          | String c' r4 =>
                              if Ascii.eqb c' "," then
                                match parse_members fuel (skip_ws r4) with
                                | Some (l, rest) => Some ((key, v) :: l, rest)
                                | None => None
                                end
                              else if Ascii.eqb c' "}" then Some ([(key, v)], r4)
                              else None
                          | EmptyString => None
                          end
                      end
                    else None
                | EmptyString => None
                end
            end
          else None
      | EmptyString => None
      end
  end.

(** [json.loads(s)]: one value, with white space around it and nothing
    else. *)
Definition json_loads (s : string) : option json :=
  match parse_value (String.length s) (skip_ws s) with
  | Some (v, rest) =>
      match skip_ws rest with
      | EmptyString => Some v
      | String _ _ => None
      end
  | None => None
  end.

(** *** Texts of a value

    [Written v s]: [s] is a text of the value [v] with any white space
    between its tokens, integers in decimal, and every string written as it
    is between two quotes, without escapes: a backslash in it is a
    character of the string. Such a text is JSON exactly when it holds no
    backslash. [WrittenElems] and [WrittenMembers] are the texts of the
    elements of an array and of the members of an object, up to and
    including the closing bracket. *)

Inductive Ws : string → Prop :=
| Ws_nil : Ws EmptyString
| Ws_cons c s : is_ws c = true → Ws s → Ws (String c s).

Fixpoint raw_ok (s : string) : bool :=
  match s with
  | EmptyString => true
  | String c r => negb (Ascii.eqb c quote_char) && negb (is_control c) && raw_ok r
  end.

Definition quoted (s : string) : string :=
  String quote_char (s +:+ String quote_char EmptyString).

Definition print_int (z : Z) : string :=
  (if Z.ltb z 0 then "-" else "")
  +:+ DecimalString.NilEmpty.string_of_uint (N.to_uint (Z.abs_N z)).

Inductive Written : json → string → Prop :=
| W_null : Written JNull "null"
| W_true : Written (JBool true) "true"
| W_false : Written (JBool false) "false"
| W_int z : Written (JInt z) (print_int z)
| W_str s : raw_ok s = true → Written (JStr s) (quoted s)
| W_arr_empty w : Ws w → Written (JArr []) (String "[" (w +:+ "]"))
| W_arr l w t :
    Ws w → WrittenElems l t → Written (JArr l) (String "[" (w +:+ t))
| W_obj_empty w : Ws w → Written (JObj []) (String "{" (w +:+ "}"))
| W_obj l w t :
    Ws w → WrittenMembers l t → Written (JObj l) (String "{" (w +:+ t))

with WrittenElems : list json → string → Prop :=
| WE_last v sv w :
    Written v sv → Ws w → WrittenElems [v] (sv +:+ w +:+ "]")
| WE_more v l sv w w' t :
    Written v sv → Ws w → Ws w' → WrittenElems l t →
    WrittenElems (v :: l) (sv +:+ w +:+ "," +:+ w' +:+ t)

with WrittenMembers : list (string * json) → string → Prop :=
| WM_last k v sv w1 w2 w3 :
    raw_ok k = true → Written v sv → Ws w1 → Ws w2 → Ws w3 →
    WrittenMembers [(k, v)]
      (quoted k +:+ w1 +:+ ":" +:+ w2 +:+ sv +:+ w3 +:+ "}")
| WM_more k v l sv w1 w2 w3 w4 t :
    raw_ok k = true → Written v sv → Ws w1 → Ws w2 → Ws w3 → Ws w4 →
    WrittenMembers l t →
    WrittenMembers ((k, v) :: l)
      (quoted k +:+ w1 +:+ ":" +:+ w2 +:+ sv +:+ w3 +:+ "," +:+ w4 +:+ t).

Scheme Written_mut := Minimality for Written Sort Prop
  with WrittenElems_mut := Minimality for WrittenElems Sort Prop
  with WrittenMembers_mut := Minimality for WrittenMembers Sort Prop.
Combined Scheme Written_mutind
  from Written_mut, WrittenElems_mut, WrittenMembers_mut.

(** The first character of a text: a token, and no closing bracket. *)
Definition token_start (s : string) : Prop :=
  ∃ c r, s = String c r ∧ is_ws c = false ∧
         Ascii.eqb c "]" = false ∧ Ascii.eqb c "}" = false.

(** A text after which an integer literal ends: it starts with no digit
    and with no fraction or exponent. *)
Definition delimited (rest : string) : Prop :=
  parse_digits rest = (Decimal.Nil, rest) ∧ starts_fraction rest = false.

End Json.

(** ** Outline extraction ([app/agent_logic.py]) *)

Module Outline.
Import Json.

(** [s.find(c)] and [s.rfind(c)]; [None] is Python's -1. *)
Fixpoint find (c : ascii) (s : string) : option nat :=
  match s with
  | EmptyString => None
  | String a r =>
      if Ascii.eqb a c then Some O
      else match find c r with Some i => Some (S i) | None => None end
  end.

Fixpoint rfind (c : ascii) (s : string) : option nat :=
  match s with
  | EmptyString => None
  | String a r =>
      match rfind c r with
      | Some i => Some (S i)
      | None => if Ascii.eqb a c then Some O else None
      end
  end.

(** [s[a : b]] for [0 <= a <= b]. *)
Definition slice (a b : nat) (s : string) : string :=
  String.substring a (b - a) s.

(** [s.replace('\\', '\\\\')] *)
Fixpoint double_backslashes (s : string) : string :=
  match s with
  | EmptyString => EmptyString
  | String c r =>
      if Ascii.eqb c backslash
      then String backslash (String backslash (double_backslashes r))
      else String c (double_backslashes r)
  end.

(** [_extract_json_from_llm_response(raw_response)] *)
Definition extract_json_from_llm_response (raw_response : string) : string :=
  match find "{" raw_response, rfind "}" raw_response with
  | Some start_index, Some end_index =>
      if (start_index <? end_index)%nat
      then double_backslashes (slice start_index (end_index + 1) raw_response)
      else raw_response
  | _, _ => raw_response
  end.

End Outline.

(** ** The task orchestrator ([app/agent_logic.py], [app/routes.py]) *)

Module Tasks.
Import Json Outline.

(** A row of the [task] table ([app/models.py]). *)
Record Task : Type := mkTask {
  project_id : Z;
  task_type : string;
  user_prompt : string;
  status : string;
  status_message : option string;
  outline_json : option string;
  final_markdown_content : option string;
  final_content : option string
}.

(** The table, by primary key. Every step below commits at once, so the
    session's copy of the row and the stored row are the same. *)
Abbreviation DB := (gmap Z Task).

Definition set_status (s : string) (t : Task) : Task :=
  mkTask (project_id t) (task_type t) (user_prompt t) s (status_message t)
         (outline_json t) (final_markdown_content t) (final_content t).
Definition set_status_message (m : string) (t : Task) : Task :=
  mkTask (project_id t) (task_type t) (user_prompt t) (status t) (Some m)
         (outline_json t) (final_markdown_content t) (final_content t).
Definition set_outline_json (o : string) (t : Task) : Task :=
  mkTask (project_id t) (task_type t) (user_prompt t) (status t)
         (status_message t) (Some o) (final_markdown_content t) (final_content t).
Definition set_final_markdown_content (c : string) (t : Task) : Task :=
  mkTask (project_id t) (task_type t) (user_prompt t) (status t)
         (status_message t) (outline_json t) (Some c) (final_content t).
Definition set_final_content (c : string) (t : Task) : Task :=
  mkTask (project_id t) (task_type t) (user_prompt t) (status t)
         (status_message t) (outline_json t) (final_markdown_content t) (Some c).

(** Python's truth value of an optional string: [None] and the empty
    string are false. *)
Definition truthy_message (message : option string) : option string :=
  match message with
  | Some EmptyString | None => None
  | Some m => Some m
  end.

(** [_update_task_status(task_id, status, message=None)] *)
Definition update_task_status (task_id : Z) (new_status : string)
    (message : option string) (db : DB) : DB :=
  match db !! task_id with
  | None => db
  | Some task =>
      let task := set_status new_status task in
      let task :=
        match truthy_message message with
        | Some m => set_status_message m task
        | None => task
        end in
      <[task_id := task]> db
  end.

(** A step of the run: it may commit to the table and may raise. What was
    committed before an exception stays committed. *)
Definition M (A : Type) : Type := DB → result A * DB.

Global Instance M_ret : MRet M := fun A a db => (Ok a, db).
Global Instance M_bind : MBind M := fun A B f m db =>
  match m db with
  | (Ok a, db') => f a db'
  | (Raise e, db') => (Raise e, db')
  end.

Definition lift {A} (r : result A) : M A := fun db => (r, db).
Definition commit (f : DB → DB) : M unit := fun db => (Ok tt, f db).

(** [keeps f task_id m]: whatever the step [m] does and however it ends,
    the row of the task is still there and related by [f] to what it
    was. *)
Definition keeps (f : Task → Task → Prop) (task_id : Z) {A} (m : M A) : Prop :=
  ∀ db r db' t, m db = (r, db') → db !! task_id = Some t →
    ∃ t', db' !! task_id = Some t' ∧ f t t'.

(** Three relations between a row and its later self. *)
Definition same_message (t t' : Task) : Prop :=
  status_message t' = status_message t.
Definition same_outline (t t' : Task) : Prop :=
  outline_json t' = outline_json t.
Definition same_artifacts (t t' : Task) : Prop :=
  outline_json t' = outline_json t ∧
  final_markdown_content t' = final_markdown_content t ∧
  final_content t' = final_content t.

(** *** Reading the decoded outline, with Python's dynamic checks *)

Definition type_name (v : json) : string :=
  match v with
  | JNull => "NoneType" | JBool _ => "bool" | JInt _ => "int"
  | JStr _ => "str" | JArr _ => "list" | JObj _ => "dict"
  end.

(** [d[key]] for a decoded object: the last member with that key. *)
Definition dict_get (members : list (string * json)) (key : string)
  : option json :=
  match list_find (fun kv => kv.1 = key) (reverse members) with
  | Some (_, (_, v)) => Some v
  | None => None
  end.

(** [bool(v)] *)
Definition truthy (v : json) : bool :=
  match v with
  | JNull => false
  | JBool b => b
  | JInt z => negb (Z.eqb z 0)
  | JStr s => negb (String.eqb s "")
  | JArr l => match l with [] => false | _ => true end
  | JObj l => match l with [] => false | _ => true end
  end.

(** [s[key]] for a string key *)
Definition subscript (s : json) (key : string) : result json :=
  match s with
  | JObj members =>
      match dict_get members key with
      | Some v => Ok v
      | None => Raise (KeyError key)
      end
  | JStr _ => Raise (TypeError "string indices must be integers, not 'str'")
  | JArr _ => Raise (TypeError "list indices must be integers or slices, not str")
  | v => Raise (TypeError ("'" +:+ type_name v +:+ "' object is not subscriptable"))
  end.

(** The keys of a decoded object, each once, in order of first insertion. *)
Fixpoint dict_keys (members : list (string * json)) (seen : list string)
  : list string :=
  match members with
  | [] => []
  | (k, _) :: rest =>
      if bool_decide (k ∈ seen) then dict_keys rest seen
      else k :: dict_keys rest (k :: seen)
  end.

Fixpoint chars (s : string) : list string :=
  match s with
  | EmptyString => []
  | String c r => String c EmptyString :: chars r
  end.

(** [list(v)], which also gives [len(v)]: what [enumerate(sections)] yields. *)
Definition py_iter (v : json) : result (list json) :=
  match v with
  | JArr l => Ok l
  | JStr s => Ok (JStr <$> chars s)
  | JObj members => Ok (JStr <$> dict_keys members [])
  | v => Raise (TypeError ("object of type '" +:+ type_name v +:+ "' has no len()"))
  end.

(** The outline's sections:
    [sections = outline.get('sections', []); if not sections: raise ValueError]. *)
Definition outline_sections (outline : json) : result json :=
  match outline with
  | JObj members =>
      let sections := default (JArr []) (dict_get members "sections") in
      if truthy sections then Ok sections
      else Raise (ValueError
        "LLM returned valid JSON, but the 'sections' array is missing or empty.")
  | v => Raise (AttributeError
        ("'" +:+ type_name v +:+ "' object has no attribute 'get'"))
  end.

(** *** The run *)

(** Dictionary keys: lists and objects are not hashable; [True] and [1],
    [False] and [0] are the same key. *)
Definition unhashable (v : json) : option exn :=
  match v with
  | JArr _ | JObj _ =>
      Some (TypeError ("unhashable type: '" +:+ type_name v +:+ "'"))
  | _ => None
  end.

Definition key_eqb (a b : json) : bool :=
  match a, b with
  | JNull, JNull => true
  | JStr x, JStr y => String.eqb x y
  | JInt x, JInt y => Z.eqb x y
  | JBool x, JBool y => Bool.eqb x y
  | JBool x, JInt y | JInt y, JBool x => Z.eqb (if x then 1 else 0) y
  | _, _ => false
  end.

(** [generated_sections_content[key]], the dictionary kept newest first. *)
Definition generated_get (generated : list (json * string)) (key : json)
  : result string :=
  match unhashable key with
  | Some e => Raise e
  | None =>
      match list_find (fun kv => key_eqb kv.1 key = true) generated with
      | Some (_, (_, content)) => Ok content
      | None => Raise (KeyError "title")
      end
  end.

Section run.

(** The collaborators of a run: [json.loads] ([None] for a decode error),
    the context assembler, the chat capability at the n-th call of the
    run, the two prompt templates, Python's [str] on a decoded value, the
    bibliographic entries of the project's documents, the write of the
    bibliography file and the citation formatter. *)
Variable json_loads : string → option json.
Variable gather_context : Z → string → result string.
Variable chat : nat → string → result string.
Variable outline_prompt : string → string → string.
Variable section_prompt : string → string → string → string → string → string.
Variable py_str : json → string.
Variable bibtex_entries : list (option string).
Variable write_file : string → result unit.
Variable pandoc : string → string → result string.

(** The running context of section [i]: the loop over [enumerate(sections)]
    from index [j] on. *)
Fixpoint report_context (sections : list json) (i j : nat)
    (generated : list (json * string)) : result string :=
  match sections with
  | [] => Ok ""
  | s :: rest =>
      title ← subscript s "title";
      piece ←
        (if Nat.eqb i j then
           description ← subscript s "description";
           Ok ("## " +:+ py_str title +:+ nl +:+ "--> YOU ARE HERE <--" +:+ nl
               +:+ "Description: " +:+ py_str description +:+ nl +:+ nl)
         else if Nat.ltb j i then
           content ← generated_get generated title;
           Ok ("## " +:+ py_str title +:+ nl +:+ content +:+ nl +:+ nl)
         else
           description ← subscript s "description";
           Ok ("## " +:+ py_str title +:+ nl
               +:+ "Description: " +:+ py_str description +:+ nl +:+ nl));
      others ← report_context rest i (S j) generated;
      Ok (piece +:+ others)
  end.

(** Step 2, from section [i] on: [todo] are the sections still to write. *)
Fixpoint write_sections (task_id : Z) (task : Task) (context_str : string)
    (sections todo : list json) (i : nat)
    (generated : list (json * string)) (report_body_parts : list string)
  : M (list string) :=
  match todo with
  | [] => mret report_body_parts
  | section :: rest =>
      commit (update_task_status task_id
                ("writing_section_" +:+ pretty (S i) +:+ "_of_"
                 +:+ pretty (length sections)) None);;
      report_ctx ← lift (report_context sections i 0 generated);
      title ← lift (subscript section "title");
      description ← lift (subscript section "description");
      section_content ← lift (chat (S i)
        (section_prompt (user_prompt task) report_ctx (py_str title)
           (py_str description) context_str));
      lift (match unhashable title with Some e => Raise e | None => Ok tt end);;
      write_sections task_id task context_str sections rest (S i)
        ((title, section_content) :: generated)
        (report_body_parts ++
           ["## " +:+ py_str title +:+ nl +:+ section_content +:+ nl])
  end.

(** [json.loads] of the extracted text and the check of its sections. *)
Definition parse_outline (cleaned_json_str : string) : result json :=
  match json_loads cleaned_json_str with
  | None => Raise (ValueError
      "The language model failed to return a valid JSON object for the report outline.")
  | Some outline => outline_sections outline
  end.

(** [project_bib_content]: joining an entry that is [None] raises. *)
Definition bibliography : result string :=
  match mapM id bibtex_entries with
  | Some entries => Ok (join (nl +:+ nl) entries)
  | None => Raise (TypeError "sequence item: expected str instance, NoneType found")
  end.

(** Steps 2 and 3 of the [try] block: the sections are written, the
    markdown is stored, and the formatter's output is stored. *)
Definition write_report (task_id : Z) (task : Task) (context_str : string)
    (sections : json) : M unit :=
  section_list ← lift (py_iter sections);
  report_body_parts ←
    write_sections task_id task context_str section_list section_list 0 [] [];
  commit (update_task_status task_id "assembling_report" None);;
  let full_markdown_content := join nl report_body_parts in
  commit (alter (set_final_markdown_content full_markdown_content) task_id);;
  project_bib_content ← lift bibliography;
  lift (write_file project_bib_content);;
  final_latex_content ← lift (pandoc full_markdown_content project_bib_content);
  commit (alter (set_final_content final_latex_content) task_id);;
  commit (update_task_status task_id "complete" None).

(** The body of the [try] block of [run_report_writing_task], for the row
    [task] found under [task_id]: step 1, the commit of the outline, and
    the rest. *)
Definition run_body (task_id : Z) (task : Task) : M unit :=
  commit (update_task_status task_id "gathering_context" None);;
  context_str ← lift (gather_context (project_id task) (user_prompt task));
  commit (update_task_status task_id "generating_outline" None);;
  raw_llm_output ← lift (chat 0 (outline_prompt (user_prompt task) context_str));
  let cleaned_json_str := extract_json_from_llm_response raw_llm_output in
  sections ← lift (parse_outline cleaned_json_str);
  commit (alter (set_outline_json cleaned_json_str) task_id);;
  write_report task_id task context_str sections.

(** [run_report_writing_task(task_id, app)]: the table after the run. *)
Definition run_report_writing_task (task_id : Z) (db : DB) : DB :=
  match db !! task_id with
  | None => db
  | Some task =>
      match run_body task_id task db with
      | (Ok _, db') => db'
      | (Raise e, db') =>
          update_task_status task_id "failed" (Some (str_exn e)) db'
      end
  end.

End run.

(** *** Starting a run ([run_task] of [app/routes.py]) *)

(** The response (status code and message) and the task whose background
    thread is started, if any. *)
Definition run_task (db : DB) (task_id : Z) : (Z * string) * option Z :=
  match db !! task_id with
  | None => ((404, "Not Found"), None)
  | Some task =>
      if String.prefix "writing" (status task)
         || String.prefix "generating" (status task)
      then ((409, "Task is already running"), None)
      else if String.eqb (task_type task) "report_writing"
      then ((202, "Report generation task started."), Some task_id)
      else ((400, "Unknown task type"), None)
  end.

(** *** Two concrete runs *)

(** A reply of the chat capability that wraps a one-section outline in
    prose. *)
Definition sample_reply : string :=
  let q := String quote_char "" in
  "Here is the outline: {" +:+ q +:+ "sections" +:+ q +:+ ": [{"
  +:+ q +:+ "title" +:+ q +:+ ": " +:+ q +:+ "Intro" +:+ q +:+ ", "
  +:+ q +:+ "description" +:+ q +:+ ": " +:+ q +:+ "Overview" +:+ q
  +:+ "}]} I hope it helps.".

(** A run whose outline succeeds and whose first section call fails. *)
Definition run_failing_section : Z → DB → DB :=
  run_report_writing_task Json.json_loads
    (fun _ _ => Ok "context")
    (fun n _ => match n with
                | O => Ok sample_reply
                | S _ => Raise (RuntimeError "model unavailable")
                end)
    (fun prompt context => prompt +:+ context)
    (fun prompt report title description context => report)
    (fun v => match v with JStr s => s | _ => "" end)
    [Some "@misc{Smith2024_Article}"]
    (fun _ => Ok tt)
    (fun markdown _ => Ok markdown).

(** A run whose search fails an assertion that carries no message. *)
Definition run_failing_assertion : Z → DB → DB :=
  run_report_writing_task Json.json_loads
    (fun _ _ => Raise (AssertionError ""))
    (fun _ _ => Ok sample_reply)
    (fun prompt context => prompt +:+ context)
    (fun prompt report title description context => report)
    (fun v => match v with JStr s => s | _ => "" end)
    []
    (fun _ => Ok tt)
    (fun markdown _ => Ok markdown).

End Tasks.

(** ** The bibliographic key ([process_and_embed_document], [app/models.py]) *)

Module Bibliography.

(** [s.split(' ')[0]]: the text before the first space. *)
Fixpoint first_word (s : string) : string :=
  match s with
  | EmptyString => EmptyString
  | String c r => if Ascii.eqb c " " then EmptyString else String c (first_word r)
  end.

(** [str.upper] and [str.lower] on one ASCII letter; other characters are
    left as they are. *)
Definition upper (c : ascii) : ascii :=
  let n := nat_of_ascii c in
  if (97 <=? n)%nat && (n <=? 122)%nat then ascii_of_nat (n - 32) else c.
Definition lower (c : ascii) : ascii :=
  let n := nat_of_ascii c in
  if (65 <=? n)%nat && (n <=? 90)%nat then ascii_of_nat (n + 32) else c.

Fixpoint lower_all (s : string) : string :=
  match s with
  | EmptyString => EmptyString
  | String c r => String (lower c) (lower_all r)
  end.

(** [s.capitalize()] *)
Definition capitalize (s : string) : string :=
  match s with
  | EmptyString => EmptyString
  | String c r => String (upper c) (lower_all r)
  end.

Definition nonempty (s : string) : bool := negb (String.eqb s "").

(** [bib_key = f"{author_lastname}{year}_{title_firstword}"] *)
Definition bib_key (author year title : string) : string :=
  let author_lastname :=
    if nonempty author then capitalize (first_word author) else "Unknown" in
  let title_firstword :=
    if nonempty title then capitalize (first_word title) else "Title" in
  author_lastname +:+ year +:+ "_" +:+ title_firstword.

(** A row of the [document] table, as far as the key is concerned. *)
Record Document : Type := mkDocument {
  doc_project : Z; doc_filename : string; bibtex_key : string
}.

(** [db.session.add(new_doc); db.session.commit()] under the column's
    [unique=True]: a key that is already stored violates the constraint. *)
Definition add_document (table : list Document) (new_doc : Document)
  : result (list Document) :=
  if bool_decide (bibtex_key new_doc ∈ bibtex_key <$> table)
  then Raise (OtherError "UNIQUE constraint failed: document.bibtex_key")
  else Ok (table ++ [new_doc]).

(** Step 3 and 4 of the ingestion for the extracted fields. *)
Definition store_document (table : list Document) (project : Z)
    (filename author year title : string) : result (list Document) :=
  add_document table (mkDocument project filename (bib_key author year title)).

End Bibliography.

(** ** Rebuilding the index ([rebuild_faiss_index_for_project]) *)

Module Rebuild.
Import VectorIndex.

(** The two files of a project's data directory agree: both are absent, or
    both are present, the index holds at least one row and the mapping's
    keys are the index's positions. *)
Definition store_inv (st : Store) : Prop :=
  match index_file st, mapping_file st with
  | None, None => True
  | Some ix, Some m => xb ix ≠ [] ∧ index_mapping_inv ix m
  | _, _ => False
  end.

Section rebuild.

(** The embedding capability, [os.path.exists] on a document's file and
    [load_and_split_document] of [app/utils.py], which returns the empty
    list when the file cannot be read. *)
Variable embed : string → result vector.
Variable file_exists : string → bool.
Variable load_and_split_document : string → list string.

(** One turn of the loop over [project.documents]: a missing file and an
    empty chunk list are skipped; an exception of the embedding calls or of
    [update_faiss_index] is caught and printed, and the loop goes on. *)
Definition reindex_document (st : Store) (doc : Document) : Store :=
  if negb (file_exists (filename doc)) then st
  else
    let chunks := load_and_split_document (filename doc) in
    match chunks with
    | [] => st
    | _ :: _ =>
        match embed_all embed chunks with
        | Raise _ => st
        | Ok embeddings =>
            match update_faiss_index st (doc_ident doc) chunks embeddings with
            | (Ok _, st') => st'
            | (Raise _, st') => st'
            end
        end
    end.

(** [rebuild_faiss_index_for_project(project_id)]: both files are removed,
    then every remaining document is indexed again. *)
Definition rebuild_faiss_index_for_project (st : Store)
    (documents : list Document) : Store :=
  let st := mkStore None None in
  match documents with
  | [] => st
  | _ :: _ => foldl reindex_document st documents
  end.

(** The mapping entries a document contributes: one per chunk of its file,
    none when the file is missing. *)
Definition document_entries (doc : Document) : list entry :=
  if file_exists (filename doc)
  then mkEntry (doc_ident doc) <$> load_and_split_document (filename doc)
  else [].

Definition project_entries (documents : list Document) : list entry :=
  documents ≫= document_entries.

End rebuild.

(** [holds_entries embedding d st entries m]: the store holds exactly the
    given entries, in this order: row [i] of its index is the embedding of
    the chunk of [entries !! i], which the mapping [m] keeps under key
    [str(i)]; with no entry at all, neither file exists. *)
Definition holds_entries (embedding : string → vector) (d : nat) (st : Store)
    (entries : list entry) (m : gmap string entry) : Prop :=
  dom m = position_keys (Z.of_nat (length entries)) ∧
  (∀ (i : nat) e, entries !! i = Some e → m !! pretty (Z.of_nat i) = Some e) ∧
  st = match entries with
       | [] => mkStore None None
       | _ :: _ =>
           mkStore (Some (mkIndex d ((embedding ∘ chunk_text) <$> entries)))
                   (Some m)
       end.

End Rebuild.

(** ** Figure regions of a page ([extract_and_analyze_figures],
       [is_likely_figure]) *)

Module Regions.
Import Figures.

(** [Rect.width] and [Rect.height]: [max(0, x1 - x0)], [max(0, y1 - y0)] *)
Definition width (r : Rect) : Q := py_max 0 (x1 r - x0 r).
Definition height (r : Rect) : Q := py_max 0 (y1 r - y0 r).

(** Pass 2: for every core region in turn, the text blocks (their boxes
    [tb[:4]]) that intersect the zone of 50 units around it. *)
Definition associated_text (core_figure_regions text_bboxes : list bbox)
  : list bbox :=
  region_bbox ← core_figure_regions;
  filter (fun tb => intersects (inflate (Rect_of region_bbox) 50) (Rect_of tb) = true)
         text_bboxes.

(** Passes 1 to 3 for one page: the graphic boxes merged at threshold 15,
    the associated text appended, and the whole merged at threshold 25. A
    page without graphic boxes is skipped. *)
Definition figure_regions (graphic_bboxes text_bboxes : list bbox) : list bbox :=
  let core_figure_regions := merge_nearby_bboxes graphic_bboxes 15 in
  match core_figure_regions with
  | [] => []
  | _ :: _ =>
      let final_figure_components :=
        core_figure_regions ++ associated_text core_figure_regions text_bboxes in
      merge_nearby_bboxes final_figure_components 25
  end.

(** The loop of heuristic 3: the summed areas of the text blocks that
    intersect the candidate region. *)
Definition total_text_area (figure_rect : Rect) (text_bboxes : list bbox) : Q :=
  foldl (fun acc tb =>
           let text_rect := Rect_of tb in
           if intersects figure_rect text_rect
           then (acc + width text_rect * height text_rect)%Q else acc)
        0%Q text_bboxes.

(** [is_likely_figure(page, bbox, text_blocks, image_bboxes, drawing_bboxes)].
    The decimal constants stand for themselves; the rounding of the two
    divisions is outside this model. *)
Definition is_likely_figure (bbox : bbox)
    (text_bboxes image_bboxes drawing_bboxes : list Figures.bbox) : bool :=
  let figure_rect := Rect_of bbox in
  if Qltb (width figure_rect) 50 || Qltb (height figure_rect) 50 then false
  else
    let aspect_ratio :=
      if Qltb 0 (height figure_rect)
      then (width figure_rect / height figure_rect)%Q else 0%Q in
    if Qltb 10 aspect_ratio || Qltb aspect_ratio (1#10) then false
    else
      let contained_images :=
        existsb (fun b => intersects figure_rect (Rect_of b)) image_bboxes in
      let contained_drawings :=
        existsb (fun b => intersects figure_rect (Rect_of b)) drawing_bboxes in
      let contained_graphics := contained_images || contained_drawings in
      if negb contained_graphics then false
      else
        let figure_area := (width figure_rect * height figure_rect)%Q in
        if Qeq_bool figure_area 0 then false
        else
          let text_coverage_ratio :=
            (total_text_area figure_rect text_bboxes / figure_area)%Q in
          if Qltb (7#10) text_coverage_ratio then false else true.

(** The basic size filter that follows the call of [is_likely_figure]:
    [figure_rect.is_empty or figure_rect.width < 50 or figure_rect.height < 50]. *)
Definition too_small (figure_rect : Rect) : bool :=
  is_empty figure_rect || Qltb (width figure_rect) 50
  || Qltb (height figure_rect) 50.

(** The regions of a page that are rendered and analysed, each with its
    index [i] in [final_figure_bboxes], which names the image file. *)
Definition rendered_regions (image_bboxes drawing_bboxes text_bboxes : list bbox)
  : list (nat * bbox) :=
  let final_figure_bboxes :=
    figure_regions (image_bboxes ++ drawing_bboxes) text_bboxes in
  filter (fun ib =>
            is_likely_figure ib.2 text_bboxes image_bboxes drawing_bboxes = true
            ∧ too_small (Rect_of ib.2) = false)
         (imap (fun i bbox => (i, bbox)) final_figure_bboxes).

End Regions.

(** ** Uploading a document ([process_and_embed_document],
       [upload_document] of [app/routes.py]) *)

Module Ingestion.
Import VectorIndex Bibliography.

(** What an upload reads and writes: the [document] table, the project's
    index store and the names of the files in the project's directory.
    Figure rows and figure images are outside this state. *)
Record State : Type := mkState {
  table : list Bibliography.Document;
  store : Store;
  files : gset string
}.

Section ingestion.

(** [load_and_split_document] on the saved file; step 2 with the reading of
    the fields title, author and year ([Raise] for whatever the chat call,
    [json.loads] (both wrapped in [RuntimeError] by the code) or
    [metadata.get] raise, [Ok] for three strings); the primary key the
    database assigns to the new row; the embedding capability. *)
Variable load_and_split_document : string → list string.
Variable read_metadata : list string → string → result (string * string * string).
Variable new_doc_id : list Bibliography.Document → Z.
Variable embed : string → result vector.

(** [process_and_embed_document(project_id, file_path, doc_type, filename)]:
    the new document's id and key, or the exception, and the state left
    behind. The row is committed in step 4; the figure step, which catches
    its own exceptions, and the embeddings come after it. *)
Definition process_and_embed_document (s : State) (project : Z)
    (filename doc_type : string) : result (Z * string) * State :=
  let chunks := load_and_split_document filename in
  match chunks with
  | [] => (Raise (ValueError "Could not read or process the document."), s)
  | _ :: _ =>
      match read_metadata chunks doc_type with
      | Raise e => (Raise e, s)
      | Ok (title, author, year) =>
          match store_document (table s) project filename author year title with
          | Raise e => (Raise e, s)
          | Ok table' =>
              let new_doc := new_doc_id (table s) in
              match embed_all embed chunks with
              | Raise e =>
                  (Raise (RuntimeError
                     ("Failed to create embeddings with Ollama: " +:+ str_exn e)),
                   mkState table' (store s) (files s))
              | Ok embeddings =>
                  match update_faiss_index (store s) new_doc chunks embeddings with
                  | (Raise e, store') => (Raise e, mkState table' store' (files s))
                  | (Ok _, store') =>
                      (Ok (new_doc, bib_key author year title),
                       mkState table' store' (files s))
                  end
              end
          end
      end
  end.

(** The handler of [POST /api/projects/<id>/documents] after its request
    validation: the file is saved under its name, then processed; on
    [ValueError] or [RuntimeError] the file is removed and the response is
    500 with the message; any other exception leaves the handler. The
    response is the status code with the key or the message. *)
Definition upload_document (s : State) (project : Z)
    (filename doc_type : string) : result (Z * string) * State :=
  let saved := mkState (table s) (store s) ({[ filename ]} ∪ files s) in
  match process_and_embed_document saved project filename doc_type with
  | (Ok (_, key), s') => (Ok (201, key), s')
  | (Raise (ValueError msg), s') | (Raise (RuntimeError msg), s') =>
      (Ok (500, msg), mkState (table s') (store s') (files s' ∖ {[ filename ]}))
  | (Raise e, s') => (Raise e, s')
  end.

End ingestion.

End Ingestion.

(** ** Deleting a document ([delete_document] of [app/routes.py]) *)

Module Deletion.
Import VectorIndex Rebuild.

(** A project as the handler sees it: its document rows, its index store
    and the names of the files in its directory. Figure images and figure
    rows, which go with the document, are outside this state. *)
Record Project : Type := mkProject {
  documents : list Document;
  store : Store;
  files : gset string
}.

Section deletion.

Variable embed : string → result vector.
Variable load_and_split_document : string → list string.

(** The handler of [DELETE /api/documents/<id>] on the project of the
    document: 404 when there is no such row; otherwise the document's file
    is removed if it is there, the row is deleted, and the index is rebuilt
    from the remaining rows and the files that are left. *)
Definition delete_document (p : Project) (document_id : Z)
  : (Z * string) * Project :=
  match list_find (fun doc => doc_ident doc = document_id) (documents p) with
  | None => ((404, "Not Found"), p)
  | Some (_, doc) =>
      let files' := files p ∖ {[ filename doc ]} in
      let documents' :=
        filter (fun d => doc_ident d ≠ document_id) (documents p) in
      let store' :=
        rebuild_faiss_index_for_project embed
          (fun name => bool_decide (name ∈ files')) load_and_split_document
          (store p) documents' in
      ((200, "Document and all associated files deleted; index rebuilt."),
       mkProject documents' store' files')
  end.

End deletion.

End Deletion.

(** ** Texts that hold an object *)

Module Braces.

(** [has_braces raw]: the text has an opening brace and, somewhere after
    it, a closing brace. *)
Definition has_braces (raw : string) : Prop :=
  ∃ before middle after,
    raw = before +:+ String "{" (middle +:+ String "}" after).

End Braces.

(** ** What a run does to the task table *)

Module TaskRun.
Import Tasks.

(** [touches_only task_id m]: however the step [m] ends, no row was created
    or removed and the rows of the other tasks are what they were. *)
Definition touches_only (task_id : Z) {A} (m : M A) : Prop :=
  ∀ db r db', m db = (r, db') →
    dom db' = dom db ∧ ∀ id, id ≠ task_id → db' !! id = db !! id.

(** [ensures task_id P m Q]: when the step [m] starts on a row of the task
    that satisfies [P] and returns, the task's row satisfies [Q]. *)
Definition ensures (task_id : Z) {A} (P : Task → Prop) (m : M A)
    (Q : Task → Prop) : Prop :=
  ∀ db a db' t, db !! task_id = Some t → P t → m db = (Ok a, db') →
    ∃ t', db' !! task_id = Some t' ∧ Q t'.

(** The fields of a row that no step of a run writes. *)
Definition same_request (t t' : Task) : Prop :=
  project_id t' = project_id t ∧ task_type t' = task_type t ∧
  user_prompt t' = user_prompt t.

(** A run in which every collaborator succeeds; the reply to the outline
    request is [sample_reply]. *)
Definition run_succeeding : Z → DB → DB :=
  run_report_writing_task Json.json_loads
    (fun _ _ => Ok "context")
    (fun n _ => match n with
                | O => Ok sample_reply
                | S _ => Ok "It begins."
                end)
    (fun prompt context => prompt +:+ context)
    (fun prompt report title description context => report)
    (fun v => match v with Json.JStr s => s | _ => "" end)
    [Some "@misc{Smith2024_Article}"]
    (fun _ => Ok tt)
    (fun markdown _ => Ok markdown).

End TaskRun.

(** ** Items of the context set ([_gather_context]) *)

Module ContextItems.
Import VectorIndex.

(** The item that the figure branch adds for the analysis [(doc_id, text)]
    it picked. *)
Definition figure_item (it : item) : item :=
  (it.1, "Relevant Figure Analysis:" +:+ nl +:+ it.2).

End ContextItems.

(** * Properties *)

(** ** Vector index store *)

Section vector_index_facts.
Import VectorIndex.

Lemma elem_of_position_keys (n : Z) (key : string) :
  key ∈ position_keys n ↔ ∃ i : Z, 0 ≤ i < n ∧ key = pretty i.
Proof.
  unfold position_keys. rewrite elem_of_list_to_set, list_elem_of_fmap.
  split.
  - intros (i & -> & Hi). apply elem_of_seqZ in Hi. exists i. split; [lia|done].
  - intros (i & Hi & ->). exists i. split; [done|]. apply elem_of_seqZ. lia.
Qed.

Lemma size_position_keys (n : nat) : size (position_keys (Z.of_nat n)) = n.
Proof.
  unfold position_keys. rewrite size_list_to_set.
  - rewrite length_fmap, length_seqZ. lia.
  - apply NoDup_fmap; [apply _|]. apply NoDup_seqZ.
Qed.

(** The invariant says exactly that the mapping's keys are the positions of
    the index. *)
Lemma index_mapping_inv_dom (ix : Index) (m : gmap string entry) :
  index_mapping_inv ix m ↔ dom m = position_keys (ntotal ix).
Proof.
  unfold index_mapping_inv, ntotal. split.
  - intros [Hsize Hkeys]. apply set_subseteq_size_eq.
    + intros key Hkey. apply elem_of_position_keys. apply Hkeys.
      by apply elem_of_dom.
    + rewrite size_position_keys, size_dom. lia.
  - intros Hdom. split.
    + rewrite <- size_dom, Hdom. apply size_position_keys.
    + intros key Hkey. apply elem_of_position_keys. rewrite <- Hdom.
      by apply elem_of_dom.
Qed.

Lemma add_chunks_lookup_other start doc chunks i (m : gmap string entry) key :
  (∀ k : nat, (k < length chunks)%nat → key ≠ pretty (start + i + Z.of_nat k)) →
  add_chunks start doc chunks i m !! key = m !! key.
Proof.
  revert i m. induction chunks as [|c cs IH]; intros i m Hne; simpl; [done|].
  rewrite IH.
  - apply lookup_insert_ne. specialize (Hne 0%nat). simpl in Hne.
    replace (start + i + Z.of_nat 0) with (start + i) in Hne by lia.
    intros Heq. apply Hne; [lia|congruence].
  - intros k Hk. specialize (Hne (S k)). simpl in Hne.
    replace (start + (i + 1) + Z.of_nat k) with (start + i + Z.of_nat (S k)) by lia.
    apply Hne. lia.
Qed.

Lemma add_chunks_lookup_new start doc chunks i (m : gmap string entry) (j : nat) c :
  chunks !! j = Some c →
  add_chunks start doc chunks i m !! pretty (start + i + Z.of_nat j)
  = Some (mkEntry doc c).
Proof.
  revert i m j. induction chunks as [|c0 cs IH]; intros i m j Hj; [done|].
  destruct j as [|j]; simpl in *.
  - injection Hj as ->. rewrite add_chunks_lookup_other.
    + replace (start + i + Z.of_nat 0) with (start + i) by lia. apply lookup_insert_eq.
    + intros k _ Heq. apply (inj pretty) in Heq. lia.
  - replace (start + i + Z.of_nat (S j)) with (start + (i + 1) + Z.of_nat j) by lia. by apply IH.
Qed.

Lemma add_chunks_dom start doc chunks i (m : gmap string entry) :
  dom (add_chunks start doc chunks i m)
  = dom m ∪ list_to_set (pretty <$> seqZ (start + i) (Z.of_nat (length chunks))).
Proof.
  revert i m. induction chunks as [|c cs IH]; intros i m; simpl length.
  - simpl. by rewrite (right_id_L ∅ (∪)).
  - simpl add_chunks. rewrite IH, dom_insert_L.
    replace (Z.of_nat (S (length cs))) with (Z.succ (Z.of_nat (length cs))) by lia.
    rewrite (seqZ_cons (start + i)) by lia. rewrite fmap_cons, list_to_set_cons.
    replace (Z.pred (Z.succ (Z.of_nat (length cs)))) with (Z.of_nat (length cs)) by lia.
    replace (Z.succ (start + i)) with (start + (i + 1)) by lia.
    rewrite (comm_L (∪) {[pretty (start + i)]} (dom m)).
    by rewrite (assoc_L (∪)).
Qed.

Lemma position_keys_app (n k : Z) :
  0 ≤ n → 0 ≤ k →
  position_keys n ∪ list_to_set (pretty <$> seqZ n k) = position_keys (n + k).
Proof.
  intros Hn Hk. unfold position_keys.
  rewrite seqZ_app by lia. rewrite fmap_app, list_to_set_app_L.
  by rewrite Z.add_0_l.
Qed.

Lemma index_add_ok (ix : Index) (rows : list vector) :
  rows ≠ [] → Forall (fun v => length v = dim ix) rows →
  index_add ix rows = Ok (mkIndex (dim ix) (xb ix ++ rows)).
Proof.
  intros Hne Hall. unfold index_add, np_shape.
  destruct rows as [|r rs]; [done|].
  apply Forall_cons in Hall as [Hr Hrs].
  assert (forallb (fun v => Nat.eqb (length v) (length r)) rs = true) as ->.
  { apply forallb_forall. intros v Hv. apply Nat.eqb_eq.
    rewrite Forall_forall in Hrs. rewrite Hr. apply Hrs.
    by apply list_elem_of_In. }
  rewrite Hr, Nat.eqb_refl. done.
Qed.

(** An index file never holds zero rows: it is written only after rows
    were added. *)
Lemma index_add_nonempty (ix ix' : Index) (rows : list vector) :
  index_add ix rows = Ok ix' → xb ix' ≠ [].
Proof.
  unfold index_add, np_shape. destruct rows as [|r rs]; [done|].
  destruct (forallb (fun v => Nat.eqb (length v) (length r)) rs); [|done].
  destruct (Nat.eqb (length r) (dim ix)); [|done].
  intros [= <-]. simpl. by destruct (xb ix).
Qed.

Lemma update_keeps_index_nonempty (st : Store) (doc : Z)
    (chunks : list string) (embeddings : list vector) :
  (∀ ix, index_file st = Some ix → xb ix ≠ []) →
  ∀ ix', index_file (update_faiss_index st doc chunks embeddings).2 = Some ix' →
         xb ix' ≠ [].
Proof.
  intros Hst ix'. unfold update_faiss_index.
  destruct (load_or_create st embeddings) as [[ix m]|e]; [|apply Hst].
  destruct (index_add ix embeddings) as [ix1|e] eqn:Hadd; [|apply Hst].
  simpl. intros [= <-]. by eapply index_add_nonempty.
Qed.

(** X4. The first ingestion of a project creates the index and the mapping,
    and establishes the invariant. *)
Lemma first_add_creates_index (st : Store) (doc : Z) (chunks : list string)
    (e0 : vector) (embeddings : list vector) :
  index_file st = None →
  length chunks = S (length embeddings) →
  Forall (fun v => length v = length e0) embeddings →
  ∃ m', update_faiss_index st doc chunks (e0 :: embeddings)
        = (Ok tt, mkStore (Some (mkIndex (length e0) (e0 :: embeddings))) (Some m')) ∧
        index_mapping_inv (mkIndex (length e0) (e0 :: embeddings)) m' ∧
        ∀ (i : nat) c, chunks !! i = Some c →
          m' !! pretty (Z.of_nat i) = Some (mkEntry doc c).
Proof.
  intros Hnone Hlen Hdim. unfold update_faiss_index, load_or_create.
  rewrite Hnone. rewrite index_add_ok; [|done|by constructor].
  eexists. split; [reflexivity|]. split.
  - apply index_mapping_inv_dom. rewrite add_chunks_dom, dom_empty_L.
    rewrite (left_id_L ∅ (∪)). unfold ntotal, position_keys. simpl.
    rewrite Hlen. done.
  - intros i c Hc. unfold ntotal. simpl.
    replace (Z.of_nat i) with (0 + 0 + Z.of_nat i) by lia.
    by apply add_chunks_lookup_new.
Qed.

(** C1. On a project whose index holds n vectors with an n-entry mapping,
    [update_faiss_index] with m vectors and their m chunks leaves a store in
    which the i-th new vector sits at position n + i, the mapping has the
    entry of the i-th chunk under key n + i, the index holds n + m vectors,
    the old rows and entries are untouched and the invariant (index size =
    mapping size, every key a valid position) holds again. A non-empty
    batch is accepted without an exception. *)
Theorem add_appends_at_old_size (st : Store) (ix : Index)
    (m : gmap string entry) (doc : Z) (chunks : list string)
    (embeddings : list vector) :
  index_file st = Some ix →
  mapping_file st = Some m →
  index_mapping_inv ix m →
  length chunks = length embeddings →
  Forall (fun v => length v = dim ix) embeddings →
  let n := ntotal ix in
  let out := update_faiss_index st doc chunks embeddings in
  ∃ ix' m',
    index_file out.2 = Some ix' ∧ mapping_file out.2 = Some m' ∧
    ntotal ix' = n + Z.of_nat (length embeddings) ∧
    (∀ (i : nat) v c, embeddings !! i = Some v → chunks !! i = Some c →
       xb ix' !! Z.to_nat (n + Z.of_nat i) = Some v ∧
       m' !! pretty (n + Z.of_nat i) = Some (mkEntry doc c)) ∧
    (∀ (i : nat) v, xb ix !! i = Some v → xb ix' !! i = Some v) ∧
    (∀ key, is_Some (m !! key) → m' !! key = m !! key) ∧
    index_mapping_inv ix' m' ∧
    (embeddings ≠ [] → out.1 = Ok tt).
Proof.
  intros Hix Hm Hinv Hlen Hdim n out. subst out.
  unfold update_faiss_index, load_or_create. rewrite Hix, Hm.
  destruct (decide (embeddings = [])) as [->|Hne].
  - destruct chunks; [|done]. simpl. exists ix, m.
    destruct Hinv. repeat split; try done. lia.
  - rewrite index_add_ok by done. simpl.
    eexists _, _. split; [done|]. split; [done|].
    assert (0 ≤ n) as Hn by (unfold n, ntotal; lia).
    split; [|split; [|split; [|split; [|split]]]].
    + unfold ntotal. simpl. rewrite length_app. fold n. unfold n, ntotal. lia.
    + intros i v c Hv Hc. split.
      * simpl. rewrite lookup_app_r; unfold n, ntotal.
        -- replace (Z.to_nat (Z.of_nat (length (xb ix)) + Z.of_nat i)
                    - length (xb ix))%nat with i by lia. done.
        -- lia.
      * replace (n + Z.of_nat i) with (n + 0 + Z.of_nat i) by lia.
        by apply add_chunks_lookup_new.
    + intros i v Hv. simpl. by apply lookup_app_l_Some.
    + intros key Hkey. apply add_chunks_lookup_other.
      intros k _ ->. destruct Hinv as [_ Hkeys].
      destruct (Hkeys _ Hkey) as (i & Hi & Heq).
      apply (inj pretty) in Heq. fold n in Hi. lia.
    + apply index_mapping_inv_dom. apply index_mapping_inv_dom in Hinv.
      rewrite add_chunks_dom, Hinv. fold n. rewrite Z.add_0_r, Hlen.
      rewrite position_keys_app by lia. f_equal.
      unfold ntotal. simpl. rewrite length_app. unfold n, ntotal. lia.
    + done.
Qed.

(** The theorem at a one-row index receiving a batch of two. *)
Lemma add_appends_at_old_size_witness :
  let ix := mkIndex 2 [[1#1; 0#1]] in
  let m : gmap string entry := {[ "0" := mkEntry 7 "alpha" ]} in
  let st := mkStore (Some ix) (Some m) in
  let out := update_faiss_index st 8 ["beta"; "gamma"] [[0#1; 1#1]; [1#2; 1#2]] in
  ∃ ix' m',
    index_file out.2 = Some ix' ∧ mapping_file out.2 = Some m' ∧
    ntotal ix' = 1 + 2 ∧
    (∀ (i : nat) v c, [[0#1; 1#1]; [1#2; 1#2]] !! i = Some v →
       ["beta"; "gamma"] !! i = Some c →
       xb ix' !! Z.to_nat (1 + Z.of_nat i) = Some v ∧
       m' !! pretty (1 + Z.of_nat i) = Some (mkEntry 8 c)) ∧
    (∀ (i : nat) v, xb ix !! i = Some v → xb ix' !! i = Some v) ∧
    (∀ key, is_Some (m !! key) → m' !! key = m !! key) ∧
    index_mapping_inv ix' m' ∧
    ([[0#1; 1#1]; [1#2; 1#2]] ≠ ([] : list vector) → out.1 = Ok tt).
Proof.
  intros ix m st out.
  apply (add_appends_at_old_size st ix m 8 ["beta"; "gamma"]
           [[0#1; 1#1]; [1#2; 1#2]]).
  - reflexivity.
  - reflexivity.
  - split.
    + reflexivity.
    + intros key Hkey. exists 0. split; [unfold ntotal; simpl; lia|].
      unfold m in Hkey. destruct (decide (key = "0")) as [->|Hne]; [done|].
      rewrite lookup_singleton_ne in Hkey by done. by destruct Hkey.
  - reflexivity.
  - repeat constructor.
Defined.

(** *** Ranking *)

Global Instance closer_trans : Transitive closer.
Proof.
  intros a b c. unfold closer. rewrite !Qle_bool_iff. apply Qle_trans.
Qed.

Global Instance closer_total : Total closer.
Proof.
  intros a b. unfold closer. rewrite !Qle_bool_iff.
  destruct (Qlt_le_dec a.2 b.2) as [H|H]; [left; by apply Qlt_le_weak|by right].
Qed.

Lemma elem_of_candidates ix q (c : Z * Q) :
  c ∈ candidates ix q ↔
  0 ≤ c.1 < ntotal ix ∧ c.2 = distance_at ix q c.1.
Proof.
  unfold candidates, distance_at, ntotal. rewrite list_elem_of_lookup. split.
  - intros (i & Hi). rewrite list_lookup_imap in Hi.
    destruct (xb ix !! i) as [v|] eqn:Hv; [|done]. injection Hi as <-. simpl.
    rewrite Nat2Z.id, Hv. apply lookup_lt_Some in Hv. split; [lia|done].
  - intros [Hp Hd]. exists (Z.to_nat c.1). rewrite list_lookup_imap.
    destruct (lookup_lt_is_Some_2 (xb ix) (Z.to_nat c.1)) as [v Hv]; [lia|].
    rewrite Hv in Hd |- *. simpl. rewrite Z2Nat.id by lia.
    destruct c; simpl in *; by subst.
Qed.

Lemma candidates_positions ix q :
  (candidates ix q).*1 = seqZ 0 (ntotal ix).
Proof.
  unfold candidates, ntotal. apply list_eq. intros i.
  rewrite list_lookup_fmap, list_lookup_imap.
  destruct (xb ix !! i) as [v|] eqn:Hv; simpl.
  - symmetry. apply lookup_lt_Some in Hv. rewrite lookup_seqZ. split; lia.
  - symmetry. apply lookup_ge_None in Hv. apply lookup_ge_None.
    rewrite length_seqZ. lia.
Qed.

Lemma ranking_positions ix q : (ranking ix q).*1 ≡ₚ seqZ 0 (ntotal ix).
Proof.
  unfold ranking. rewrite merge_sort_Permutation. by rewrite candidates_positions.
Qed.

Lemma ranking_length ix q : length (ranking ix q) = length (xb ix).
Proof.
  rewrite <- (length_fmap fst), ranking_positions, length_seqZ.
  unfold ntotal. lia.
Qed.

Lemma elem_of_take_in {A} (x : A) (n : nat) (l : list A) :
  x ∈ take n l → x ∈ l.
Proof.
  rewrite elem_of_take. intros (i & Hi & _). by eapply list_elem_of_lookup_2.
Qed.

(** The first [k] labels of the ranking are distinct valid positions, and no
    row outside them is strictly nearer to the query than one of them. *)
Lemma ranking_take_nearest ix q (k : nat) :
  let labels := take k (ranking ix q).*1 in
  length labels = Nat.min k (length (xb ix)) ∧
  NoDup labels ∧
  (∀ p, p ∈ labels → 0 ≤ p < ntotal ix) ∧
  (∀ p p', p ∈ labels → p' ∉ labels → 0 ≤ p' < ntotal ix →
     (distance_at ix q p <= distance_at ix q p')%Q).
Proof.
  intros labels. subst labels.
  pose proof (ranking_positions ix q) as Hperm.
  assert (NoDup (ranking ix q).*1) as Hnd.
  { rewrite Hperm. apply NoDup_seqZ. }
  split; [|split; [|split]].
  - rewrite length_take, length_fmap, ranking_length. lia.
  - rewrite <- (take_drop k) in Hnd. by apply NoDup_app in Hnd as [? _].
  - intros p Hp. apply elem_of_take_in in Hp.
    rewrite Hperm in Hp. apply elem_of_seqZ in Hp. lia.
  - intros p p' Hp Hp' Hrange.
    assert (StronglySorted closer (ranking ix q)) as Hsorted
      by (apply StronglySorted_merge_sort; apply _).
    rewrite <- (take_drop k (ranking ix q)) in Hsorted.
    rewrite <- fmap_take in Hp, Hp'.
    apply list_elem_of_fmap in Hp as (c & -> & Hc).
    assert ((p', distance_at ix q p') ∈ ranking ix q) as Hin.
    { unfold ranking. rewrite merge_sort_Permutation.
      by apply elem_of_candidates. }
    rewrite <- (take_drop k (ranking ix q)) in Hin.
    apply elem_of_app in Hin as [Hin|Hin].
    { exfalso. apply Hp'. apply list_elem_of_fmap. by eexists (_, _). }
    pose proof (StronglySorted_app_1_elem_of _ _ _ _ _ Hsorted Hc Hin) as Hle.
    unfold closer in Hle. apply Qle_bool_iff in Hle. simpl in Hle.
    assert (c ∈ candidates ix q) as Hcand.
    { apply elem_of_take_in in Hc. unfold ranking in Hc.
      by rewrite merge_sort_Permutation in Hc. }
    apply elem_of_candidates in Hcand as [_ <-]. done.
Qed.

Lemma search_ok ix q (k : nat) :
  length q = dim ix → (0 < k ≤ length (xb ix))%nat →
  search ix q k = Ok (take k (ranking ix q).*1).
Proof.
  intros Hq Hk. unfold search. rewrite Hq, Nat.eqb_refl. simpl.
  destruct (Nat.eqb_spec k 0); [lia|]. f_equal.
  rewrite take_app_le; [done|]. rewrite length_fmap, ranking_length. lia.
Qed.

Lemma search_padded ix q (k : nat) :
  length q = dim ix → (0 < k)%nat → (length (xb ix) ≤ k)%nat →
  search ix q k
  = Ok ((ranking ix q).*1 ++ replicate (k - length (xb ix)) (-1))%list.
Proof.
  intros Hq Hpos Hk. unfold search. rewrite Hq, Nat.eqb_refl. simpl.
  destruct (Nat.eqb_spec k 0); [lia|]. f_equal.
  rewrite take_app_ge by (rewrite length_fmap, ranking_length; lia).
  rewrite length_fmap, ranking_length. rewrite take_replicate. f_equal.
  f_equal. lia.
Qed.

(** *** Resolving labels through the mapping *)

Lemma inv_position_mapped ix (m : gmap string entry) (p : Z) :
  index_mapping_inv ix m → 0 ≤ p < ntotal ix → is_Some (m !! pretty p).
Proof.
  intros Hinv Hp. apply index_mapping_inv_dom in Hinv.
  apply elem_of_dom. rewrite Hinv. apply elem_of_position_keys. eauto.
Qed.

Lemma inv_padding_unmapped ix (m : gmap string entry) :
  index_mapping_inv ix m → m !! pretty (-1) = None.
Proof.
  intros [_ Hkeys]. destruct (m !! pretty (-1)) as [e|] eqn:He; [|done].
  destruct (Hkeys (pretty (-1))) as (i & Hi & Heq); [by rewrite He|].
  apply (inj pretty) in Heq. lia.
Qed.

Lemma resolve_chunks_mapped (m : gmap string entry) (labels : list Z) :
  (∀ p, p ∈ labels → is_Some (m !! pretty p)) →
  ∃ entries,
    Forall2 (fun p e => m !! pretty p = Some e) labels entries ∧
    resolve_chunks m labels = Ok (chunk_text <$> entries).
Proof.
  induction labels as [|p ps IH]; intros Hall.
  - exists []. split; [constructor|done].
  - destruct (Hall p) as [e He]; [by left|].
    destruct IH as (es & HF & Hres); [intros p' Hp'; apply Hall; by right|].
    exists (e :: es). split; [by constructor|].
    simpl. unfold getitem. rewrite He. simpl. by rewrite Hres.
Qed.

Lemma text_loop_spec (m : gmap string entry) (labels : list Z) (items : gset item) :
  text_loop m labels items
  = Ok (list_to_set (omap (contribution m) labels) ∪ items).
Proof.
  revert items. induction labels as [|idx rest IH]; intros items; simpl.
  - by rewrite (left_id_L ∅ (∪)).
  - unfold contribution at 1, getitem. case_bool_decide as Hdom.
    + apply elem_of_dom in Hdom as [e He]. rewrite He. simpl.
      rewrite IH. f_equal. rewrite (assoc_L (∪)). f_equal.
      apply (comm_L (∪)).
    + apply not_elem_of_dom in Hdom. rewrite Hdom. simpl. apply IH.
Qed.

Lemma omap_contribution_mapped (m : gmap string entry) labels entries :
  Forall2 (fun p e => m !! pretty p = Some e) labels entries →
  omap (contribution m) labels = text_item <$> entries.
Proof.
  induction 1 as [|p e ps es He _ IH]; [done|].
  simpl. unfold contribution at 1. rewrite He. simpl. f_equal. exact IH.
Qed.

Lemma omap_contribution_padding (m : gmap string entry) (j : nat) :
  m !! pretty (-1) = None → omap (contribution m) (replicate j (-1)) = [].
Proof.
  intros Hnone. induction j as [|j IH]; [done|].
  simpl. unfold contribution at 1. rewrite Hnone. simpl. exact IH.
Qed.

Lemma omap_contribution_filter (m : gmap string entry) (labels : list Z) :
  omap (contribution m) (filter (fun idx => pretty idx ∈ dom m) labels)
  = omap (contribution m) labels.
Proof.
  induction labels as [|idx rest IH]; [done|].
  rewrite filter_cons. case_decide as Hdom.
  - apply elem_of_dom in Hdom as [e He].
    assert (contribution m idx = Some (text_item e)) as Hc
      by (unfold contribution; by rewrite He).
    simpl. rewrite Hc. f_equal. exact IH.
  - apply not_elem_of_dom in Hdom.
    assert (contribution m idx = None) as Hc
      by (unfold contribution; by rewrite Hdom).
    simpl. rewrite Hc. exact IH.
Qed.

(** C10. The text-result loop of the context assembler never raises,
    whatever labels the search returns and whatever the mapping holds: a
    label is looked up only after the membership test, so its result set is
    the given set plus the items of the labels that have a mapping entry;
    labels without one are skipped (dropping them beforehand changes
    nothing), and under the store invariant the padding label -1 is one of
    them. *)
Theorem text_loop_skips_unmapped (m : gmap string entry) (labels : list Z)
    (items : gset item) :
  ∃ items',
    text_loop m labels items = Ok items' ∧
    (∀ x, x ∈ items' ↔
          x ∈ items ∨
          ∃ idx e, idx ∈ labels ∧ m !! pretty idx = Some e ∧ x = text_item e) ∧
    text_loop m (filter (fun idx => pretty idx ∈ dom m) labels) items = Ok items' ∧
    (∀ ix, index_mapping_inv ix m →
           (pretty (-1) ∉ dom m) ∧
           text_loop m (labels ++ [-1]) items = Ok items').
Proof.
  eexists. split; [apply text_loop_spec|]. split; [|split].
  - intros x. rewrite elem_of_union, elem_of_list_to_set, list_elem_of_omap.
    unfold contribution. split.
    + intros [(idx & Hidx & Hx)|Hx]; [|by left]. right.
      destruct (m !! pretty idx) as [e|] eqn:He; [|done].
      injection Hx as <-. eauto.
    + intros [Hx|(idx & e & Hidx & He & ->)]; [by right|]. left.
      exists idx. by rewrite He.
  - rewrite text_loop_spec. by rewrite omap_contribution_filter.
  - intros ix Hinv. pose proof (inv_padding_unmapped _ _ Hinv) as Hpad.
    split; [by apply not_elem_of_dom|].
    rewrite text_loop_spec, omap_app.
    change [-1] with (replicate 1 (-1)).
    rewrite (omap_contribution_padding m 1 Hpad). by rewrite app_nil_r.
Qed.

Lemma all_entries_of_positions ix (m : gmap string entry) labels entries :
  index_mapping_inv ix m →
  labels ≡ₚ seqZ 0 (ntotal ix) →
  Forall2 (fun p e => m !! pretty p = Some e) labels entries →
  ∀ e, e ∈ entries ↔ ∃ key, m !! key = Some e.
Proof.
  intros Hinv Hperm HF e. split.
  - intros He. apply list_elem_of_lookup in He as [i Hi].
    destruct (Forall2_lookup_r _ _ _ _ _ HF Hi) as (p & _ & Hp). eauto.
  - intros [key Hkey]. destruct Hinv as [_ Hkeys].
    destruct (Hkeys key) as (p & Hp & ->); [by rewrite Hkey|].
    assert (p ∈ labels) as Hin by (rewrite Hperm; apply elem_of_seqZ; lia).
    apply list_elem_of_lookup in Hin as [i Hi].
    destruct (Forall2_lookup_l _ _ _ _ _ HF Hi) as (e' & Hi' & He').
    rewrite Hkey in He'. injection He' as <-.
    by eapply list_elem_of_lookup_2.
Qed.

(** C9. On a store that satisfies the invariant, with n >= 1 rows (an
    index file never holds none), a query of the index's dimension and a
    requested count k >= 1: the search ranks by squared Euclidean distance,
    and both callers obtain the entries of the min(k, n) nearest rows, each
    looked up in the mapping under its position: [answer_question] as the
    list of their chunk texts, [_gather_context] as the set of their text
    items (the -1 padding is dropped). When n <= k these are all n stored
    entries. *)
Theorem search_returns_nearest (top_k : nat) (ix : Index)
    (m : gmap string entry) (q : vector) :
  index_mapping_inv ix m →
  length q = dim ix →
  (0 < top_k)%nat →
  (0 < length (xb ix))%nat →
  let n := length (xb ix) in
  ∃ (labels : list Z) (entries : list entry),
    length labels = Nat.min top_k n ∧
    NoDup labels ∧
    (∀ p, p ∈ labels → 0 ≤ p < ntotal ix) ∧
    (∀ p p', p ∈ labels → p' ∉ labels → 0 ≤ p' < ntotal ix →
       (distance_at ix q p <= distance_at ix q p')%Q) ∧
    Forall2 (fun p e => m !! pretty p = Some e) labels entries ∧
    retrieve_chunks top_k ix m q = Ok (chunk_text <$> entries) ∧
    (∃ text_indices,
       search ix q top_k = Ok text_indices ∧
       length text_indices = top_k ∧
       text_loop m text_indices ∅ = Ok (list_to_set (text_item <$> entries))) ∧
    ((n ≤ top_k)%nat →
       labels ≡ₚ seqZ 0 (ntotal ix) ∧
       ∀ e, e ∈ entries ↔ ∃ key, m !! key = Some e).
Proof.
  intros Hinv Hq Hk0 Hn0 n.
  set (k := Nat.min top_k n).
  set (labels := take k (ranking ix q).*1).
  destruct (ranking_take_nearest ix q k) as (Hlen & Hnd & Hvalid & Hnear).
  fold labels in Hlen, Hnd, Hvalid, Hnear.
  destruct (resolve_chunks_mapped m labels) as (entries & HF & Hres).
  { intros p Hp. eapply inv_position_mapped; eauto. }
  exists labels, entries.
  split; [fold n in Hlen; lia|]. split; [done|]. split; [done|].
  split; [done|]. split; [done|]. split; [|split].
  - unfold retrieve_chunks. fold n. fold k.
    rewrite search_ok by (done || (fold n; lia)). done.
  - destruct (decide (top_k ≤ n)%nat) as [Hle|Hgt].
    + exists labels. split; [|split].
      * rewrite search_ok by (done || (fold n; lia)).
        unfold labels, k. by rewrite Nat.min_l.
      * fold n in Hlen. lia.
      * rewrite text_loop_spec, (right_id_L ∅ (∪)).
        by rewrite (omap_contribution_mapped _ _ _ HF).
    + exists (labels ++ replicate (top_k - n) (-1)). split; [|split].
      * rewrite search_padded by (done || (fold n; lia)). fold n. do 2 f_equal.
        unfold labels, k. rewrite take_ge; [done|].
        rewrite length_fmap, ranking_length. fold n. lia.
      * rewrite length_app, length_replicate. fold n in Hlen. lia.
      * rewrite text_loop_spec, (right_id_L ∅ (∪)), omap_app.
        rewrite (omap_contribution_mapped _ _ _ HF).
        rewrite omap_contribution_padding
          by (by eapply inv_padding_unmapped).
        by rewrite app_nil_r.
  - intros Hle.
    assert (labels ≡ₚ seqZ 0 (ntotal ix)) as Hperm.
    { unfold labels. rewrite take_ge.
      - apply ranking_positions.
      - rewrite length_fmap, ranking_length. fold n. lia. }
    split; [done|]. by eapply all_entries_of_positions.
Qed.

(** The theorem on a three-row index, asked for two neighbours. *)
Lemma search_returns_nearest_witness :
  let ix := mkIndex 1 [[0#1]; [5#1]; [2#1]] in
  let m : gmap string entry :=
    <["0" := mkEntry 1 "a"]> (<["1" := mkEntry 1 "b"]> {["2" := mkEntry 2 "c"]}) in
  ∃ (labels : list Z) (entries : list entry),
    length labels = Nat.min 2 3 ∧
    NoDup labels ∧
    (∀ p, p ∈ labels → 0 ≤ p < ntotal ix) ∧
    (∀ p p', p ∈ labels → p' ∉ labels → 0 ≤ p' < ntotal ix →
       (distance_at ix [1#1] p <= distance_at ix [1#1] p')%Q) ∧
    Forall2 (fun p e => m !! pretty p = Some e) labels entries ∧
    retrieve_chunks 2 ix m [1#1] = Ok (chunk_text <$> entries) ∧
    (∃ text_indices,
       search ix [1#1] 2 = Ok text_indices ∧
       length text_indices = 2%nat ∧
       text_loop m text_indices ∅ = Ok (list_to_set (text_item <$> entries))) ∧
    ((3 ≤ 2)%nat →
       labels ≡ₚ seqZ 0 (ntotal ix) ∧
       ∀ e, e ∈ entries ↔ ∃ key, m !! key = Some e).
Proof.
  intros ix m.
  apply (search_returns_nearest 2 ix m [1#1]).
  - apply index_mapping_inv_dom. vm_compute. reflexivity.
  - reflexivity.
  - lia.
  - simpl. lia.
Defined.

(** *** A project without an index *)




(** A successful search with nothing found yields the empty context. *)
Example gather_context_empty_result :
  gather_context (fun _ => Ok [0#1]%Q) 5 (FileNotFoundError "docs.index")
    (mkStore (Some (IndexFlatL2 1)) (Some ∅)) [] "q" = Ok "".
Proof. reflexivity. Qed.

End vector_index_facts.

(** ** Figure region merge *)

Section figure_facts.
Import Figures.

Lemma merge_loop_unfold threshold rects :
  merge_loop threshold rects
  = match merge_pass threshold rects with
    | Some rects' => merge_loop threshold rects'
    | None => rects
    end.
Proof.
  funelim (merge_loop threshold rects).
  - rewrite Hpass. congruence.
  - by rewrite e.
Qed.

Lemma merge_loop_fixed threshold rects :
  merge_pass threshold (merge_loop threshold rects) = None.
Proof.
  funelim (merge_loop threshold rects); congruence.
Qed.

Lemma merge_loop_length threshold rects :
  (length (merge_loop threshold rects) ≤ length rects)%nat.
Proof.
  funelim (merge_loop threshold rects).
  - pose proof (merge_pass_length _ _ _ Hpass). lia.
  - done.
Qed.

Lemma merge_bounded_enough fuel threshold rects :
  (length rects ≤ fuel)%nat →
  merge_bounded fuel threshold rects = Some (merge_loop threshold rects).
Proof.
  revert rects. induction fuel as [|fuel IH]; intros rects Hlen.
  - rewrite merge_loop_unfold. simpl.
    destruct (merge_pass threshold rects) as [rects'|] eqn:Hpass; [|done].
    apply merge_pass_length in Hpass. lia.
  - rewrite merge_loop_unfold. simpl.
    destruct (merge_pass threshold rects) as [rects'|] eqn:Hpass; [|done].
    apply IH. apply merge_pass_length in Hpass. lia.
Qed.

(** C7. The merge terminates on every finite list of boxes: a pass that
    merges leaves exactly one box fewer, so after at most as many passes as
    there are boxes a pass merges nothing; the bounded loop then returns
    the value of [merge_nearby_bboxes], a fixed point of the pass. *)
Theorem merge_terminates (threshold : Q) (bboxes : list bbox) :
  let rects := Rect_of <$> bboxes in
  (∀ l l', merge_pass threshold l = Some l' → S (length l') = length l) ∧
  (∃ final,
     merge_bounded (length bboxes) threshold rects = Some final ∧
     merge_pass threshold final = None ∧
     (length final ≤ length bboxes)%nat ∧
     merge_nearby_bboxes bboxes threshold = tuple_of <$> final).
Proof.
  intros rects. split; [apply merge_pass_length|].
  exists (merge_loop threshold rects). split; [|split; [|split]].
  - apply merge_bounded_enough. unfold rects. by rewrite length_fmap.
  - apply merge_loop_fixed.
  - etrans; [apply merge_loop_length|]. unfold rects. by rewrite length_fmap.
  - unfold merge_nearby_bboxes, rects. destruct bboxes; [|done].
    by rewrite merge_loop_unfold.
Qed.

Example merge_two_boxes :
  merge_nearby_bboxes [(0, 0, 10, 10); (20, 0, 30, 10); (100, 100, 110, 110)]%Q 15
  = [(0, 0, 30, 10); (100, 100, 110, 110)]%Q.
Proof. reflexivity. Qed.

(** *** Geometry of proper boxes *)

Lemma Qltb_lt (a b : Q) : Qltb a b = true ↔ (a < b)%Q.
Proof.
  unfold Qltb. rewrite negb_true_iff. split.
  - intros H. apply Qnot_le_lt. intros Hle.
    apply Qle_bool_iff in Hle. congruence.
  - intros H. destruct (Qle_bool b a) eqn:Hle; [|done].
    apply Qle_bool_iff in Hle. apply Qlt_not_le in H. done.
Qed.

Lemma Qltb_ge (a b : Q) : Qltb a b = false ↔ (b <= a)%Q.
Proof.
  unfold Qltb. rewrite negb_false_iff. apply Qle_bool_iff.
Qed.

Lemma Qle_bool_false (a b : Q) : Qle_bool a b = false ↔ (b < a)%Q.
Proof.
  rewrite <- Qltb_lt. unfold Qltb. by rewrite negb_true_iff.
Qed.

Lemma py_max_spec (a b : Q) :
  (a < b)%Q ∧ py_max a b = b ∨ (b <= a)%Q ∧ py_max a b = a.
Proof.
  unfold py_max. destruct (Qltb a b) eqn:H.
  - left. by apply Qltb_lt in H.
  - right. by apply Qltb_ge in H.
Qed.

Lemma py_min_spec (a b : Q) :
  (b < a)%Q ∧ py_min a b = b ∨ (a <= b)%Q ∧ py_min a b = a.
Proof.
  unfold py_min. destruct (Qltb b a) eqn:H.
  - left. by apply Qltb_lt in H.
  - right. by apply Qltb_ge in H.
Qed.

Lemma is_empty_false (r : Rect) : is_empty r = false ↔ proper r.
Proof.
  unfold is_empty, proper. rewrite orb_false_iff, !Qle_bool_false. done.
Qed.

Lemma is_empty_true (r : Rect) :
  is_empty r = true ↔ (x1 r <= x0 r)%Q ∨ (y1 r <= y0 r)%Q.
Proof.
  unfold is_empty. rewrite orb_true_iff, !Qle_bool_iff. done.
Qed.

Lemma inflate_proper (r : Rect) (t : Q) :
  (0 <= t)%Q → proper r → proper (inflate r t).
Proof. unfold proper, inflate. simpl. intros Ht [Hx Hy]. split; lra. Qed.

(** For proper boxes the proximity test compares the gaps with the
    threshold. *)
Lemma near_spec (t : Q) (a b : Rect) :
  (0 <= t)%Q → proper a → proper b →
  near t a b = true ↔
  (x0 a - t < x1 b)%Q ∧ (x0 b < x1 a + t)%Q ∧
  (y0 a - t < y1 b)%Q ∧ (y0 b < y1 a + t)%Q.
Proof.
  intros Ht Ha Hb. unfold near, intersects.
  pose proof (inflate_proper a t Ht Ha) as Hia.
  apply is_empty_false in Hia as Hia'. apply is_empty_false in Hb as Hb'.
  rewrite Hia', Hb'. simpl orb. cbv iota. rewrite negb_true_iff, is_empty_false.
  destruct Ha as [Hax Hay], Hb as [Hbx Hby].
  unfold proper, intersect, inflate. simpl.
  destruct (py_max_spec (x0 a - t) (x0 b)) as [[? ->]|[? ->]],
           (py_max_spec (y0 a - t) (y0 b)) as [[? ->]|[? ->]],
           (py_min_spec (x1 a + t) (x1 b)) as [[? ->]|[? ->]],
           (py_min_spec (y1 a + t) (y1 b)) as [[? ->]|[? ->]];
    split; intros; repeat split; lra.
Qed.

Lemma near_sym (t : Q) (a b : Rect) :
  (0 <= t)%Q → proper a → proper b → near t a b = near t b a.
Proof.
  intros Ht Ha Hb.
  destruct (near t a b) eqn:Hab, (near t b a) eqn:Hba; try done.
  - apply near_spec in Hab; try done.
    assert (near t b a = true) as H by (apply near_spec; try done; lra).
    congruence.
  - apply near_spec in Hba; try done.
    assert (near t a b = true) as H by (apply near_spec; try done; lra).
    congruence.
Qed.

Lemma near_mono (t : Q) (a a' b b' : Rect) :
  (0 <= t)%Q → proper a → proper a' → proper b → proper b' →
  inside a a' → inside b b' → near t a b = true → near t a' b' = true.
Proof.
  intros Ht Ha Ha' Hb Hb' Haa Hbb Hnear.
  apply near_spec in Hnear; try done. apply near_spec; try done.
  unfold inside in *. lra.
Qed.

Lemma near_inside (t : Q) (a b : Rect) :
  (0 <= t)%Q → proper a → proper b → inside a b → near t a b = true.
Proof.
  intros Ht Ha Hb Hin. apply near_spec; try done.
  unfold inside, proper in *. lra.
Qed.

Lemma inside_refl (a : Rect) : inside a a.
Proof. unfold inside. repeat split; apply Qle_refl. Qed.

Lemma inside_trans (a b c : Rect) : inside a b → inside b c → inside a c.
Proof. unfold inside. intros. repeat split; lra. Qed.

Lemma inside_antisym (a b : Rect) : inside a b → inside b a → rect_eq a b.
Proof. unfold inside, rect_eq. intros. repeat split; lra. Qed.

(** The union of two proper boxes is their least common enclosing box. *)
Lemma union_spec (a b : Rect) :
  proper a → proper b →
  proper (union a b) ∧ inside a (union a b) ∧ inside b (union a b) ∧
  ∀ c, inside a c → inside b c → inside (union a b) c.
Proof.
  intros Ha Hb. unfold union.
  apply is_empty_false in Ha as Ha'. apply is_empty_false in Hb as Hb'.
  rewrite Ha', Hb'. destruct Ha as [Hax Hay], Hb as [Hbx Hby].
  unfold proper, inside. simpl.
  destruct (py_min_spec (x0 a) (x0 b)) as [[? ->]|[? ->]],
           (py_min_spec (y0 a) (y0 b)) as [[? ->]|[? ->]],
           (py_max_spec (x1 a) (x1 b)) as [[? ->]|[? ->]],
           (py_max_spec (y1 a) (y1 b)) as [[? ->]|[? ->]];
    (split; [split; lra|]); (split; [repeat split; lra|]);
    (split; [repeat split; lra|]); intros c ? ?; repeat split; lra.
Qed.

(** *** What a pass finds and what it leaves *)

Lemma scan_j_some t rects r1 n j :
  scan_j t rects r1 n = Some j →
  (j < n)%nat ∧ ∃ r2, rects !! j = Some r2 ∧ near t r1 r2 = true.
Proof.
  induction n as [|n IH]; simpl; [done|].
  destruct (rects !! n) as [r2|] eqn:Hn; [|done].
  destruct (near t r1 r2) eqn:Hnear.
  - intros [= <-]. split; [lia|]. eauto.
  - intros H. destruct (IH H) as [? ?]. split; [lia|done].
Qed.

Lemma scan_j_none t rects r1 n :
  (n ≤ length rects)%nat → scan_j t rects r1 n = None →
  ∀ j r2, (j < n)%nat → rects !! j = Some r2 → near t r1 r2 = false.
Proof.
  induction n as [|n IH]; simpl; intros Hn Hscan j r2 Hj Hr2; [lia|].
  destruct (lookup_lt_is_Some_2 rects n) as [r Hr]; [lia|].
  rewrite Hr in Hscan. destruct (near t r1 r) eqn:Hnear; [done|].
  destruct (decide (j = n)) as [->|Hne].
  - congruence.
  - apply (IH ltac:(lia) Hscan j); [lia|done].
Qed.

Lemma scan_i_some t rects n i j :
  scan_i t rects n = Some (i, j) →
  (j < i < n)%nat ∧
  ∃ r1 r2, rects !! i = Some r1 ∧ rects !! j = Some r2 ∧ near t r1 r2 = true.
Proof.
  induction n as [|n IH]; simpl; [done|].
  destruct (rects !! n) as [r1|] eqn:Hn; [|done].
  destruct (scan_j t rects r1 n) as [j'|] eqn:Hj.
  - intros [= <- <-]. apply scan_j_some in Hj as (? & r2 & ? & ?).
    split; [lia|]. eauto.
  - intros H. destruct (IH H) as [? ?]. split; [lia|done].
Qed.

Lemma scan_i_none t rects n :
  (n ≤ length rects)%nat → scan_i t rects n = None →
  ∀ i j r1 r2, (j < i < n)%nat →
    rects !! i = Some r1 → rects !! j = Some r2 → near t r1 r2 = false.
Proof.
  induction n as [|n IH]; simpl; intros Hn Hscan i j r1 r2 Hij Hr1 Hr2; [lia|].
  destruct (lookup_lt_is_Some_2 rects n) as [r Hr]; [lia|].
  rewrite Hr in Hscan.
  destruct (scan_j t rects r n) as [j'|] eqn:Hj; [done|].
  destruct (decide (i = n)) as [->|Hne].
  - replace r1 with r in * by congruence.
    eapply scan_j_none; [| exact Hj | | exact Hr2]; lia.
  - apply (IH ltac:(lia) Hscan i j); [lia|done..].
Qed.

Lemma merge_pass_some t rects rects' :
  merge_pass t rects = Some rects' →
  ∃ i j r1 r2, (j < i < length rects)%nat ∧
    rects !! i = Some r1 ∧ rects !! j = Some r2 ∧ near t r1 r2 = true ∧
    rects' = delete i (<[j := union r1 r2]> rects).
Proof.
  unfold merge_pass.
  destruct (scan_i t rects (length rects)) as [[i j]|] eqn:Hscan; [|done].
  apply scan_i_some in Hscan as (Hij & r1 & r2 & Hr1 & Hr2 & Hnear).
  rewrite Hr1, Hr2. intros [= <-]. exists i, j, r1, r2. done.
Qed.

Lemma merge_pass_none t rects :
  merge_pass t rects = None →
  ∀ i j r1 r2, (j < i)%nat →
    rects !! i = Some r1 → rects !! j = Some r2 → near t r1 r2 = false.
Proof.
  unfold merge_pass. intros Hpass i j r1 r2 Hij Hr1 Hr2.
  destruct (scan_i t rects (length rects)) as [[i' j']|] eqn:Hscan.
  - apply scan_i_some in Hscan as (? & r1' & r2' & Hr1' & Hr2' & _).
    by rewrite Hr1', Hr2' in Hpass.
  - eapply scan_i_none; [| exact Hscan | | exact Hr1 | exact Hr2]; [done|].
    apply lookup_lt_Some in Hr1. lia.
Qed.

(** The boxes after a pass: the merged box, and the boxes the pass did not
    touch. *)
Lemma elem_of_merged (rects : list Rect) (i j : nat) (u r : Rect) :
  r ∈ delete i (<[j := u]> rects) → r = u ∨ r ∈ rects.
Proof.
  intros Hr. apply list_elem_of_lookup in Hr as [k Hk].
  assert (r ∈ <[j := u]> rects) as Hin.
  { eapply list_elem_of_delete_inv. by eapply list_elem_of_lookup_2. }
  apply list_elem_of_lookup in Hin as [k' Hk'].
  destruct (decide (k' = j)) as [->|Hne].
  - left. destruct (decide (j < length rects)%nat).
    + rewrite list_lookup_insert_eq in Hk' by done. congruence.
    + rewrite list_insert_ge in Hk' by lia.
      apply lookup_lt_Some in Hk'. lia.
  - right. rewrite list_lookup_insert_ne in Hk' by done.
    by eapply list_elem_of_lookup_2.
Qed.

Lemma merged_elem (rects : list Rect) (i j : nat) (u : Rect) :
  (j < i < length rects)%nat → u ∈ delete i (<[j := u]> rects).
Proof.
  intros Hij. apply list_elem_of_lookup. exists j.
  rewrite list_lookup_delete_lt by lia. apply list_lookup_insert_eq. lia.
Qed.

Lemma untouched_elem (rects : list Rect) (i j k : nat) (u r : Rect) :
  k ≠ i → k ≠ j → rects !! k = Some r → r ∈ delete i (<[j := u]> rects).
Proof.
  intros Hki Hkj Hr. apply list_elem_of_lookup.
  destruct (decide (k < i)%nat).
  - exists k. rewrite list_lookup_delete_lt by done.
    by rewrite list_lookup_insert_ne.
  - exists (k - 1)%nat. rewrite list_lookup_delete_ge by lia.
    replace (S (k - 1)) with k by lia. by rewrite list_lookup_insert_ne.
Qed.

(** *** Passes on proper boxes *)

Lemma pass_proper t rects rects' :
  merge_pass t rects = Some rects' →
  Forall proper rects → Forall proper rects'.
Proof.
  intros Hpass Hall. rewrite Forall_forall in Hall. apply Forall_forall.
  apply merge_pass_some in Hpass as (i & j & r1 & r2 & Hij & Hr1 & Hr2 & _ & ->).
  intros r Hr. apply elem_of_merged in Hr as [->|Hr]; [|by apply Hall].
  apply union_spec; apply Hall; by eapply list_elem_of_lookup_2.
Qed.

Lemma pass_covers t rects rects' :
  merge_pass t rects = Some rects' → Forall proper rects →
  ∀ r, r ∈ rects → covered rects' r.
Proof.
  intros Hpass Hall r Hr. rewrite Forall_forall in Hall.
  apply merge_pass_some in Hpass as (i & j & r1 & r2 & Hij & Hr1 & Hr2 & _ & ->).
  assert (proper r1) as Hp1 by (apply Hall; by eapply list_elem_of_lookup_2).
  assert (proper r2) as Hp2 by (apply Hall; by eapply list_elem_of_lookup_2).
  destruct (union_spec r1 r2 Hp1 Hp2) as (_ & Hin1 & Hin2 & _).
  apply list_elem_of_lookup in Hr as [k Hk].
  destruct (decide (k = i)) as [->|Hki]; [|destruct (decide (k = j)) as [->|Hkj]].
  - exists (union r1 r2). split; [by apply merged_elem|congruence].
  - exists (union r1 r2). split; [by apply merged_elem|congruence].
  - exists r. split; [by eapply untouched_elem|apply inside_refl].
Qed.

(** A stable list of proper boxes that covers the boxes before a pass
    covers the boxes after it. *)
Lemma pass_absorbed t (final rects rects' : list Rect) :
  (0 <= t)%Q → stable t final → Forall proper final →
  Forall proper rects → (∀ r, r ∈ rects → covered final r) →
  merge_pass t rects = Some rects' →
  ∀ r, r ∈ rects' → covered final r.
Proof.
  intros Ht Hstable Hfinal Hall Hcov Hpass r Hr.
  rewrite Forall_forall in Hall, Hfinal.
  apply merge_pass_some in Hpass as (i & j & r1 & r2 & Hij & Hr1 & Hr2 & Hnear & ->).
  apply elem_of_merged in Hr as [->|Hr]; [|by apply Hcov].
  assert (r1 ∈ rects) as Hin1 by (by eapply list_elem_of_lookup_2).
  assert (r2 ∈ rects) as Hin2 by (by eapply list_elem_of_lookup_2).
  destruct (Hcov r1 Hin1) as (f1 & Hf1 & Hins1).
  destruct (Hcov r2 Hin2) as (f2 & Hf2 & Hins2).
  assert (near t f1 f2 = true) as Hnearf.
  { eapply (near_mono t r1 f1 r2 f2); eauto. }
  apply list_elem_of_lookup in Hf1 as Hk1. destruct Hk1 as [k1 Hk1].
  apply list_elem_of_lookup in Hf2 as Hk2. destruct Hk2 as [k2 Hk2].
  destruct (decide (k1 = k2)) as [->|Hne].
  - replace f2 with f1 in * by congruence.
    exists f1. split; [done|].
    destruct (union_spec r1 r2 (Hall _ Hin1) (Hall _ Hin2)) as (_ & _ & _ & Hlub).
    by apply Hlub.
  - rewrite (Hstable k1 k2 f1 f2 Hne Hk1 Hk2) in Hnearf. done.
Qed.

(** *** The fixed point *)

Lemma loop_proper t rects :
  Forall proper rects → Forall proper (merge_loop t rects).
Proof.
  funelim (merge_loop t rects); intros Hall; [|done].
  eauto using pass_proper.
Qed.

Lemma loop_covers t rects :
  Forall proper rects → ∀ r, r ∈ rects → covered (merge_loop t rects) r.
Proof.
  funelim (merge_loop t rects); intros Hall r Hr.
  - destruct (pass_covers _ _ _ Hpass Hall r Hr) as (f & Hf & Hins).
    destruct (H (pass_proper _ _ _ Hpass Hall) f Hf) as (g & Hg & Hins').
    exists g. split; [done|]. by eapply inside_trans.
  - exists r. split; [done|apply inside_refl].
Qed.

Lemma loop_stable t rects :
  (0 <= t)%Q → Forall proper rects → stable t (merge_loop t rects).
Proof.
  intros Ht Hall. pose proof (loop_proper t rects Hall) as Hprop.
  pose proof (merge_loop_fixed t rects) as Hfix.
  rewrite Forall_forall in Hprop.
  intros i j r1 r2 Hne Hr1 Hr2.
  assert (proper r1) by (apply Hprop; by eapply list_elem_of_lookup_2).
  assert (proper r2) by (apply Hprop; by eapply list_elem_of_lookup_2).
  destruct (decide (j < i)%nat).
  - apply (merge_pass_none t _ Hfix i j r1 r2); [lia|done..].
  - rewrite near_sym by done.
    apply (merge_pass_none t _ Hfix j i r2 r1); [lia|done..].
Qed.

Lemma loop_absorbed t (final rects : list Rect) :
  (0 <= t)%Q → stable t final → Forall proper final →
  Forall proper rects → (∀ r, r ∈ rects → covered final r) →
  ∀ r, r ∈ merge_loop t rects → covered final r.
Proof.
  intros Ht Hstable Hfinal.
  funelim (merge_loop t rects); intros Hall Hcov r Hr; [|by apply Hcov].
  apply H; eauto using pass_proper, pass_absorbed.
Qed.

(** Two fixed points that cover each other hold the same boxes. *)
Lemma stable_same_boxes t (f1 f2 : list Rect) :
  (0 <= t)%Q → stable t f1 → Forall proper f1 → Forall proper f2 →
  (∀ r, r ∈ f1 → covered f2 r) → (∀ r, r ∈ f2 → covered f1 r) →
  ∀ g, g ∈ f1 → ∃ f, f ∈ f2 ∧ rect_eq g f.
Proof.
  intros Ht Hstable Hp1 Hp2 H12 H21 g Hg.
  rewrite Forall_forall in Hp1, Hp2.
  destruct (H12 g Hg) as (f & Hf & Hgf).
  destruct (H21 f Hf) as (g' & Hg' & Hfg').
  exists f. split; [done|].
  assert (near t g g' = true) as Hnear.
  { apply near_inside; eauto using inside_trans. }
  apply list_elem_of_lookup in Hg as Hk. destruct Hk as [k Hk].
  apply list_elem_of_lookup in Hg' as Hk'. destruct Hk' as [k' Hk'].
  destruct (decide (k = k')) as [->|Hne].
  - replace g' with g in * by congruence. by apply inside_antisym.
  - rewrite (Hstable k k' g g' Hne Hk Hk') in Hnear. done.
Qed.

Lemma loop_order_independent t (l1 l2 : list Rect) :
  (0 <= t)%Q → Forall proper l1 → l1 ≡ₚ l2 →
  ∀ g, g ∈ merge_loop t l1 → ∃ f, f ∈ merge_loop t l2 ∧ rect_eq g f.
Proof.
  intros Ht Hp1 Hperm.
  assert (Forall proper l2) as Hp2 by (by rewrite <- Hperm).
  apply (stable_same_boxes t); auto using loop_stable, loop_proper.
  - apply loop_absorbed; auto using loop_stable, loop_proper.
    intros r Hr. apply loop_covers; [done|]. by rewrite <- Hperm.
  - apply loop_absorbed; auto using loop_stable, loop_proper.
    intros r Hr. apply loop_covers; [done|]. by rewrite Hperm.
Qed.

Lemma loop_no_duplicates t (rects : list Rect) :
  (0 <= t)%Q → Forall proper rects →
  ∀ i j r1 r2, merge_loop t rects !! i = Some r1 →
    merge_loop t rects !! j = Some r2 → rect_eq r1 r2 → i = j.
Proof.
  intros Ht Hall i j r1 r2 Hr1 Hr2 Heq.
  destruct (decide (i = j)) as [|Hne]; [done|exfalso].
  pose proof (loop_proper t rects Hall) as Hprop. rewrite Forall_forall in Hprop.
  assert (near t r1 r2 = true) as Hnear.
  { apply near_inside; [done|apply Hprop; by eapply list_elem_of_lookup_2..|].
    unfold rect_eq in Heq. unfold inside. repeat split; lra. }
  rewrite (loop_stable t rects Ht Hall i j r1 r2 Hne Hr1 Hr2) in Hnear. done.
Qed.

Lemma merge_nearby_bboxes_loop (bboxes : list bbox) (t : Q) :
  merge_nearby_bboxes bboxes t = tuple_of <$> merge_loop t (Rect_of <$> bboxes).
Proof.
  unfold merge_nearby_bboxes. destruct bboxes; [|done].
  by rewrite merge_loop_unfold.
Qed.

Lemma Rect_of_tuple_of (r : Rect) : Rect_of (tuple_of r) = r.
Proof. by destruct r. Qed.




End figure_facts.

(** ** Outline extraction *)

Section outline_facts.
Import Json Outline.

Lemma append_cons (c : ascii) (a b : string) :
  String c a +:+ b = String c (a +:+ b).
Proof. reflexivity. Qed.

Lemma append_nil_l (b : string) : "" +:+ b = b.
Proof. reflexivity. Qed.

Lemma append_assoc (a b c : string) : (a +:+ b) +:+ c = a +:+ (b +:+ c).
Proof.
  induction a as [|x a IH]; [done|]. rewrite !append_cons. by rewrite IH.
Qed.

Lemma append_nil_r (a : string) : a +:+ "" = a.
Proof. induction a as [|x a IH]; [done|]. rewrite append_cons. by rewrite IH. Qed.

Lemma length_append (a b : string) :
  String.length (a +:+ b) = (String.length a + String.length b)%nat.
Proof.
  induction a as [|x a IH]; [done|]. rewrite append_cons. simpl. by rewrite IH.
Qed.

Lemma find_append_first (c : ascii) (p r : string) :
  find c p = None → find c (p +:+ String c r) = Some (String.length p).
Proof.
  induction p as [|a p IH]; rewrite ?append_cons, ?append_nil_l; simpl.
  - intros _. by rewrite Ascii.eqb_refl.
  - destruct (Ascii.eqb a c); [done|].
    destruct (find c p); [done|]. intros _. by rewrite IH.
Qed.

Lemma rfind_none (c : ascii) (s : string) : find c s = None → rfind c s = None.
Proof.
  induction s as [|a s IH]; simpl; [done|].
  destruct (Ascii.eqb a c); [done|].
  destruct (find c s); [done|]. intros _. by rewrite IH.
Qed.

Lemma rfind_append_last (c : ascii) (a s : string) :
  find c s = None → rfind c (a +:+ String c s) = Some (String.length a).
Proof.
  intros Hs. induction a as [|x a IH]; rewrite ?append_cons, ?append_nil_l; simpl.
  - rewrite (rfind_none _ _ Hs). by rewrite Ascii.eqb_refl.
  - by rewrite IH.
Qed.

Lemma substring_skip (p t : string) (n : nat) :
  String.substring (String.length p) n (p +:+ t) = String.substring 0 n t.
Proof.
  induction p as [|a p IH]; rewrite ?append_cons, ?append_nil_l; simpl; [done|].
  exact IH.
Qed.

Lemma substring_prefix (b s : string) :
  String.substring 0 (String.length b) (b +:+ s) = b.
Proof.
  induction b as [|a b IH]; rewrite ?append_cons, ?append_nil_l; simpl.
  - by destruct s.
  - by rewrite IH.
Qed.

Lemma double_backslashes_append (a b : string) :
  double_backslashes (a +:+ b) = double_backslashes a +:+ double_backslashes b.
Proof.
  induction a as [|x a IH]; rewrite ?append_cons, ?append_nil_l; simpl; [done|].
  destruct (Ascii.eqb x backslash); rewrite !append_cons; by rewrite IH.
Qed.

Lemma double_backslashes_id (t : string) :
  find backslash t = None → double_backslashes t = t.
Proof.
  induction t as [|a t IH]; simpl; [done|].
  destruct (Ascii.eqb a backslash); [done|].
  destruct (find backslash t); [done|]. intros _. by rewrite IH.
Qed.

(** *** Reading back a text whose backslashes were doubled *)

Lemma is_ws_cases (c : ascii) :
  is_ws c = true → c = " "%char ∨ c = "009"%char ∨ c = "010"%char ∨ c = "013"%char.
Proof.
  unfold is_ws. rewrite !orb_true_iff, !Ascii.eqb_eq. tauto.
Qed.

Lemma double_backslashes_ws (w : string) : Ws w → double_backslashes w = w.
Proof.
  induction 1 as [|c w Hc _ IH]; [done|]. simpl.
  apply is_ws_cases in Hc as [-> | [-> | [-> | ->]]]; simpl; by rewrite IH.
Qed.

Lemma skip_ws_app (w t : string) : Ws w → skip_ws (w +:+ t) = skip_ws t.
Proof.
  induction 1 as [|c w Hc _ IH]; [done|].
  rewrite append_cons. simpl. by rewrite Hc.
Qed.

Lemma skip_ws_token (c : ascii) (r : string) :
  is_ws c = false → skip_ws (String c r) = String c r.
Proof. intros Hc. simpl. by rewrite Hc. Qed.

Lemma parse_string_body_raw (k rest : string) :
  raw_ok k = true →
  parse_string_body (double_backslashes k +:+ String quote_char rest)
  = Some (k, rest).
Proof.
  induction k as [|c k IH]; [done|]. simpl raw_ok.
  rewrite !andb_true_iff, !negb_true_iff. intros [[Hq Hctl] Hk].
  simpl double_backslashes. destruct (Ascii.eqb c backslash) eqn:Hb.
  - apply Ascii.eqb_eq in Hb as ->. rewrite !append_cons. simpl.
    by rewrite (IH Hk).
  - rewrite append_cons. simpl. rewrite Hq, Hb, Hctl. by rewrite (IH Hk).
Qed.

Lemma double_backslashes_quoted (k : string) :
  double_backslashes (quoted k)
  = String quote_char (double_backslashes k +:+ String quote_char "").
Proof.
  unfold quoted. simpl. f_equal. by rewrite double_backslashes_append.
Qed.

Lemma parse_digits_print (d : Decimal.uint) (rest : string) :
  parse_digits rest = (Decimal.Nil, rest) →
  parse_digits (NilEmpty.string_of_uint d +:+ rest) = (d, rest).
Proof.
  intros Hrest. induction d as [|d IH|d IH|d IH|d IH|d IH|d IH|d IH|d IH|d IH|d IH];
    [exact Hrest|..]; simpl NilEmpty.string_of_uint; rewrite append_cons;
    simpl; by rewrite IH.
Qed.

Lemma double_backslashes_digits (d : Decimal.uint) :
  double_backslashes (NilEmpty.string_of_uint d) = NilEmpty.string_of_uint d.
Proof.
  induction d as [|d IH|d IH|d IH|d IH|d IH|d IH|d IH|d IH|d IH|d IH];
    [done|..]; simpl; by rewrite IH.
Qed.

Lemma uint_beq_refl (d : Decimal.uint) : Decimal.uint_beq d d = true.
Proof. induction d; simpl; done. Qed.

Lemma to_uint_canonical (n : N) :
  Decimal.unorm (N.to_uint n) = N.to_uint n ∧ N.to_uint n ≠ Decimal.Nil.
Proof.
  assert (Decimal.unorm (N.to_uint n) = N.to_uint n) as Hnorm.
  { rewrite <- DecimalN.Unsigned.to_of. by rewrite DecimalN.Unsigned.of_to. }
  split; [done|]. rewrite <- Hnorm. apply DecimalFacts.unorm_nonnil.
Qed.

Lemma double_backslashes_print_int (z : Z) :
  double_backslashes (print_int z) = print_int z.
Proof.
  unfold print_int. rewrite double_backslashes_append, double_backslashes_digits.
  by destruct (Z.ltb z 0).
Qed.

Lemma no_sign_before_digits (d : Decimal.uint) (rest : string) :
  let text := NilEmpty.string_of_uint d +:+ rest in
  d ≠ Decimal.Nil →
  match text with
  | String c r => if Ascii.eqb c "-" then (true, r) else (false, text)
  | EmptyString => (false, text)
  end = (false, text).
Proof. intros text Hd. subst text. by destruct d. Qed.

Lemma parse_int_digits (negative : bool) (d : Decimal.uint) (rest : string) :
  d ≠ Decimal.Nil → Decimal.unorm d = d → delimited rest →
  parse_int ((if negative then "-" else "") +:+ NilEmpty.string_of_uint d +:+ rest)
  = Some (JInt (if negative then - Z.of_N (N.of_uint d) else Z.of_N (N.of_uint d)),
          rest).
Proof.
  intros Hd Hnorm [Hdigits Hfrac]. unfold parse_int. destruct negative.
  - rewrite append_cons, append_nil_l. simpl.
    rewrite (parse_digits_print _ _ Hdigits).
    rewrite Hnorm, uint_beq_refl, Hfrac. by destruct d.
  - rewrite append_nil_l. rewrite (no_sign_before_digits d rest Hd).
    rewrite (parse_digits_print _ _ Hdigits).
    rewrite Hnorm, uint_beq_refl, Hfrac. by destruct d.
Qed.

(** An integer in decimal is read back. *)
Lemma parse_int_print (z : Z) (rest : string) :
  delimited rest → parse_int (print_int z +:+ rest) = Some (JInt z, rest).
Proof.
  intros Hrest. unfold print_int.
  destruct (to_uint_canonical (Z.abs_N z)) as [Hnorm Hnonnil].
  rewrite append_assoc.
  rewrite (parse_int_digits (Z.ltb z 0) _ rest Hnonnil Hnorm Hrest).
  rewrite DecimalN.Unsigned.of_to.
  assert ((if Z.ltb z 0 then - Z.of_N (Z.abs_N z) else Z.of_N (Z.abs_N z)) = z)
    as -> by (destruct (Z.ltb_spec z 0); lia).
  done.
Qed.

Lemma parse_value_print_int (fuel : nat) (z : Z) (rest : string) :
  delimited rest →
  parse_value (S fuel) (print_int z +:+ rest) = Some (JInt z, rest).
Proof.
  intros Hrest. rewrite <- (parse_int_print z rest Hrest).
  unfold print_int. destruct (to_uint_canonical (Z.abs_N z)) as [_ Hnonnil].
  destruct (Z.ltb z 0); [reflexivity|].
  rewrite append_nil_l. by destruct (N.to_uint (Z.abs_N z)).
Qed.

Lemma token_start_append (a b : string) :
  token_start a → token_start (a +:+ b).
Proof.
  intros (c & r & -> & ?). exists c, (r +:+ b). by rewrite append_cons.
Qed.

Lemma token_start_print_int (z : Z) : token_start (print_int z).
Proof.
  unfold print_int. destruct (to_uint_canonical (Z.abs_N z)) as [_ Hnonnil].
  destruct (Z.ltb z 0).
  - eexists _, _. by rewrite append_cons.
  - rewrite append_nil_l.
    destruct (N.to_uint (Z.abs_N z)); [done|..]; by eexists _, _.
Qed.

Lemma written_token_start :
  (∀ v s, Written v s → token_start (double_backslashes s)) ∧
  (∀ l t, WrittenElems l t → token_start (double_backslashes t)) ∧
  (∀ l t, WrittenMembers l t → token_start (double_backslashes t)).
Proof.
  apply Written_mutind; intros;
    rewrite ?double_backslashes_print_int, ?double_backslashes_append;
    auto using token_start_append, token_start_print_int;
    try (by eexists _, _).
Qed.

Lemma token_start_length (s : string) :
  token_start s → ∃ n, String.length s = S n.
Proof. intros (c & r & -> & _). eauto. Qed.

Lemma skip_ws_before_token (w t : string) :
  Ws w → token_start t → skip_ws (w +:+ t) = t.
Proof.
  intros Hw (c & r & -> & Hc & _). rewrite (skip_ws_app _ _ Hw).
  by apply skip_ws_token.
Qed.

Lemma delimited_nil : delimited "".
Proof. done. Qed.

Lemma delimited_after_value (w : string) (p : ascii) (t : string) :
  Ws w → digit p = None → starts_fraction (String p t) = false →
  delimited (w +:+ String p t).
Proof.
  intros Hw Hp Hfrac. destruct Hw as [|c w Hc Hw].
  - unfold delimited. simpl. by rewrite Hp.
  - rewrite append_cons.
    apply is_ws_cases in Hc as [-> | [-> | [-> | ->]]]; done.
Qed.

(** Texts in right-nested form. *)
Ltac flatten_text :=
  repeat first
    [ rewrite double_backslashes_append
    | rewrite double_backslashes_quoted
    | rewrite double_backslashes_print_int
    | rewrite append_assoc
    | rewrite append_cons
    | rewrite append_nil_l
    | rewrite length_append
    | progress change (double_backslashes "]") with "]"
    | progress change (double_backslashes "}") with "}"
    | progress change (double_backslashes ",") with ","
    | progress change (double_backslashes ":") with ":" ].

(** The scanner reads a written text, backslashes doubled, back to its
    value; the length of the text is fuel enough. *)
Lemma parse_written :
  (∀ v s, Written v s → ∀ fuel rest,
     (String.length (double_backslashes s) ≤ fuel)%nat → delimited rest →
     parse_value fuel (double_backslashes s +:+ rest) = Some (v, rest)) ∧
  (∀ l t, WrittenElems l t → ∀ fuel rest,
     (String.length (double_backslashes t) ≤ fuel)%nat →
     parse_elems fuel (double_backslashes t +:+ rest) = Some (l, rest)) ∧
  (∀ l t, WrittenMembers l t → ∀ fuel rest,
     (String.length (double_backslashes t) ≤ fuel)%nat →
     parse_members fuel (double_backslashes t +:+ rest) = Some (l, rest)).
Proof.
  apply Written_mutind.
  - (* null *) intros [|fuel] rest Hfuel _; [simpl in Hfuel; lia|done].
  - intros [|fuel] rest Hfuel _; [simpl in Hfuel; lia|done].
  - intros [|fuel] rest Hfuel _; [simpl in Hfuel; lia|done].
  - (* integer *) intros z fuel rest Hfuel Hrest.
    rewrite double_backslashes_print_int in *.
    destruct (token_start_length _ (token_start_print_int z)) as [n Hn].
    destruct fuel as [|fuel]; [lia|]. by apply parse_value_print_int.
  - (* string *) intros k Hk [|fuel] rest Hfuel _; [simpl in Hfuel; lia|].
    flatten_text. simpl. by rewrite (parse_string_body_raw _ _ Hk).
  - (* empty array *) intros w Hw [|fuel] rest Hfuel _; [simpl in Hfuel; lia|].
    simpl double_backslashes. flatten_text.
    rewrite (double_backslashes_ws _ Hw). simpl.
    rewrite (skip_ws_app _ _ Hw). done.
  - (* array *) intros l w t Hw Ht IH [|fuel] rest Hfuel _; [simpl in Hfuel; lia|].
    simpl double_backslashes in *. flatten_text.
    rewrite (double_backslashes_ws _ Hw) in *. simpl.
    destruct written_token_start as (_ & Hstart & _).
    pose proof (token_start_append _ rest (Hstart _ _ Ht)) as Hstart'.
    rewrite (skip_ws_before_token _ _ Hw Hstart').
    destruct Hstart' as (c & r & Hcr & _ & Hclose & _).
    rewrite Hcr, Hclose, <- Hcr. rewrite IH; [done|].
    rewrite double_backslashes_append in Hfuel. simpl in Hfuel.
    rewrite length_append in Hfuel. lia.
  - (* empty object *) intros w Hw [|fuel] rest Hfuel _; [simpl in Hfuel; lia|].
    simpl double_backslashes. flatten_text.
    rewrite (double_backslashes_ws _ Hw). simpl.
    rewrite (skip_ws_app _ _ Hw). done.
  - (* object *) intros l w t Hw Ht IH [|fuel] rest Hfuel _; [simpl in Hfuel; lia|].
    simpl double_backslashes in *. flatten_text.
    rewrite (double_backslashes_ws _ Hw) in *. simpl.
    destruct written_token_start as (_ & _ & Hstart).
    pose proof (token_start_append _ rest (Hstart _ _ Ht)) as Hstart'.
    rewrite (skip_ws_before_token _ _ Hw Hstart').
    destruct Hstart' as (c & r & Hcr & _ & _ & Hclose).
    rewrite Hcr, Hclose, <- Hcr. rewrite IH; [done|].
    rewrite double_backslashes_append in Hfuel. simpl in Hfuel.
    rewrite length_append in Hfuel. lia.
  - (* last element *) intros v sv w Hv IHv Hw fuel rest Hfuel.
    rewrite !double_backslashes_append, (double_backslashes_ws _ Hw) in *.
    rewrite !length_append in Hfuel. simpl in Hfuel.
    destruct fuel as [|fuel]; [lia|]. flatten_text. simpl.
    rewrite (IHv fuel (w +:+ String "]" rest));
      [|lia|by apply delimited_after_value].
    rewrite (skip_ws_app _ _ Hw). done.
  - (* more elements *) intros v l sv w w' t Hv IHv Hw Hw' Ht IHt fuel rest Hfuel.
    rewrite !double_backslashes_append, (double_backslashes_ws _ Hw),
      (double_backslashes_ws _ Hw') in *.
    rewrite !length_append in Hfuel. simpl in Hfuel.
    destruct fuel as [|fuel]; [lia|]. flatten_text. simpl.
    rewrite (IHv fuel (w +:+ String "," (w' +:+ double_backslashes t +:+ rest)));
      [|lia|by apply delimited_after_value].
    rewrite (skip_ws_app _ _ Hw). simpl.
    destruct written_token_start as (_ & Hstart & _).
    rewrite (skip_ws_before_token _ _ Hw'
               (token_start_append _ rest (Hstart _ _ Ht))).
    rewrite IHt; [done|lia].
  - (* last member *) intros k v sv w1 w2 w3 Hk Hv IHv Hw1 Hw2 Hw3 fuel rest Hfuel.
    rewrite !double_backslashes_append, double_backslashes_quoted,
      (double_backslashes_ws _ Hw1), (double_backslashes_ws _ Hw2),
      (double_backslashes_ws _ Hw3) in *.
    rewrite !length_append in Hfuel. simpl in Hfuel.
    destruct fuel as [|fuel]; [lia|]. flatten_text. simpl.
    rewrite (parse_string_body_raw _ _ Hk).
    rewrite (skip_ws_app _ _ Hw1). simpl.
    destruct written_token_start as (Hstart & _ & _).
    rewrite (skip_ws_before_token _ _ Hw2
               (token_start_append _ _ (Hstart _ _ Hv))).
    rewrite (IHv fuel (w3 +:+ String "}" rest));
      [|lia|by apply delimited_after_value].
    rewrite (skip_ws_app _ _ Hw3). done.
  - (* more members *)
    intros k v l sv w1 w2 w3 w4 t Hk Hv IHv Hw1 Hw2 Hw3 Hw4 Ht IHt fuel rest Hfuel.
    rewrite !double_backslashes_append, double_backslashes_quoted,
      (double_backslashes_ws _ Hw1), (double_backslashes_ws _ Hw2),
      (double_backslashes_ws _ Hw3), (double_backslashes_ws _ Hw4) in *.
    rewrite !length_append in Hfuel. simpl in Hfuel.
    destruct fuel as [|fuel]; [lia|]. flatten_text. simpl.
    rewrite (parse_string_body_raw _ _ Hk).
    rewrite (skip_ws_app _ _ Hw1). simpl.
    destruct written_token_start as (Hstart & _ & Hstart').
    rewrite (skip_ws_before_token _ _ Hw2
               (token_start_append _ _ (Hstart _ _ Hv))).
    rewrite (IHv fuel (w3 +:+ String "," (w4 +:+ double_backslashes t +:+ rest)));
      [|lia|by apply delimited_after_value].
    rewrite (skip_ws_app _ _ Hw3). simpl.
    rewrite (skip_ws_before_token _ _ Hw4
               (token_start_append _ rest (Hstart' _ _ Ht))).
    rewrite IHt; [done|lia].
Qed.

Lemma json_loads_written (v : json) (s : string) :
  Written v s → json_loads (double_backslashes s) = Some v.
Proof.
  intros Hv. destruct parse_written as (Hparse & _ & _).
  destruct written_token_start as (Hstart & _ & _).
  destruct (Hstart _ _ Hv) as (c & r & Hcr & Hc & _).
  unfold json_loads. rewrite Hcr, (skip_ws_token _ _ Hc), <- Hcr.
  rewrite <- (append_nil_r (double_backslashes s)) at 2.
  rewrite (Hparse _ _ Hv); [done|lia|apply delimited_nil].
Qed.

Lemma written_members_end (l : list (string * json)) (t : string) :
  WrittenMembers l t → ∃ m, t = m +:+ "}".
Proof.
  induction 1 as [k v sv w1 w2 w3 _ _ _ _ _
                 |k v l sv w1 w2 w3 w4 t _ _ _ _ _ _ _ (m & ->)].
  - exists (quoted k +:+ w1 +:+ ":" +:+ w2 +:+ sv +:+ w3).
    by rewrite !append_assoc.
  - exists (quoted k +:+ w1 +:+ ":" +:+ w2 +:+ sv +:+ w3 +:+ "," +:+ w4 +:+ m).
    by rewrite !append_assoc.
Qed.

Lemma written_object_braces (members : list (string * json)) (s : string) :
  Written (JObj members) s → ∃ middle, s = String "{" (middle +:+ "}").
Proof.
  inversion 1 as [| | | | |? ?|? ? ? ? ?|w Hw|l w t Hw Ht]; subst.
  - by exists w.
  - destruct (written_members_end _ _ Ht) as (m & ->).
    exists (w +:+ m). by rewrite append_assoc.
Qed.

(** The extraction of a reply [before {middle} after] whose prose has no
    opening brace before the object and no closing brace after it: the
    object's text with every backslash doubled. *)
Lemma extract_wrapped (before middle after : string) :
  find "{" before = None → find "}" after = None →
  extract_json_from_llm_response
    (before +:+ String "{" (middle +:+ String "}" after))
  = double_backslashes (String "{" (middle +:+ "}")).
Proof.
  intros Hbefore Hafter. unfold extract_json_from_llm_response.
  rewrite (find_append_first _ _ _ Hbefore).
  replace (before +:+ String "{" (middle +:+ String "}" after))
    with ((before +:+ String "{" middle) +:+ String "}" after)
    by (rewrite (append_assoc before); reflexivity).
  rewrite (rfind_append_last _ _ _ Hafter).
  rewrite length_append. simpl String.length.
  assert ((String.length before <? String.length before + S (String.length middle))%nat
          = true) as -> by (apply Nat.ltb_lt; lia).
  f_equal. unfold slice.
  rewrite append_assoc. rewrite substring_skip.
  replace (String.length before + S (String.length middle) + 1 - String.length before)%nat
    with (String.length (String "{" (middle +:+ "}")))
    by (simpl; rewrite length_append; simpl; lia).
  replace (String "{" middle +:+ String "}" after)
    with (String "{" (middle +:+ "}") +:+ after)
    by (rewrite !append_cons, append_assoc; reflexivity).
  apply substring_prefix.
Qed.




End outline_facts.

(** ** Task orchestrator *)

Section task_facts.
Import Json Outline Tasks.

Section frame.
Context (f : Task → Task → Prop) `{!PreOrder f} (task_id : Z).
Hypothesis f_status : ∀ s t, f t (set_status s t).

Lemma keeps_ret {A} (a : A) : keeps f task_id (mret a).
Proof. intros db r db' t [= <- <-] Ht. exists t. split; [done|reflexivity]. Qed.

Lemma keeps_lift {A} (x : result A) : keeps f task_id (lift x).
Proof. intros db r db' t [= <- <-] Ht. exists t. split; [done|reflexivity]. Qed.

Lemma keeps_bind {A B} (m : M A) (k : A → M B) :
  keeps f task_id m → (∀ a, keeps f task_id (k a)) →
  keeps f task_id (m ≫= k).
Proof.
  intros Hm Hk db r db' t Hrun Ht. unfold mbind, M_bind in Hrun.
  destruct (m db) as [[a|e] db1] eqn:Hmdb.
  - destruct (Hm _ _ _ _ Hmdb Ht) as (t1 & Ht1 & Hf1).
    destruct (Hk a _ _ _ _ Hrun Ht1) as (t2 & Ht2 & Hf2).
    exists t2. split; [done|]. by etrans.
  - injection Hrun as <- <-. eapply Hm; eauto.
Qed.

Lemma keeps_update_status (s : string) :
  keeps f task_id (commit (update_task_status task_id s None)).
Proof.
  intros db r db' t [= <- <-] Ht. unfold update_task_status.
  rewrite Ht. simpl. rewrite lookup_insert_eq. eauto.
Qed.

Lemma keeps_alter (g : Task → Task) :
  (∀ t, f t (g t)) → keeps f task_id (commit (alter g task_id)).
Proof.
  intros Hg db r db' t [= <- <-] Ht.
  rewrite lookup_alter_eq, Ht. simpl. eauto.
Qed.

End frame.

Lemma update_task_status_some (task_id : Z) (s : string) (db : DB) (t : Task) :
  db !! task_id = Some t →
  ∃ t', update_task_status task_id s None db !! task_id = Some t'.
Proof.
  intros Ht. unfold update_task_status. rewrite Ht. simpl.
  rewrite lookup_insert_eq. eauto.
Qed.

Global Instance same_message_preorder : PreOrder same_message.
Proof. split; [done|]. intros a b c. unfold same_message. congruence. Qed.
Global Instance same_outline_preorder : PreOrder same_outline.
Proof. split; [done|]. intros a b c. unfold same_outline. congruence. Qed.

(** One step of a proof that a monadic block keeps a relation. *)
Ltac keeps_side :=
  first [assumption | done | apply _ | by auto | intros; reflexivity].
Ltac keeps_step :=
  first
    [ apply keeps_bind; [keeps_side | | intros ?]
    | apply keeps_update_status; keeps_side
    | apply keeps_lift; keeps_side
    | apply keeps_ret; keeps_side
    | apply keeps_alter; keeps_side ].

Section run_facts.
Variable json_loads : string → option json.
Variable gather_context : Z → string → result string.
Variable chat : nat → string → result string.
Variable outline_prompt : string → string → string.
Variable section_prompt : string → string → string → string → string → string.
Variable py_str : json → string.
Variable bibtex_entries : list (option string).
Variable write_file : string → result unit.
Variable pandoc : string → string → result string.

Let write_sections' := write_sections chat section_prompt py_str.
Let write_report' :=
  write_report chat section_prompt py_str bibtex_entries write_file pandoc.
Let run_body' :=
  run_body json_loads gather_context chat outline_prompt section_prompt py_str
    bibtex_entries write_file pandoc.
Let run' :=
  run_report_writing_task json_loads gather_context chat outline_prompt
    section_prompt py_str bibtex_entries write_file pandoc.

Lemma keeps_write_sections (f : Task → Task → Prop) `{!PreOrder f} task_id task
    context_str sections todo i generated parts :
  (∀ s t, f t (set_status s t)) →
  keeps f task_id
    (write_sections' task_id task context_str sections todo i generated parts).
Proof.
  intros Hstatus. revert i generated parts.
  induction todo as [|section rest IH]; intros i generated parts.
  - by apply keeps_ret.
  - simpl. repeat keeps_step. apply IH.
Qed.

Lemma keeps_write_report (f : Task → Task → Prop) `{!PreOrder f} task_id task
    context_str sections :
  (∀ s t, f t (set_status s t)) →
  (∀ c t, f t (set_final_markdown_content c t)) →
  (∀ c t, f t (set_final_content c t)) →
  keeps f task_id (write_report' task_id task context_str sections).
Proof.
  intros Hstatus Hmd Hfinal. unfold write_report', write_report.
  keeps_step; [keeps_step|]. keeps_step; [by apply keeps_write_sections|].
  repeat keeps_step.
Qed.

Lemma keeps_run_body_message task_id task :
  keeps same_message task_id (run_body' task_id task).
Proof.
  unfold run_body', run_body.
  do 6 (apply keeps_bind; [apply _ | keeps_step | intros ?]).
  apply keeps_write_report; [apply _ | intros; reflexivity..].
Qed.

Lemma failed_update (task_id : Z) (message : string) (db : DB) (t : Task) :
  db !! task_id = Some t →
  ∃ t', update_task_status task_id "failed" (Some message) db !! task_id = Some t' ∧
        status t' = "failed" ∧
        (message ≠ "" → status_message t' = Some message) ∧
        (message = "" → status_message t' = status_message t) ∧
        same_artifacts t t'.
Proof.
  intros Ht. unfold update_task_status. rewrite Ht, lookup_insert_eq.
  eexists. split; [done|]. destruct message as [|c m]; simpl; by repeat split.
Qed.

(** C3, amended. When a step of the run raises, the task ends in status
    [failed]; the exception's message becomes the status message when it is
    not empty, and an empty message leaves the status message as it was
    before the run; the outline, the markdown body and the final report hold
    what they held when the exception was raised, and once the outline has
    been decoded and its sections found, it is the stored outline whatever
    fails afterwards. *)
Theorem run_failure_recorded (task_id : Z) (db db_fail : DB) (task : Task)
    (e : exn) :
  db !! task_id = Some task →
  run_body' task_id task db = (Raise e, db_fail) →
  ∃ t_fail t',
    db_fail !! task_id = Some t_fail ∧
    run' task_id db !! task_id = Some t' ∧
    status t' = "failed" ∧
    (str_exn e ≠ "" → status_message t' = Some (str_exn e)) ∧
    (str_exn e = "" → status_message t' = status_message task) ∧
    outline_json t' = outline_json t_fail ∧
    final_markdown_content t' = final_markdown_content t_fail ∧
    final_content t' = final_content t_fail ∧
    (∀ context_str raw sections,
       gather_context (project_id task) (user_prompt task) = Ok context_str →
       chat 0 (outline_prompt (user_prompt task) context_str) = Ok raw →
       parse_outline json_loads (extract_json_from_llm_response raw) = Ok sections →
       outline_json t' = Some (extract_json_from_llm_response raw)).
Proof.
  intros Htask Hrun.
  destruct (keeps_run_body_message task_id task _ _ _ _ Hrun Htask)
    as (t_fail & Hfail & Hmsg).
  destruct (failed_update task_id (str_exn e) db_fail t_fail Hfail)
    as (t' & Ht' & Hstatus & Hrec & Hkeep & Hout & Hmd & Hfin).
  exists t_fail, t'. split; [done|]. split.
  { unfold run', run_report_writing_task. rewrite Htask.
    fold run_body'. by rewrite Hrun. }
  split; [done|]. split; [done|]. split.
  { intros Hempty. rewrite (Hkeep Hempty). exact Hmsg. }
  split; [done|]. split; [done|]. split; [done|].
  intros context_str raw sections Hgather Hchat Hparse.
  rewrite Hout. revert Hrun. unfold run_body', run_body.
  unfold mbind, M_bind, commit, lift. rewrite Hgather, Hchat, Hparse.
  intros Hrun.
  destruct (update_task_status_some task_id "gathering_context" db task Htask)
    as (t1 & Ht1).
  destruct (update_task_status_some task_id "generating_outline" _ t1 Ht1)
    as (t2 & Ht2).
  eassert (_ !! task_id = Some (set_outline_json _ t2)) as Ht3.
  { rewrite lookup_alter_eq, Ht2. reflexivity. }
  destruct (keeps_write_report same_outline task_id task context_str sections
              ltac:(done) ltac:(done) ltac:(done) _ _ _ _ Hrun Ht3)
    as (t4 & Ht4 & Hsame).
  rewrite Hfail in Ht4. injection Ht4 as <-. exact Hsame.
Qed.

End run_facts.

(** C3, as stated, fails when the exception has an empty message (an
    [assert] of the index library has one): the task of an earlier failed
    run is marked [failed] again, and its status message still is the
    earlier one. *)
Lemma empty_message_not_recorded :
  let task := mkTask 1 "report_writing" "Write a survey" "failed"
                (Some "model unavailable") None None None in
  let db : DB := {[ 7 := task ]} in
  str_exn (AssertionError "") = "" ∧
  ∃ t', run_failing_assertion 7 db !! 7 = Some t' ∧
        status t' = "failed" ∧
        status_message t' = Some "model unavailable" ∧
        status_message t' ≠ Some (str_exn (AssertionError "")).
Proof.
  split; [reflexivity|]. eexists. split; [vm_compute; reflexivity|].
  split; [reflexivity|]. split; [reflexivity|]. discriminate.
Qed.

(** The theorem on a run whose outline is stored and whose first section
    call raises. *)
Lemma run_failure_recorded_witness :
  let task := mkTask 1 "report_writing" "Write a survey" "queued"
                None None None None in
  let db : DB := {[ 7 := task ]} in
  let e := RuntimeError "model unavailable" in
  let db_fail : DB :=
    <[7 := mkTask 1 "report_writing" "Write a survey" "writing_section_1_of_1"
             None (Some (extract_json_from_llm_response sample_reply)) None None]> db in
  ∃ t_fail t',
    db_fail !! 7 = Some t_fail ∧
    run_failing_section 7 db !! 7 = Some t' ∧
    status t' = "failed" ∧
    (str_exn e ≠ "" → status_message t' = Some (str_exn e)) ∧
    (str_exn e = "" → status_message t' = status_message task) ∧
    outline_json t' = outline_json t_fail ∧
    final_markdown_content t' = final_markdown_content t_fail ∧
    final_content t' = final_content t_fail ∧
    (∀ context_str raw sections,
       Ok "context" = Ok context_str →
       Ok sample_reply = Ok raw →
       parse_outline Json.json_loads (extract_json_from_llm_response raw) = Ok sections →
       outline_json t' = Some (extract_json_from_llm_response raw)).
Proof.
  intros task db e db_fail.
  apply (run_failure_recorded Json.json_loads (fun _ _ => Ok "context")
           (fun n _ => match n with
                       | O => Ok sample_reply
                       | S _ => Raise (RuntimeError "model unavailable")
                       end)
           (fun prompt context => prompt +:+ context)
           (fun prompt report title description context => report)
           (fun v => match v with JStr s => s | _ => "" end)
           [Some "@misc{Smith2024_Article}"] (fun _ => Ok tt)
           (fun markdown _ => Ok markdown) 7 db db_fail task e).
  - reflexivity.
  - vm_compute. reflexivity.
Defined.

(** C2. A task whose run has been started and has reached its first status,
    [gathering_context], is not refused: the guard of [run_task] looks for
    the prefixes writing and generating only, so the second request starts a
    second thread for the same task. The same holds in [assembling_report]. *)
Theorem run_task_starts_running_task :
  let queued := mkTask 1 "report_writing" "Write a survey" "queued"
                  None None None None in
  let db0 : DB := {[ 7 := queued ]} in
  let db1 := update_task_status 7 "gathering_context" None db0 in
  let db2 := update_task_status 7 "assembling_report" None db0 in
  run_task db0 7 = ((202, "Report generation task started."), Some 7) ∧
  run_task db1 7 = ((202, "Report generation task started."), Some 7) ∧
  run_task db2 7 = ((202, "Report generation task started."), Some 7).
Proof. repeat split; vm_compute; reflexivity. Qed.

(** What the guard does refuse. *)
Lemma run_task_refuses (db : DB) (task_id : Z) (task : Task) :
  db !! task_id = Some task →
  String.prefix "writing" (status task) = true
  ∨ String.prefix "generating" (status task) = true →
  run_task db task_id = ((409, "Task is already running"), None).
Proof.
  intros Ht Hprefix. unfold run_task. rewrite Ht.
  destruct Hprefix as [-> | ->]; [done|]. by rewrite orb_true_r.
Qed.

End task_facts.

(** ** Bibliographic key *)

Section bibliography_facts.
Import Bibliography.

(** C6. On the author format that the metadata prompt shows to the model,
    the key starts with the first author's given name: the code takes the
    first word of the author field, not the surname. *)
Theorem bib_key_takes_first_word :
  bib_key "First Author and Second Author" "2023" "Example Paper Title"
  = "First2023_Example" ∧
  bib_key "John Smith" "2024" "An article" = "John2024_An" ∧
  bib_key "Smith" "2024" "Article" = "Smith2024_Article".
Proof. repeat split; reflexivity. Qed.

(** The key of a document with a non-empty author and title. *)
Lemma bib_key_nonempty (author year title : string) :
  author ≠ "" → title ≠ "" →
  bib_key author year title
  = capitalize (first_word author) +:+ year +:+ "_" +:+ capitalize (first_word title).
Proof.
  intros Ha Ht. unfold bib_key, nonempty.
  destruct (String.eqb_spec author ""); [done|].
  destruct (String.eqb_spec title ""); [done|]. done.
Qed.

(** The stored keys stay pairwise distinct: the table refuses a document
    whose key is already there. *)
Lemma add_document_unique (table table' : list Document) (new_doc : Document) :
  NoDup (bibtex_key <$> table) →
  add_document table new_doc = Ok table' →
  NoDup (bibtex_key <$> table') ∧ bibtex_key new_doc ∉ bibtex_key <$> table.
Proof.
  intros Hnd. unfold add_document. case_bool_decide as Hin; [done|].
  intros [= <-]. split; [|done]. rewrite fmap_app. apply NoDup_app.
  split; [done|]. split.
  - intros k Hk Hk'. apply list_elem_of_singleton in Hk'. by subst.
  - apply NoDup_singleton.
Qed.

End bibliography_facts.

(** ** Rebuilding the index *)

Section rebuild_facts.
Import VectorIndex Rebuild.

Lemma index_add_inv (ix ix' : Index) (rows : list vector) :
  index_add ix rows = Ok ix' →
  rows ≠ [] ∧ Forall (fun v => length v = dim ix) rows ∧
  ix' = mkIndex (dim ix) (xb ix ++ rows).
Proof.
  unfold index_add, np_shape. destruct rows as [|r rs]; [done|].
  destruct (forallb (fun v => Nat.eqb (length v) (length r)) rs) eqn:Hall; [|done].
  destruct (Nat.eqb_spec (length r) (dim ix)) as [Hr|]; [|done].
  intros [= <-]. split; [done|]. split; [|done].
  constructor; [done|]. apply Forall_forall. intros v Hv.
  rewrite forallb_forall in Hall. rewrite <- Hr. apply Nat.eqb_eq, Hall.
  by apply list_elem_of_In.
Qed.

Lemma embed_all_length (embed : string → result vector) texts vs :
  embed_all embed texts = Ok vs → length vs = length texts.
Proof.
  revert vs. induction texts as [|t rest IH]; intros vs; simpl.
  - by intros [= <-].
  - destruct (embed t) as [v|]; [|done]. simpl.
    destruct (embed_all embed rest) as [vs'|]; [|done]. simpl.
    intros [= <-]. simpl. f_equal. by apply IH.
Qed.

Lemma embed_all_ok (embed : string → result vector)
    (embedding : string → vector) texts :
  (∀ t, t ∈ texts → embed t = Ok (embedding t)) →
  embed_all embed texts = Ok (embedding <$> texts).
Proof.
  induction texts as [|t rest IH]; intros Hall; [done|].
  simpl. rewrite Hall by left. simpl. rewrite IH; [done|].
  intros t' Ht'. apply Hall. by right.
Qed.

Lemma empty_index_inv (d : nat) : index_mapping_inv (IndexFlatL2 d) ∅.
Proof.
  split; [done|]. intros key [e He]. by rewrite lookup_empty in He.
Qed.

(** Appending a batch with as many chunks as rows keeps the invariant. *)
Lemma add_rows_inv (ix ix' : Index) (m : gmap string entry) (doc : Z)
    (chunks : list string) (rows : list vector) :
  index_mapping_inv ix m → length chunks = length rows →
  index_add ix rows = Ok ix' →
  xb ix' ≠ [] ∧ index_mapping_inv ix' (add_chunks (ntotal ix) doc chunks 0 m).
Proof.
  intros Hinv Hlen Hadd. split; [by eapply index_add_nonempty|].
  apply index_add_inv in Hadd as (_ & _ & ->).
  apply index_mapping_inv_dom. apply index_mapping_inv_dom in Hinv.
  rewrite add_chunks_dom, Hinv, Z.add_0_r.
  rewrite position_keys_app by (unfold ntotal; lia). f_equal.
  unfold ntotal. simpl. rewrite length_app. lia.
Qed.

Lemma update_faiss_index_store_inv (st : Store) (doc : Z)
    (chunks : list string) (embeddings : list vector) :
  length chunks = length embeddings → store_inv st →
  store_inv (update_faiss_index st doc chunks embeddings).2.
Proof.
  intros Hlen Hst. unfold update_faiss_index, load_or_create.
  destruct (index_file st) as [ix|] eqn:Hix.
  - destruct (mapping_file st) as [m|] eqn:Hm; [|done].
    destruct (index_add ix embeddings) as [ix'|e] eqn:Hadd; [|done].
    unfold store_inv in Hst |- *. rewrite Hix, Hm in Hst. simpl.
    destruct Hst as [_ Hinv]. by eapply add_rows_inv.
  - destruct embeddings as [|e0 es]; [done|].
    destruct (index_add (IndexFlatL2 (length e0)) (e0 :: es)) as [ix'|e] eqn:Hadd;
      [|done].
    unfold store_inv. simpl. eapply add_rows_inv; [apply empty_index_inv|done..].
Qed.

Section with_files.
Variable embed : string → result vector.
Variable file_exists : string → bool.
Variable load_and_split_document : string → list string.

Let reindex := reindex_document embed file_exists load_and_split_document.
Let rebuild := rebuild_faiss_index_for_project embed file_exists load_and_split_document.
Let entries_of := project_entries file_exists load_and_split_document.

Lemma reindex_document_store_inv (st : Store) (doc : Document) :
  store_inv st → store_inv (reindex st doc).
Proof.
  intros Hst. unfold reindex, reindex_document.
  destruct (file_exists (filename doc)); [|done]. simpl.
  destruct (load_and_split_document (filename doc)) as [|c cs] eqn:Hload; [done|].
  destruct (embed_all embed (c :: cs)) as [embeddings|] eqn:Hemb; [|done].
  apply embed_all_length in Hemb.
  pose proof (update_faiss_index_store_inv st (doc_ident doc) (c :: cs)
                embeddings (eq_sym Hemb) Hst) as Hinv.
  by destruct (update_faiss_index st (doc_ident doc) (c :: cs) embeddings)
    as [[[]|e] st'].
Qed.

Lemma foldl_reindex_store_inv (documents : list Document) (st : Store) :
  store_inv st → store_inv (foldl reindex st documents).
Proof.
  revert st. induction documents as [|doc rest IH]; intros st Hst; [done|].
  simpl. apply IH. by apply reindex_document_store_inv.
Qed.

(** X1. Whatever the documents, their files and the outcomes of the
    embedding calls are, a rebuild leaves a store that satisfies the
    invariant: no index and no mapping, or a non-empty index whose positions
    are exactly the mapping's keys. The store it started from plays no part
    in the result. *)
Theorem rebuild_keeps_store_inv (st st' : Store) (documents : list Document) :
  store_inv (rebuild st documents) ∧
  rebuild st documents = rebuild st' documents.
Proof.
  split; [|done]. unfold rebuild, rebuild_faiss_index_for_project.
  destruct documents as [|doc rest]; [done|].
  by apply foldl_reindex_store_inv.
Qed.

Lemma rebuild_store_inv (st : Store) (documents : list Document) :
  store_inv (rebuild st documents).
Proof.
  unfold rebuild, rebuild_faiss_index_for_project.
  destruct documents as [|doc rest]; [done|].
  by apply foldl_reindex_store_inv.
Qed.

Lemma add_chunks_lookup_inv start doc chunks i (m : gmap string entry) key e :
  add_chunks start doc chunks i m !! key = Some e →
  m !! key = Some e ∨ (doc_id e = doc ∧ chunk_text e ∈ chunks).
Proof.
  revert i m. induction chunks as [|c cs IH]; intros i m; simpl; [by left|].
  intros Hlook. destruct (IH _ _ Hlook) as [Hm|[Hd Hc]].
  - destruct (decide (pretty (start + i) = key)) as [<-|Hne].
    + rewrite lookup_insert_eq in Hm. injection Hm as <-. right. split; [done|].
      by left.
    + rewrite lookup_insert_ne in Hm by done. by left.
  - right. split; [done|]. by right.
Qed.

Lemma elem_of_project_entries (documents : list Document) (e : entry) :
  e ∈ entries_of documents ↔
  ∃ doc, doc ∈ documents ∧ file_exists (filename doc) = true ∧
         doc_id e = doc_ident doc ∧
         chunk_text e ∈ load_and_split_document (filename doc).
Proof.
  unfold entries_of, project_entries. rewrite list_elem_of_bind. split.
  - intros (doc & He & Hdoc). exists doc. split; [done|].
    unfold document_entries in He.
    destruct (file_exists (filename doc)); [|by apply elem_of_nil in He].
    apply list_elem_of_fmap in He as (c & -> & Hc). done.
  - intros (doc & Hdoc & Hfile & Hid & Hc). exists doc. split; [|done].
    unfold document_entries. rewrite Hfile. apply list_elem_of_fmap.
    exists (chunk_text e). split; [|done]. destruct e. simpl in *. by subst.
Qed.

Lemma reindex_document_entries (P : entry → Prop) (st : Store) (doc : Document) :
  (∀ e, e ∈ document_entries file_exists load_and_split_document doc → P e) →
  map_Forall (fun _ e => P e) (default ∅ (mapping_file st)) →
  map_Forall (fun _ e => P e) (default ∅ (mapping_file (reindex st doc))).
Proof.
  intros Hdoc Hst. unfold reindex, reindex_document.
  unfold document_entries in Hdoc.
  destruct (file_exists (filename doc)); [|done]. simpl.
  destruct (load_and_split_document (filename doc)) as [|c cs] eqn:Hload; [done|].
  cbv beta iota. remember (c :: cs) as chunks eqn:Hchunks. clear Hchunks.
  destruct (embed_all embed chunks) as [embeddings|]; [|done].
  unfold update_faiss_index.
  destruct (load_or_create st embeddings) as [[ix m]|] eqn:Hloaded; [|done].
  destruct (index_add ix embeddings); [|done]. simpl.
  assert (map_Forall (fun _ e => P e) m) as Hm.
  { unfold load_or_create in Hloaded.
    destruct (index_file st).
    - destruct (mapping_file st); [|done]. by injection Hloaded as <- <-.
    - destruct embeddings; [done|]. injection Hloaded as <- <-.
      apply map_Forall_empty. }
  intros key e Hlook. apply add_chunks_lookup_inv in Hlook as [Hold|[Hd Hc]].
  - by eapply Hm.
  - apply Hdoc. apply list_elem_of_fmap. exists (chunk_text e).
    split; [|done]. destruct e. simpl in *. by subst.
Qed.

Lemma foldl_reindex_entries (P : entry → Prop) (documents : list Document)
    (st : Store) :
  (∀ e, e ∈ entries_of documents → P e) →
  map_Forall (fun _ e => P e) (default ∅ (mapping_file st)) →
  map_Forall (fun _ e => P e)
    (default ∅ (mapping_file (foldl reindex st documents))).
Proof.
  revert st. induction documents as [|doc rest IH]; intros st Hall Hst; [done|].
  simpl. apply IH.
  - intros e He. apply Hall. unfold entries_of, project_entries.
    rewrite bind_cons. apply elem_of_app. by right.
  - apply reindex_document_entries; [|done]. intros e He. apply Hall.
    unfold entries_of, project_entries. rewrite bind_cons. apply elem_of_app.
    by left.
Qed.

Lemma rebuild_entries_in_project (st : Store) (documents : list Document) :
  map_Forall (fun _ e => e ∈ entries_of documents)
    (default ∅ (mapping_file (rebuild st documents))).
Proof.
  unfold rebuild, rebuild_faiss_index_for_project.
  destruct documents as [|doc rest]; [apply map_Forall_empty|].
  apply foldl_reindex_entries; [done|apply map_Forall_empty].
Qed.

(** X2. After a rebuild every mapping entry is a chunk of a document that
    is still listed and whose file is on disk, under that document's id;
    so no entry carries the id of a document that is no longer listed. *)
Theorem rebuild_entries_of_documents (st : Store) (documents : list Document) :
  let mapping := default ∅ (mapping_file (rebuild st documents)) in
  map_Forall (fun _ e =>
    ∃ doc, doc ∈ documents ∧ file_exists (filename doc) = true ∧
           doc_id e = doc_ident doc ∧
           chunk_text e ∈ load_and_split_document (filename doc)) mapping ∧
  (∀ d, d ∉ doc_ident <$> documents →
        map_Forall (fun _ e => doc_id e ≠ d) mapping).
Proof.
  intros mapping.
  assert (map_Forall (fun _ e => e ∈ entries_of documents) mapping) as Hall
    by apply rebuild_entries_in_project.
  split.
  - intros key e He. apply elem_of_project_entries. by eapply Hall.
  - intros d Hd key e He Heq.
    apply Hall, elem_of_project_entries in He as (doc & Hdoc & _ & Hid & _).
    apply Hd. apply list_elem_of_fmap. exists doc. split; [congruence|done].
Qed.

Section exact.
Variable embedding : string → vector.
Variable d : nat.

Lemma holds_entries_load (st : Store) (entries : list entry)
    (m : gmap string entry) (v : vector) (vs : list vector) :
  holds_entries embedding d st entries m → length v = d →
  load_or_create st (v :: vs)
  = Ok (mkIndex d ((embedding ∘ chunk_text) <$> entries), m).
Proof.
  intros (Hdom & _ & ->) Hv. unfold load_or_create.
  destruct entries as [|e es]; [|done]. simpl. rewrite Hv.
  unfold IndexFlatL2. do 3 f_equal. symmetry. apply dom_empty_inv_L.
  by rewrite Hdom.
Qed.

Lemma holds_entries_lookup (st : Store) (entries : list entry)
    (m : gmap string entry) (i : nat) :
  holds_entries embedding d st entries m →
  m !! pretty (Z.of_nat i) = entries !! i.
Proof.
  intros (Hdom & Hlook & _). destruct (entries !! i) as [e|] eqn:He.
  - by apply Hlook.
  - apply not_elem_of_dom. rewrite Hdom, elem_of_position_keys.
    intros (j & Hj & Heq). apply (inj pretty) in Heq.
    apply lookup_ge_None in He. lia.
Qed.

Lemma holds_entries_inv (st : Store) (entries : list entry)
    (m : gmap string entry) :
  holds_entries embedding d st entries m →
  index_mapping_inv (mkIndex d ((embedding ∘ chunk_text) <$> entries)) m.
Proof.
  intros (Hdom & _ & _). apply index_mapping_inv_dom. rewrite Hdom.
  unfold ntotal. simpl. by rewrite length_fmap.
Qed.

Lemma reindex_document_holds (st : Store) (entries : list entry)
    (m : gmap string entry) (doc : Document) :
  holds_entries embedding d st entries m →
  (∀ e, e ∈ document_entries file_exists load_and_split_document doc →
        embed (chunk_text e) = Ok (embedding (chunk_text e)) ∧
        length (embedding (chunk_text e)) = d) →
  ∃ m', holds_entries embedding d (reindex st doc)
          (entries ++ document_entries file_exists load_and_split_document doc) m'.
Proof.
  intros Hst Hdoc. unfold reindex, reindex_document.
  unfold document_entries in *.
  destruct (file_exists (filename doc));
    [|exists m; by rewrite app_nil_r]. simpl.
  destruct (load_and_split_document (filename doc)) as [|c cs] eqn:Hload;
    [exists m; by rewrite app_nil_r|].
  cbv beta iota. remember (c :: cs) as chunks eqn:Hchunks.
  assert (∀ t, t ∈ chunks →
            embed t = Ok (embedding t) ∧ length (embedding t) = d) as Hemb.
  { intros t Ht. apply (Hdoc (mkEntry (doc_ident doc) t)).
    apply list_elem_of_fmap. by exists t. }
  rewrite (embed_all_ok embed embedding) by (intros t Ht; by apply Hemb).
  unfold update_faiss_index.
  assert (embedding <$> chunks = embedding c :: (embedding <$> cs)) as Hrows
    by (by subst chunks).
  assert (load_or_create st (embedding <$> chunks)
          = Ok (mkIndex d ((embedding ∘ chunk_text) <$> entries), m)) as ->.
  { rewrite Hrows. apply holds_entries_load; [done|].
    apply Hemb. subst chunks. by left. }
  rewrite index_add_ok; simpl.
  2: { by rewrite Hrows. }
  2: { apply Forall_forall. intros v Hv.
       apply list_elem_of_fmap in Hv as (t & -> & Ht). by apply Hemb. }
  set (n := ntotal (mkIndex d ((embedding ∘ chunk_text) <$> entries))).
  assert (n = Z.of_nat (length entries)) as Hn
    by (unfold n, ntotal; simpl; by rewrite length_fmap).
  exists (add_chunks n (doc_ident doc) chunks 0 m). split; [|split].
  - rewrite add_chunks_dom. destruct Hst as (-> & _ & _).
    rewrite Hn, Z.add_0_r, position_keys_app by lia. f_equal.
    rewrite length_app, length_fmap. lia.
  - intros i e He. destruct (decide (i < length entries)%nat) as [Hlt|Hge].
    + rewrite lookup_app_l in He by done.
      rewrite add_chunks_lookup_other.
      * destruct Hst as (_ & Hlook & _). by apply Hlook.
      * intros k _ Heq. apply (inj pretty) in Heq. lia.
    + rewrite lookup_app_r in He by lia.
      rewrite list_lookup_fmap in He.
      destruct (chunks !! (i - length entries)%nat) as [t|] eqn:Ht; [|done].
      injection He as <-.
      replace (Z.of_nat i) with (n + 0 + Z.of_nat (i - length entries)) by lia.
      by apply add_chunks_lookup_new.
  - destruct (entries ++ (mkEntry (doc_ident doc) <$> chunks)) as [|e0 es] eqn:Happ.
    { apply app_eq_nil in Happ as [_ Hnil]. by subst chunks. }
    rewrite <- Happ. do 3 f_equal. rewrite fmap_app. f_equal.
    rewrite <- list_fmap_compose. done.
Qed.

Lemma foldl_reindex_holds (documents : list Document) (st : Store)
    (entries : list entry) (m : gmap string entry) :
  holds_entries embedding d st entries m →
  (∀ e, e ∈ entries_of documents →
        embed (chunk_text e) = Ok (embedding (chunk_text e)) ∧
        length (embedding (chunk_text e)) = d) →
  ∃ m', holds_entries embedding d (foldl reindex st documents)
          (entries ++ entries_of documents) m'.
Proof.
  revert st entries m.
  induction documents as [|doc rest IH]; intros st entries m Hst Hall.
  - exists m. unfold entries_of, project_entries. simpl. by rewrite app_nil_r.
  - unfold entries_of, project_entries in *. rewrite bind_cons in *.
    destruct (reindex_document_holds st entries m doc Hst) as (m1 & H1).
    { intros e He. apply Hall, elem_of_app. by left. }
    destruct (IH _ _ _ H1) as (m2 & H2).
    { intros e He. apply Hall, elem_of_app. by right. }
    exists m2. simpl. by rewrite (assoc_L (++)).
Qed.

(** X3. When every chunk of the listed documents whose file is on disk is
    embedded, by a vector of one dimension d, the rebuilt store holds
    exactly these chunks in the order of the documents and of their chunks:
    row i of the index is the embedding of the i-th chunk, the mapping keeps
    that chunk and its document's id under key str(i) and has no other key,
    so the index size is the sum of the chunk counts. With no such chunk,
    neither file exists. *)
Theorem rebuild_indexes_every_chunk (st : Store) (documents : list Document) :
  (∀ e, e ∈ entries_of documents →
        embed (chunk_text e) = Ok (embedding (chunk_text e)) ∧
        length (embedding (chunk_text e)) = d) →
  let entries := entries_of documents in
  let index := mkIndex d ((embedding ∘ chunk_text) <$> entries) in
  ∃ m,
    rebuild st documents
    = match entries with
      | [] => mkStore None None
      | _ :: _ => mkStore (Some index) (Some m)
      end ∧
    (∀ i : nat, m !! pretty (Z.of_nat i) = entries !! i) ∧
    index_mapping_inv index m ∧
    ntotal index = Z.of_nat (length entries).
Proof.
  intros Hall entries index.
  assert (holds_entries embedding d (mkStore None None) [] ∅) as H0.
  { by split; [|split]. }
  destruct (foldl_reindex_holds documents _ _ _ H0 Hall) as (m & Hm).
  simpl in Hm. fold entries in Hm. exists m.
  split; [|split; [|split]].
  - destruct Hm as (_ & _ & Hst).
    unfold rebuild, rebuild_faiss_index_for_project.
    destruct documents as [|doc rest]; [done|]. exact Hst.
  - intros i. by eapply holds_entries_lookup.
  - by eapply holds_entries_inv.
  - unfold ntotal, index. simpl. by rewrite length_fmap.
Qed.

End exact.

End with_files.

(** The theorem on a project of three documents, the second without its
    file: the first and the third are indexed, three chunks in all. *)
Lemma rebuild_indexes_every_chunk_witness :
  let embedding : string → vector :=
    fun t => [inject_Z (Z.of_nat (String.length t))] in
  let embed : string → result vector := fun t => Ok (embedding t) in
  let file_exists : string → bool := fun name => negb (String.eqb name "lost.pdf") in
  let load : string → list string :=
    fun name => if String.eqb name "a.txt" then ["alpha"; "beta"] else ["gamma"] in
  let documents :=
    [mkDocument 1 "a.txt" "A2020_One" []; mkDocument 2 "lost.pdf" "B2021_Two" [];
     mkDocument 3 "c.txt" "C2022_Three" []] in
  let entries := project_entries file_exists load documents in
  let index := mkIndex 1 ((embedding ∘ chunk_text) <$> entries) in
  ∃ m,
    rebuild_faiss_index_for_project embed file_exists load
      (mkStore (Some (mkIndex 4 [])) None) documents
    = match entries with
      | [] => mkStore None None
      | _ :: _ => mkStore (Some index) (Some m)
      end ∧
    (∀ i : nat, m !! pretty (Z.of_nat i) = entries !! i) ∧
    index_mapping_inv index m ∧
    ntotal index = Z.of_nat (length entries).
Proof.
  intros embedding embed file_exists load documents entries index.
  apply (rebuild_indexes_every_chunk embed file_exists load embedding 1
           (mkStore (Some (mkIndex 4 [])) None) documents).
  intros e _. split; reflexivity.
Defined.

End rebuild_facts.

(** ** Ingestion into the index *)

Section ingestion_facts.
Import VectorIndex Rebuild.

(** The first ingestion of a project, with two chunks. *)
Lemma first_add_creates_index_witness :
  ∃ m', update_faiss_index (mkStore None None) 3 ["alpha"; "beta"]
          ([1#1; 0#1] :: [[0#1; 1#1]])
        = (Ok tt, mkStore (Some (mkIndex (length [1#1; 0#1]%Q)
                                   ([1#1; 0#1] :: [[0#1; 1#1]]))) (Some m')) ∧
        index_mapping_inv (mkIndex (length [1#1; 0#1]%Q)
                             ([1#1; 0#1] :: [[0#1; 1#1]])) m' ∧
        ∀ (i : nat) c, ["alpha"; "beta"] !! i = Some c →
          m' !! pretty (Z.of_nat i) = Some (mkEntry 3 c).
Proof.
  apply (first_add_creates_index (mkStore None None) 3 ["alpha"; "beta"]
           [1#1; 0#1]%Q [[0#1; 1#1]%Q]).
  - reflexivity.
  - reflexivity.
  - repeat constructor.
Defined.

(** X5. On a project that has an index, a batch in which some vector has
    not the index's dimension is refused with an exception (the assertion
    of [index.add], or the error of building the array when the rows differ
    in length among themselves), and neither file is written: the store is
    what it was. *)
Theorem update_rejects_wrong_dimension (st : Store) (ix : Index)
    (m : gmap string entry) (doc : Z) (chunks : list string)
    (embeddings : list vector) :
  index_file st = Some ix → mapping_file st = Some m →
  Exists (fun v => length v ≠ dim ix) embeddings →
  ∃ e, update_faiss_index st doc chunks embeddings = (Raise e, st) ∧
       (e = AssertionError "" ∨ ∃ msg, e = ValueError msg).
Proof.
  intros Hix Hm Hbad. unfold update_faiss_index, load_or_create.
  rewrite Hix, Hm.
  destruct (index_add ix embeddings) as [ix'|e] eqn:Hadd.
  - apply index_add_inv in Hadd as (_ & Hall & _).
    apply Exists_exists in Hbad as (v & Hv & Hne).
    rewrite Forall_forall in Hall. by destruct (Hne (Hall v Hv)).
  - exists e. split; [done|]. revert Hadd. unfold index_add.
    destruct (np_shape embeddings) as [[n d]|]; [|intros [= <-]; eauto].
    destruct (Nat.eqb d (dim ix)); [done|]. intros [= <-]. by left.
Qed.

Lemma update_rejects_wrong_dimension_witness :
  ∃ e, update_faiss_index
         (mkStore (Some (mkIndex 2 [[1#1; 0#1]])) (Some {[ "0" := mkEntry 7 "alpha" ]}))
         8 ["beta"] [[1#1; 2#1; 3#1]]
       = (Raise e,
          mkStore (Some (mkIndex 2 [[1#1; 0#1]])) (Some {[ "0" := mkEntry 7 "alpha" ]})) ∧
       (e = AssertionError "" ∨ ∃ msg, e = ValueError msg).
Proof.
  apply (update_rejects_wrong_dimension
           (mkStore (Some (mkIndex 2 [[1#1; 0#1]])) (Some {[ "0" := mkEntry 7 "alpha" ]}))
           (mkIndex 2 [[1#1; 0#1]]) {[ "0" := mkEntry 7 "alpha" ]} 8 ["beta"]
           [[1#1; 2#1; 3#1]]).
  - reflexivity.
  - reflexivity.
  - apply Exists_cons_hd. simpl. lia.
Defined.

End ingestion_facts.

(** ** Answering and context assembly *)

Section retrieval_facts.
Import VectorIndex ContextItems.

(** The labels of a search: positions of the index, or the padding -1. *)
Lemma search_labels (ix : Index) (q : vector) (k : nat) :
  length q = dim ix → (0 < k)%nat →
  ∃ labels, search ix q k = Ok labels ∧
    length labels = k ∧
    (∀ p, p ∈ labels → -1 ≤ p < ntotal ix) ∧
    ((length (xb ix) ≤ k)%nat → ∀ p, 0 ≤ p < ntotal ix → p ∈ labels).
Proof.
  intros Hq Hk. unfold search. rewrite Hq, Nat.eqb_refl. simpl.
  destruct (Nat.eqb_spec k 0); [lia|]. eexists. split; [reflexivity|].
  pose proof (ranking_positions ix q) as Hperm.
  split; [|split].
  - rewrite length_take, length_app, length_replicate. lia.
  - intros p Hp. apply elem_of_take_in, elem_of_app in Hp as [Hp|Hp].
    + rewrite Hperm in Hp. apply elem_of_seqZ in Hp. lia.
    + apply elem_of_replicate in Hp as [-> _]. unfold ntotal. lia.
  - intros Hle p Hp. rewrite take_app_ge by (rewrite length_fmap, ranking_length; lia).
    apply elem_of_app. left. rewrite Hperm. apply elem_of_seqZ. lia.
Qed.

Lemma py_index_ok {A} (lst : list A) (idx : Z) :
  - Z.of_nat (length lst) ≤ idx < Z.of_nat (length lst) →
  ∃ a, py_index lst idx = Ok a ∧ a ∈ lst.
Proof.
  intros Hidx. unfold py_index.
  set (pos := if idx <? 0 then idx + Z.of_nat (length lst) else idx).
  assert (0 ≤ pos < Z.of_nat (length lst)) as Hpos
    by (unfold pos; destruct (Z.ltb_spec idx 0); lia).
  destruct (Z.ltb_spec pos 0); [lia|].
  destruct (lookup_lt_is_Some_2 lst (Z.to_nat pos)) as [a Ha]; [lia|].
  rewrite Ha. exists a. split; [done|]. by eapply list_elem_of_lookup_2.
Qed.

Lemma py_index_position {A} (lst : list A) (p : nat) (a : A) :
  lst !! p = Some a → py_index lst (Z.of_nat p) = Ok a.
Proof.
  intros Ha. unfold py_index. destruct (Z.ltb_spec (Z.of_nat p) 0); [lia|].
  destruct (Z.ltb_spec (Z.of_nat p) 0); [lia|]. by rewrite Nat2Z.id, Ha.
Qed.

Lemma figure_loop_spec (analyses : list item) (labels : list Z)
    (items : gset item) :
  (∀ p, p ∈ labels →
     - Z.of_nat (length analyses) ≤ p < Z.of_nat (length analyses)) →
  ∃ picked,
    Forall2 (fun p it => py_index analyses p = Ok it) labels picked ∧
    figure_loop analyses labels items
    = Ok (list_to_set (figure_item <$> picked) ∪ items).
Proof.
  revert items. induction labels as [|p rest IH]; intros items Hall.
  - exists []. split; [constructor|]. simpl. by rewrite (left_id_L ∅ (∪)).
  - destruct (py_index_ok analyses p) as (it & Hit & _); [apply Hall; by left|].
    destruct (IH ({[ figure_item it ]} ∪ items)) as (picked & HF & Hloop).
    { intros p' Hp'. apply Hall. by right. }
    exists (it :: picked). split; [by constructor|].
    rewrite fmap_cons, list_to_set_cons.
    cbn [figure_loop]. rewrite Hit. cbn [bind].
    change (it.1, "Relevant Figure Analysis:" +:+ nl +:+ it.2)
      with (figure_item it).
    etrans; [exact Hloop|]. f_equal.
    rewrite (assoc_L (∪)). f_equal. apply (comm_L (∪)).
Qed.

(** X6. The figure branch of the context assembler never raises on what
    its search returns: on a figure index with one row per analysis (at
    least one), a query of its dimension and k >= 1, every label is a
    position or the padding -1, which Python's indexing reads as the last
    analysis; the resulting set is the given set plus items of analyses, and
    when there are at most k analyses, every one of them is in it. *)
Theorem figure_branch_never_fails (analyses : list item) (fi : Index)
    (q : vector) (k : nat) (items : gset item) :
  analyses ≠ [] →
  length (xb fi) = length analyses →
  length q = dim fi →
  (0 < k)%nat →
  ∃ labels items',
    search fi q k = Ok labels ∧
    figure_loop analyses labels items = Ok items' ∧
    items ⊆ items' ∧
    (∀ x, x ∈ items' → x ∈ items ∨ ∃ it, it ∈ analyses ∧ x = figure_item it) ∧
    ((length analyses ≤ k)%nat →
       ∀ it, it ∈ analyses → figure_item it ∈ items') ∧
    ((length analyses < k)%nat → -1 ∈ labels ∧
       ∃ it, last analyses = Some it ∧ py_index analyses (-1) = Ok it).
Proof.
  intros Hne Hrows Hq Hk.
  destruct (search_labels fi q k Hq Hk) as (labels & Hsearch & Hlen & Hrange & Hall).
  assert (0 < length analyses)%nat as Hpos by (destruct analyses; [done|simpl; lia]).
  destruct (figure_loop_spec analyses labels items) as (picked & HF & Hloop).
  { intros p Hp. apply Hrange in Hp. unfold ntotal in Hp. lia. }
  exists labels, (list_to_set (figure_item <$> picked) ∪ items).
  split; [done|]. split; [done|]. split; [apply union_subseteq_r|].
  split; [|split].
  - intros x Hx. apply elem_of_union in Hx as [Hx|Hx]; [|by left]. right.
    apply elem_of_list_to_set, list_elem_of_fmap in Hx as (it & -> & Hit).
    exists it. split; [|done].
    apply list_elem_of_lookup in Hit as [i Hi].
    destruct (Forall2_lookup_r _ _ _ _ _ HF Hi) as (p & Hp & Hidx).
    destruct (py_index_ok analyses p) as (it' & Hit' & Hin).
    { apply list_elem_of_lookup_2, Hrange in Hp. unfold ntotal in Hp. lia. }
    congruence.
  - intros Hle it Hit. apply elem_of_union. left.
    apply elem_of_list_to_set, list_elem_of_fmap. exists it. split; [done|].
    apply list_elem_of_lookup in Hit as [i Hi].
    assert (Z.of_nat i ∈ labels) as Hin.
    { apply Hall; [lia|]. apply lookup_lt_Some in Hi. unfold ntotal. lia. }
    apply list_elem_of_lookup in Hin as [j Hj].
    destruct (Forall2_lookup_l _ _ _ _ _ HF Hj) as (it' & Hj' & Hidx).
    rewrite (py_index_position _ _ _ Hi) in Hidx. injection Hidx as <-.
    by eapply list_elem_of_lookup_2.
  - intros Hlt. split.
    + revert Hsearch. unfold search. rewrite Hq, Nat.eqb_refl. simpl.
      destruct (Nat.eqb_spec k 0); [lia|]. intros [= <-].
      rewrite take_app_ge by (rewrite length_fmap, ranking_length; lia).
      apply elem_of_app. right. rewrite length_fmap, ranking_length.
      apply elem_of_take. exists 0%nat. split; [|lia].
      apply lookup_replicate. split; [done|lia].
    + destruct (last analyses) as [it|] eqn:Hlast.
      * exists it. split; [done|]. unfold py_index.
        rewrite last_lookup in Hlast.
        replace (Z.to_nat _) with (pred (length analyses)); [|simpl; lia].
        simpl. destruct (Z.ltb_spec (-1 + Z.of_nat (length analyses)) 0); [lia|].
        by rewrite Hlast.
      * apply last_None in Hlast. done.
Qed.

(** The theorem on two analyses and k = 5: three labels are padding. *)
Lemma figure_branch_never_fails_witness :
  let analyses : list item := [(1, "plot"); (2, "diagram")] in
  let fi := mkIndex 1 [[0#1]; [3#1]] in
  ∃ labels items',
    search fi [1#1] 5 = Ok labels ∧
    figure_loop analyses labels ∅ = Ok items' ∧
    ∅ ⊆ items' ∧
    (∀ x, x ∈ items' → x ∈ (∅ : gset item) ∨ ∃ it, it ∈ analyses ∧ x = figure_item it) ∧
    ((length analyses ≤ 5)%nat →
       ∀ it, it ∈ analyses → figure_item it ∈ items') ∧
    ((length analyses < 5)%nat → -1 ∈ labels ∧
       ∃ it, last analyses = Some it ∧ py_index analyses (-1) = Ok it).
Proof.
  intros analyses fi.
  apply (figure_branch_never_fails analyses fi [1#1]%Q 5 ∅).
  - discriminate.
  - reflexivity.
  - reflexivity.
  - lia.
Defined.

Lemma embed_all_total (embed : string → result vector) (d : nat) texts :
  (∀ t, t ∈ texts → ∃ v, embed t = Ok v ∧ length v = d) →
  ∃ vs, embed_all embed texts = Ok vs ∧ length vs = length texts ∧
        Forall (fun v => length v = d) vs.
Proof.
  induction texts as [|t rest IH]; intros Hall.
  - exists []. by repeat split.
  - destruct (Hall t) as (v & Hv & Hd); [by left|].
    destruct IH as (vs & Hvs & Hlen & HF); [intros t' Ht'; apply Hall; by right|].
    exists (v :: vs). simpl. rewrite Hv. simpl. rewrite Hvs. simpl.
    split; [done|]. split; [by rewrite Hlen|]. by constructor.
Qed.

Lemma np_shape_ok (rows : list vector) (d : nat) :
  rows ≠ [] → Forall (fun v => length v = d) rows →
  np_shape rows = Some (length rows, d).
Proof.
  intros Hne Hall. unfold np_shape. destruct rows as [|r rs]; [done|].
  apply Forall_cons in Hall as [Hr Hrs].
  assert (forallb (fun v => Nat.eqb (length v) (length r)) rs = true) as ->.
  { apply forallb_forall. intros v Hv. apply Nat.eqb_eq.
    rewrite Forall_forall in Hrs. rewrite Hr. apply Hrs.
    by apply list_elem_of_In. }
  by rewrite Hr.
Qed.

(** X7. On a project that has both files, the context assembler returns a
    context and raises nothing whenever the prompt is embedded with the
    index's dimension, every figure analysis is embedded with that
    dimension too, and RAG_TOP_K is at least one: whatever the mapping
    holds, and however few rows or figures there are. The context is built
    from text items of mapping entries and from figure items of the
    project's analyses only. *)
Theorem gather_context_succeeds (embed : string → result vector)
    (top_k : nat) (missing_index : exn) (st : Store) (ix : Index)
    (m : gmap string entry) (documents : list Document)
    (user_prompt : string) (q : vector) :
  index_file st = Some ix → mapping_file st = Some m →
  (0 < top_k)%nat →
  embed user_prompt = Ok q → length q = dim ix →
  (∀ it, it ∈ figure_analyses documents →
         ∃ v, embed it.2 = Ok v ∧ length v = dim ix) →
  ∃ items,
    gather_context embed top_k missing_index st documents user_prompt
    = Ok (format_context documents items) ∧
    ∀ x, x ∈ items →
      (∃ key e, m !! key = Some e ∧ x = text_item e) ∨
      (∃ it, it ∈ figure_analyses documents ∧ x = figure_item it).
Proof.
  intros Hix Hm Hk Hq Hdim Hfig.
  destruct (search_labels ix q top_k Hdim Hk) as (labels & Hsearch & _).
  assert (∀ x, x ∈ (list_to_set (omap (contribution m) labels) ∪ ∅ : gset item) →
            ∃ key e, m !! key = Some e ∧ x = text_item e) as Htext.
  { intros x Hx. rewrite (right_id_L ∅ (∪)) in Hx.
    apply elem_of_list_to_set, list_elem_of_omap in Hx as (p & _ & Hp).
    unfold contribution in Hp.
    destruct (m !! pretty p) as [e|] eqn:He; [|done]. injection Hp as <-. eauto. }
  unfold gather_context, load_text_index. rewrite Hix, Hm. cbn [bind].
  destruct (figure_analyses documents) as [|a rest] eqn:Han.
  - cbn [bind]. rewrite Hq. cbn [bind]. rewrite Hsearch. cbn [bind].
    rewrite text_loop_spec. cbn [bind]. eexists. split; [reflexivity|].
    intros x Hx. left. by apply Htext.
  - remember (a :: rest) as analyses eqn:Heq.
    assert (analyses ≠ []) as Hne by (by subst).
    destruct (embed_all_total embed (dim ix) (snd <$> analyses))
      as (vs & Hvs & Hlen & Hall).
    { intros t Ht. apply list_elem_of_fmap in Ht as (it & -> & Hit). by apply Hfig. }
    rewrite length_fmap in Hlen.
    assert (vs ≠ []) as Hvne by (destruct vs, analyses; done).
    rewrite Hvs. cbn [bind].
    rewrite (np_shape_ok vs (dim ix)) by done.
    rewrite index_add_ok by done. cbn [bind]. rewrite Hq. cbn [bind].
    rewrite Hsearch. cbn [bind]. rewrite text_loop_spec. cbn [bind].
    set (fi := mkIndex (dim (IndexFlatL2 (dim ix))) (xb (IndexFlatL2 (dim ix)) ++ vs)).
    destruct (search_labels fi q top_k Hdim Hk) as (flabels & Hfs & _ & Hrange & _).
    rewrite Hfs. cbn [bind].
    destruct (figure_loop_spec analyses flabels
                (list_to_set (omap (contribution m) labels) ∪ ∅))
      as (picked & HF & Hloop).
    { intros p Hp. apply Hrange in Hp. unfold ntotal, fi in Hp. simpl in Hp.
      assert (0 < length analyses)%nat by (destruct analyses; [done|simpl; lia]).
      unfold item in *. lia. }
    rewrite Hloop. cbn [bind]. eexists. split; [reflexivity|].
    intros x Hx. apply elem_of_union in Hx as [Hx|Hx]; [right|left; by apply Htext].
    apply elem_of_list_to_set, list_elem_of_fmap in Hx as (it & -> & Hit).
    exists it. split; [|done].
    apply list_elem_of_lookup in Hit as [i Hi].
    destruct (Forall2_lookup_r _ _ _ _ _ HF Hi) as (p & Hp & Hidx).
    destruct (py_index_ok analyses p) as (it' & Hit' & Hin).
    { apply list_elem_of_lookup_2, Hrange in Hp. unfold ntotal, fi in Hp.
      simpl in Hp.
      assert (0 < length analyses)%nat by (destruct analyses; [done|simpl; lia]).
      unfold item in *. lia. }
    congruence.
Qed.

(** The theorem on a one-row index and a document with one figure. *)
Lemma gather_context_succeeds_witness :
  let embed : string → result vector := fun _ => Ok [0#1]%Q in
  let st := mkStore (Some (mkIndex 1 [[1#1]])) (Some {[ "0" := mkEntry 1 "text" ]}) in
  let m : gmap string entry := {[ "0" := mkEntry 1 "text" ]} in
  let documents :=
    [mkDocument 1 "a.pdf" "A2020_One" [mkFigure "Line Plot" 2 "a curve" "it rises"]] in
  ∃ items,
    gather_context embed 5 (FileNotFoundError "docs.index") st documents "q"
    = Ok (format_context documents items) ∧
    ∀ x, x ∈ items →
      (∃ key e, m !! key = Some e ∧ x = text_item e) ∨
      (∃ it, it ∈ figure_analyses documents ∧ x = figure_item it).
Proof.
  intros embed st m documents.
  apply (gather_context_succeeds embed 5 (FileNotFoundError "docs.index") st
           (mkIndex 1 [[1#1]%Q]) m documents "q" [0#1]%Q).
  - reflexivity.
  - reflexivity.
  - lia.
  - reflexivity.
  - reflexivity.
  - intros it _. exists [0#1]%Q. split; reflexivity.
Defined.

(** X8. On a store that satisfies the invariant, with a question embedded
    in the index's dimension and RAG_TOP_K at least one, the handler of the
    ask route always answers: the min(RAG_TOP_K, n) retrieved chunks, joined
    by the separator line, go into the prompt of the chat call; the response
    is 200 with the model's reply, or 500 with the wrapped message when the
    chat call fails. No exception leaves the handler. *)
Theorem ask_question_answers (embed : string → result vector)
    (chat : string → result string) (top_k : nat) (st : Store) (ix : Index)
    (m : gmap string entry) (question : string) (q : vector) :
  index_file st = Some ix → mapping_file st = Some m →
  index_mapping_inv ix m → xb ix ≠ [] →
  (0 < top_k)%nat →
  embed question = Ok q → length q = dim ix →
  ∃ chunks,
    retrieve_chunks top_k ix m q = Ok chunks ∧
    length chunks = Nat.min top_k (length (xb ix)) ∧
    let rag_prompt := get_rag_prompt question (join (nl +:+ "---" +:+ nl) chunks) in
    ask_project_question embed chat top_k st question
    = Ok (match chat rag_prompt with
          | Ok content => (200, content)
          | Raise e => (500, "Failed to generate answer with LLM: " +:+ str_exn e)
          end).
Proof.
  intros Hix Hm Hinv Hne Hk Hq Hdim.
  assert (0 < length (xb ix))%nat as Hn by (destruct (xb ix); [done|simpl; lia]).
  set (k := Nat.min top_k (length (xb ix))).
  destruct (ranking_take_nearest ix q k) as (Hlen & _ & Hvalid & _).
  destruct (resolve_chunks_mapped m (take k (ranking ix q).*1))
    as (entries & HF & Hres).
  { intros p Hp. eapply inv_position_mapped; eauto. }
  assert (retrieve_chunks top_k ix m q = Ok (chunk_text <$> entries)) as Hret.
  { unfold retrieve_chunks. fold k. rewrite search_ok by (done || lia). done. }
  exists (chunk_text <$> entries). split; [done|]. split.
  - rewrite length_fmap, <- (Forall2_length _ _ _ HF), Hlen. unfold k. lia.
  - intros rag_prompt. unfold ask_project_question, answer_question.
    rewrite Hix, Hm, Hq, Hret. cbn [bind]. fold rag_prompt.
    by destruct (chat rag_prompt).
Qed.

Lemma ask_question_answers_witness :
  let embed : string → result vector := fun _ => Ok [1#1]%Q in
  let chat : string → result string := fun _ => Raise (OtherError "connection refused") in
  let ix := mkIndex 1 [[0#1]; [5#1]; [2#1]] in
  let m : gmap string entry :=
    <["0" := mkEntry 1 "a"]> (<["1" := mkEntry 1 "b"]> {["2" := mkEntry 2 "c"]}) in
  ∃ chunks,
    retrieve_chunks 2 ix m [1#1] = Ok chunks ∧
    length chunks = Nat.min 2 (length (xb ix)) ∧
    let rag_prompt := get_rag_prompt "q" (join (nl +:+ "---" +:+ nl) chunks) in
    ask_project_question embed chat 2 (mkStore (Some ix) (Some m)) "q"
    = Ok (match chat rag_prompt with
          | Ok content => (200, content)
          | Raise e => (500, "Failed to generate answer with LLM: " +:+ str_exn e)
          end).
Proof.
  intros embed chat ix m.
  apply (ask_question_answers embed chat 2 (mkStore (Some ix) (Some m)) ix m
           "q" [1#1]%Q).
  - reflexivity.
  - reflexivity.
  - apply index_mapping_inv_dom. vm_compute. reflexivity.
  - discriminate.
  - lia.
  - reflexivity.
  - reflexivity.
Defined.

(** X9. A question embedded in another dimension than the index's (the
    embedding model was changed after the ingestion) fails the assertion of
    [index.search]; the handler of the ask route catches
    [FileNotFoundError] and [RuntimeError] only, so the exception leaves
    it. *)
Theorem ask_wrong_dimension_escapes (embed : string → result vector)
    (chat : string → result string) (top_k : nat) (st : Store) (ix : Index)
    (m : gmap string entry) (question : string) (q : vector) :
  index_file st = Some ix → mapping_file st = Some m →
  embed question = Ok q → length q ≠ dim ix →
  answer_question embed chat top_k st question = Raise (AssertionError "") ∧
  ask_project_question embed chat top_k st question = Raise (AssertionError "").
Proof.
  intros Hix Hm Hq Hdim.
  assert (answer_question embed chat top_k st question = Raise (AssertionError ""))
    as Hanswer.
  { unfold answer_question, retrieve_chunks, search. rewrite Hix, Hm, Hq.
    by destruct (Nat.eqb_spec (length q) (dim ix)). }
  split; [done|]. unfold ask_project_question. by rewrite Hanswer.
Qed.

Lemma ask_wrong_dimension_escapes_witness :
  answer_question (fun _ => Ok [1#1; 2#1]) (fun _ => Ok "fine") 5
    (mkStore (Some (mkIndex 1 [[0#1]])) (Some {[ "0" := mkEntry 1 "a" ]})) "q"
  = Raise (AssertionError "") ∧
  ask_project_question (fun _ => Ok [1#1; 2#1]) (fun _ => Ok "fine") 5
    (mkStore (Some (mkIndex 1 [[0#1]])) (Some {[ "0" := mkEntry 1 "a" ]})) "q"
  = Raise (AssertionError "").
Proof.
  apply (ask_wrong_dimension_escapes (fun _ => Ok [1#1; 2#1]%Q) (fun _ => Ok "fine") 5
           (mkStore (Some (mkIndex 1 [[0#1]%Q])) (Some {[ "0" := mkEntry 1 "a" ]}))
           (mkIndex 1 [[0#1]%Q]) {[ "0" := mkEntry 1 "a" ]} "q" [1#1; 2#1]%Q).
  - reflexivity.
  - reflexivity.
  - reflexivity.
  - simpl. lia.
Defined.

End retrieval_facts.

(** ** Figure regions of a page *)

(** A merged list is a fixed point of the loop. *)
Lemma merge_loop_idem (t : Q) (rects : list Figures.Rect) :
  Figures.merge_loop t (Figures.merge_loop t rects) = Figures.merge_loop t rects.
Proof.
  rewrite (merge_loop_unfold t (Figures.merge_loop t rects)).
  by rewrite merge_loop_fixed.
Qed.

Section region_facts.
Import Figures Regions.

Lemma Rect_of_merge (bboxes : list bbox) (t : Q) :
  Rect_of <$> merge_nearby_bboxes bboxes t = merge_loop t (Rect_of <$> bboxes).
Proof.
  rewrite merge_nearby_bboxes_loop, <- list_fmap_compose.
  rewrite <- (list_fmap_id (merge_loop t (Rect_of <$> bboxes))) at 2.
  apply list_fmap_ext. intros i r _. apply Rect_of_tuple_of.
Qed.

Lemma merge_loop_nonempty (t : Q) (rects : list Rect) :
  rects ≠ [] → merge_loop t rects ≠ [].
Proof.
  funelim (merge_loop t rects); intros Hne; [|done].
  apply H. pose proof (merge_pass_length _ _ _ Hpass) as Hlen.
  pose proof (merge_pass_some _ _ _ Hpass) as (i & j & _ & _ & Hij & _).
  destruct rects' as [|r rs]; [simpl in Hlen; lia|done].
Qed.

(** X10. The result of [merge_nearby_bboxes] is a fixed point: merging it
    again with the same threshold returns it unchanged. It has no more
    boxes than the input, and at least one when the input has one. *)
Theorem merge_is_idempotent (bboxes : list bbox) (t : Q) :
  merge_nearby_bboxes (merge_nearby_bboxes bboxes t) t
  = merge_nearby_bboxes bboxes t ∧
  (length (merge_nearby_bboxes bboxes t) ≤ length bboxes)%nat ∧
  (bboxes ≠ [] → merge_nearby_bboxes bboxes t ≠ []).
Proof.
  split; [|split].
  - rewrite (merge_nearby_bboxes_loop (merge_nearby_bboxes bboxes t)).
    rewrite Rect_of_merge, merge_loop_idem.
    by rewrite <- merge_nearby_bboxes_loop.
  - rewrite merge_nearby_bboxes_loop, length_fmap.
    etrans; [apply merge_loop_length|]. by rewrite length_fmap.
  - intros Hne Hnil. rewrite merge_nearby_bboxes_loop in Hnil.
    apply fmap_nil_inv in Hnil. revert Hnil. apply merge_loop_nonempty.
    by destruct bboxes.
Qed.

(** A pass and the loop create no region out of nothing: every box of the
    result contains a box of the input. *)
Lemma pass_contains t rects rects' :
  merge_pass t rects = Some rects' → Forall proper rects →
  ∀ f, f ∈ rects' → ∃ r, r ∈ rects ∧ inside r f.
Proof.
  intros Hpass Hall f Hf. rewrite Forall_forall in Hall.
  apply merge_pass_some in Hpass as (i & j & r1 & r2 & Hij & Hr1 & Hr2 & _ & ->).
  apply elem_of_merged in Hf as [->|Hf].
  - exists r1. split; [by eapply list_elem_of_lookup_2|].
    apply union_spec; apply Hall; by eapply list_elem_of_lookup_2.
  - exists f. split; [done|apply inside_refl].
Qed.

Lemma loop_contains t rects :
  Forall proper rects →
  ∀ f, f ∈ merge_loop t rects → ∃ r, r ∈ rects ∧ inside r f.
Proof.
  funelim (merge_loop t rects); intros Hall f Hf.
  - destruct (H (pass_proper _ _ _ Hpass Hall) f Hf) as (g & Hg & Hins).
    destruct (pass_contains _ _ _ Hpass Hall g Hg) as (r & Hr & Hins').
    exists r. split; [done|]. by eapply inside_trans.
  - exists f. split; [done|apply inside_refl].
Qed.

Lemma Forall_proper_fmap (bboxes : list bbox) :
  Forall (fun b => proper (Rect_of b)) bboxes → Forall proper (Rect_of <$> bboxes).
Proof. intros H. by apply Forall_fmap. Qed.



Lemma elem_of_associated_text (core texts : list bbox) (tb : bbox) :
  tb ∈ associated_text core texts ↔
  tb ∈ texts ∧
  ∃ c, c ∈ core ∧ intersects (inflate (Rect_of c) 50) (Rect_of tb) = true.
Proof.
  unfold associated_text. rewrite list_elem_of_bind. split.
  - intros (c & Htb & Hc). apply list_elem_of_filter in Htb as [Hint Htb]. eauto.
  - intros (Htb & c & Hc & Hint). exists c. split; [|done].
    by apply list_elem_of_filter.
Qed.



(** The page of the witness has one final region: images and caption. *)
Example figure_regions_page :
  figure_regions [(100, 100, 200, 200); (210, 100, 300, 200)]%Q
                 [(100, 220, 300, 240); (100, 600, 500, 700)]%Q
  = [(100, 100, 300, 240)]%Q.
Proof. reflexivity. Qed.

Lemma py_max_at_least (d c : Q) :
  (0 < c)%Q → Qltb (py_max 0 d) c = false → (c <= d)%Q ∧ py_max 0 d = d.
Proof.
  intros Hc. destruct (py_max_spec 0 d) as [[Hlt ->]|[Hle ->]];
    rewrite Qltb_ge; intros Hge; [done|lra].
Qed.

Lemma existsb_app_elem {A} (f : A → bool) (l1 l2 : list A) :
  existsb f l1 || existsb f l2 = true → ∃ x, x ∈ l1 ++ l2 ∧ f x = true.
Proof.
  rewrite <- existsb_app, existsb_exists. intros (x & Hx & Hf).
  exists x. split; [|done]. by apply list_elem_of_In.
Qed.

Lemma is_likely_figure_true (bbox : bbox) (texts images drawings : list Figures.bbox) :
  is_likely_figure bbox texts images drawings = true →
  let r := Rect_of bbox in
  let w := (x1 r - x0 r)%Q in
  let h := (y1 r - y0 r)%Q in
  width r = w ∧ height r = h ∧ (50 <= w)%Q ∧ (50 <= h)%Q ∧
  (w <= 10 * h)%Q ∧ (h <= 10 * w)%Q ∧
  (∃ g, g ∈ images ++ drawings ∧ intersects r (Rect_of g) = true) ∧
  (total_text_area r texts <= (7#10) * (w * h))%Q.
Proof.
  intros Hlikely r w h. revert Hlikely. unfold is_likely_figure. fold r.
  destruct (Qltb (width r) 50) eqn:Hw; [done|].
  destruct (Qltb (height r) 50) eqn:Hh; [done|]. cbn [orb].
  apply py_max_at_least in Hw as [Hw Hweq]; [|done].
  apply py_max_at_least in Hh as [Hh Hheq]; [|done].
  unfold width, height in *. rewrite Hweq, Hheq. fold w h in Hw, Hh |- *.
  assert (Qltb 0 h = true) as -> by (apply Qltb_lt; lra).
  assert (h * (w / h) == w)%Q as Hdiv by (apply Qmult_div_r; lra).
  destruct (Qltb 10 (w / h)) eqn:Hwide; [done|].
  destruct (Qltb (w / h) (1 # 10)) eqn:Hhigh; [done|]. cbn [orb].
  apply Qltb_ge in Hwide, Hhigh.
  destruct (existsb _ images || existsb _ drawings) eqn:Hgraphics; [|done].
  cbn [negb]. apply existsb_app_elem in Hgraphics.
  destruct (Qeq_bool (w * h) 0) eqn:Harea; [done|].
  assert (w * h * (total_text_area r texts / (w * h)) == total_text_area r texts)%Q
    as Hcov by (apply Qmult_div_r; nra).
  destruct (Qltb (7 # 10) _) eqn:Hratio; [done|]. intros _.
  apply Qltb_ge in Hratio.
  generalize dependent (w / h)%Q. intros ratio Hdiv Hwide Hhigh.
  generalize dependent (total_text_area r texts / (w * h))%Q.
  intros coverage Hcov Hratio. clearbody w h.
  do 4 (split; [done|]). split; [nra|]. split; [nra|]. split; [done|].
  assert (0 <= w * h)%Q as Hpos by nra.
  generalize dependent (w * h)%Q. intros area _ Hcov Hpos. nra.
Qed.



(** X14. The basic size filter of [extract_and_analyze_figures] is
    redundant: the regions rendered on a page are exactly the final regions
    that [is_likely_figure] accepts. *)
Theorem size_filter_is_redundant (image_bboxes drawing_bboxes text_bboxes : list bbox) :
  rendered_regions image_bboxes drawing_bboxes text_bboxes
  = filter (fun ib =>
              is_likely_figure ib.2 text_bboxes image_bboxes drawing_bboxes = true)
      (imap (fun i bbox => (i, bbox))
         (figure_regions (image_bboxes ++ drawing_bboxes) text_bboxes)).
Proof.
  unfold rendered_regions. apply list_filter_iff. intros [i b]. simpl.
  split; [by intros [? _]|]. intros Hlikely. split; [done|].
  by destruct (is_likely_figure_true _ _ _ _ Hlikely)
    as (Hw & Hh & Hw50 & Hh50 & _); unfold too_small; rewrite Hw, Hh;
    rewrite (proj2 (is_empty_false _)) by (unfold proper; split; lra);
    rewrite !(proj2 (Qltb_ge _ _)).
Qed.

End region_facts.

(** ** What a run does to the task table *)

Section task_run_facts.
Import Json Outline Tasks TaskRun.

Lemma update_task_status_frame (task_id : Z) (s : string)
    (message : option string) (db : DB) :
  dom (update_task_status task_id s message db) = dom db ∧
  ∀ id, id ≠ task_id → update_task_status task_id s message db !! id = db !! id.
Proof.
  unfold update_task_status. destruct (db !! task_id) as [t|] eqn:Ht; [|done].
  split.
  - apply dom_insert_lookup_L. by rewrite Ht.
  - intros id Hne. by apply lookup_insert_ne.
Qed.

Section frame_rules.
Context (task_id : Z).

Lemma touches_ret {A} (a : A) : touches_only task_id (mret a).
Proof. by intros db r db' [= <- <-]. Qed.

Lemma touches_lift {A} (x : result A) : touches_only task_id (lift x).
Proof. by intros db r db' [= <- <-]. Qed.

Lemma touches_bind {A B} (m : M A) (k : A → M B) :
  touches_only task_id m → (∀ a, touches_only task_id (k a)) →
  touches_only task_id (m ≫= k).
Proof.
  intros Hm Hk db r db' Hrun. unfold mbind, M_bind in Hrun.
  destruct (m db) as [[a|e] db1] eqn:Hmdb.
  - destruct (Hm _ _ _ Hmdb) as [Hd1 Ho1].
    destruct (Hk a _ _ _ Hrun) as [Hd2 Ho2].
    split; [congruence|]. intros id Hne. rewrite Ho2, Ho1; done.
  - injection Hrun as <- <-. by eapply Hm.
Qed.

Lemma touches_update_status (s : string) (message : option string) :
  touches_only task_id (commit (update_task_status task_id s message)).
Proof. intros db r db' [= <- <-]. apply update_task_status_frame. Qed.

Lemma touches_alter (g : Task → Task) :
  touches_only task_id (commit (alter g task_id)).
Proof.
  intros db r db' [= <- <-]. split; [apply dom_alter_L|].
  intros id Hne. by apply lookup_alter_ne.
Qed.

End frame_rules.

Ltac touches_step :=
  first
    [ apply touches_bind; [ | intros ?]
    | apply touches_update_status
    | apply touches_lift
    | apply touches_ret
    | apply touches_alter ].

Section ensures_rules.
Context (task_id : Z).

Lemma ensures_weaken {A} (P P' Q Q' : Task → Prop) (m : M A) :
  ensures task_id P m Q → (∀ t, P' t → P t) → (∀ t, Q t → Q' t) →
  ensures task_id P' m Q'.
Proof.
  intros Hm HP HQ db a db' t Ht HP' Hrun.
  destruct (Hm db a db' t Ht (HP _ HP') Hrun) as (t' & Ht' & HQt). eauto.
Qed.

Lemma ensures_ret {A} (P : Task → Prop) (a : A) : ensures task_id P (mret a) P.
Proof. intros db a' db' t Ht HP [= <- <-]. eauto. Qed.

Lemma ensures_lift {A} (P : Task → Prop) (x : result A) :
  ensures task_id P (lift x) P.
Proof. intros db a' db' t Ht HP [= _ <-]. eauto. Qed.

Lemma ensures_bind {A B} (P Q R : Task → Prop) (m : M A) (k : A → M B) :
  ensures task_id P m Q → (∀ a, ensures task_id Q (k a) R) →
  ensures task_id P (m ≫= k) R.
Proof.
  intros Hm Hk db b db' t Ht HP Hrun. unfold mbind, M_bind in Hrun.
  destruct (m db) as [[a|e] db1] eqn:Hmdb; [|done].
  destruct (Hm _ _ _ _ Ht HP Hmdb) as (t1 & Ht1 & HQ). by eapply Hk.
Qed.

Lemma ensures_update_status (P : Task → Prop) (s : string) :
  ensures task_id P (commit (update_task_status task_id s None))
    (fun t' => ∃ t, P t ∧ t' = set_status s t).
Proof.
  intros db a db' t Ht HP [= _ <-]. unfold update_task_status.
  rewrite Ht. simpl. rewrite lookup_insert_eq. eauto.
Qed.

Lemma ensures_alter (P : Task → Prop) (g : Task → Task) :
  ensures task_id P (commit (alter g task_id))
    (fun t' => ∃ t, P t ∧ t' = g t).
Proof.
  intros db a db' t Ht HP [= _ <-]. rewrite lookup_alter_eq, Ht. simpl. eauto.
Qed.

End ensures_rules.

Global Instance same_request_preorder : PreOrder same_request.
Proof.
  split; [done|]. intros a b c (? & ? & ?) (? & ? & ?).
  unfold same_request. repeat split; congruence.
Qed.

Section run_table_facts.
Variable json_loads : string → option json.
Variable gather_context : Z → string → result string.
Variable chat : nat → string → result string.
Variable outline_prompt : string → string → string.
Variable section_prompt : string → string → string → string → string → string.
Variable py_str : json → string.
Variable bibtex_entries : list (option string).
Variable write_file : string → result unit.
Variable pandoc : string → string → result string.

Let write_sections' := write_sections chat section_prompt py_str.
Let write_report' :=
  write_report chat section_prompt py_str bibtex_entries write_file pandoc.
Let run_body' :=
  run_body json_loads gather_context chat outline_prompt section_prompt py_str
    bibtex_entries write_file pandoc.
Let run' :=
  run_report_writing_task json_loads gather_context chat outline_prompt
    section_prompt py_str bibtex_entries write_file pandoc.

Lemma touches_write_sections task_id task context_str sections todo i
    generated parts :
  touches_only task_id
    (write_sections' task_id task context_str sections todo i generated parts).
Proof.
  revert i generated parts.
  induction todo as [|section rest IH]; intros i generated parts.
  - apply touches_ret.
  - simpl. repeat touches_step. apply IH.
Qed.

Lemma touches_run_body task_id task :
  touches_only task_id (run_body' task_id task).
Proof.
  unfold run_body', run_body.
  do 6 (apply touches_bind; [touches_step | intros ?]).
  unfold write_report.
  apply touches_bind; [touches_step | intros ?].
  apply touches_bind; [apply touches_write_sections | intros ?].
  repeat touches_step.
Qed.

(** X15. A run writes to the row of its own task only: whatever the
    collaborators return and however the run ends, the table has the same
    rows as before and the rows of all other tasks are unchanged; a run for
    a task that does not exist changes nothing. *)
Theorem run_touches_one_row (task_id : Z) (db : DB) :
  dom (run' task_id db) = dom db ∧
  (∀ id, id ≠ task_id → run' task_id db !! id = db !! id) ∧
  (db !! task_id = None → run' task_id db = db).
Proof.
  unfold run', run_report_writing_task.
  destruct (db !! task_id) as [task|] eqn:Htask; [|done].
  fold run_body'.
  destruct (run_body' task_id task db) as [[[]|e] db1] eqn:Hrun;
    destruct (touches_run_body task_id task _ _ _ Hrun) as [Hdom Hother].
  - done.
  - destruct (update_task_status_frame task_id "failed" (Some (str_exn e)) db1)
      as [Hdom' Hother'].
    split; [congruence|]. split; [|done].
    intros id Hne. rewrite Hother', Hother; done.
Qed.

Lemma ensures_status_stable task_id (P : Task → Prop) (s : string) :
  (∀ s t, P t → P (set_status s t)) →
  ensures task_id P (commit (update_task_status task_id s None)) P.
Proof.
  intros Hstable.
  eapply ensures_weaken; [apply (ensures_update_status _ P)|done|].
  intros t' (t & HP & ->). by apply Hstable.
Qed.

Lemma ensures_alter_to task_id (P Q : Task → Prop) (g : Task → Task) :
  (∀ t, P t → Q (g t)) →
  ensures task_id P (commit (alter g task_id)) Q.
Proof.
  intros Hg. eapply ensures_weaken; [apply (ensures_alter _ P)|done|].
  intros t' (t & HP & ->). by apply Hg.
Qed.

Lemma ensures_write_sections task_id (P : Task → Prop) task context_str
    sections todo i generated parts :
  (∀ s t, P t → P (set_status s t)) →
  ensures task_id P
    (write_sections' task_id task context_str sections todo i generated parts) P.
Proof.
  intros Hstable. revert i generated parts.
  induction todo as [|section rest IH]; intros i generated parts.
  - apply ensures_ret.
  - simpl.
    apply (ensures_bind _ _ P); [by apply ensures_status_stable|intros _].
    do 5 (apply (ensures_bind _ _ P); [apply ensures_lift|intros ?]).
    apply IH.
Qed.

Lemma ensures_run_body task_id task :
  ensures task_id (fun _ => True) (run_body' task_id task)
    (fun t => status t = "complete" ∧ is_Some (outline_json t) ∧
              is_Some (final_markdown_content t) ∧ is_Some (final_content t)).
Proof.
  set (P1 := fun t : Task => is_Some (outline_json t)).
  set (P2 := fun t : Task => P1 t ∧ is_Some (final_markdown_content t)).
  set (P3 := fun t : Task => P2 t ∧ is_Some (final_content t)).
  unfold run_body', run_body.
  apply (ensures_bind _ _ (fun _ => True)); [by apply ensures_status_stable|intros _].
  apply (ensures_bind _ _ (fun _ => True)); [apply ensures_lift|intros context_str].
  apply (ensures_bind _ _ (fun _ => True)); [by apply ensures_status_stable|intros _].
  apply (ensures_bind _ _ (fun _ => True)); [apply ensures_lift|intros raw].
  apply (ensures_bind _ _ (fun _ => True)); [apply ensures_lift|intros sections].
  apply (ensures_bind _ _ P1).
  { apply ensures_alter_to. intros t _. unfold P1. simpl. eauto. }
  intros _. unfold write_report.
  apply (ensures_bind _ _ P1); [apply ensures_lift|intros section_list].
  apply (ensures_bind _ _ P1); [by apply ensures_write_sections|intros parts].
  apply (ensures_bind _ _ P1); [by apply ensures_status_stable|intros _].
  apply (ensures_bind _ _ P2).
  { apply ensures_alter_to. intros t H1. unfold P2, P1 in *. simpl. eauto. }
  intros _.
  do 3 (apply (ensures_bind _ _ P2); [apply ensures_lift|intros ?]).
  apply (ensures_bind _ _ P3).
  { apply ensures_alter_to. intros t [H1 H2]. unfold P3, P2, P1 in *. simpl. eauto. }
  intros _.
  eapply ensures_weaken; [apply (ensures_update_status _ P3)|done|].
  intros t' (t & [[H1 H2] H3] & ->). unfold P1 in H1. by simpl.
Qed.

Lemma keeps_run_body_request task_id task :
  keeps same_request task_id (run_body' task_id task).
Proof.
  assert (∀ s t, same_request t (set_status s t)) as Hstatus by done.
  unfold run_body', run_body.
  apply keeps_bind; [apply _|by apply keeps_update_status|intros _].
  apply keeps_bind; [apply _|apply keeps_lift; apply _|intros ?].
  apply keeps_bind; [apply _|by apply keeps_update_status|intros _].
  apply keeps_bind; [apply _|apply keeps_lift; apply _|intros ?].
  apply keeps_bind; [apply _|apply keeps_lift; apply _|intros ?].
  apply keeps_bind; [apply _|by apply keeps_alter|intros _].
  by apply keeps_write_report; [apply _|..].
Qed.

(** X16. A run of an existing task that comes to its end leaves the task
    in one of the two final statuses, never in an intermediate one. In
    status [complete] the outline, the markdown body and the final report
    are all stored and the status message is what it was before the run;
    otherwise the status is [failed]. The project, the task type and the
    user's prompt are never written. *)
Theorem run_ends_complete_or_failed (task_id : Z) (db : DB) (task : Task) :
  db !! task_id = Some task →
  ∃ t', run' task_id db !! task_id = Some t' ∧
    same_request task t' ∧
    ((status t' = "complete" ∧ is_Some (outline_json t') ∧
      is_Some (final_markdown_content t') ∧ is_Some (final_content t') ∧
      status_message t' = status_message task)
     ∨ status t' = "failed").
Proof.
  intros Htask. unfold run', run_report_writing_task. rewrite Htask.
  fold run_body'.
  destruct (run_body' task_id task db) as [[[]|e] db1] eqn:Hrun.
  - destruct (ensures_run_body task_id task _ _ _ _ Htask I Hrun)
      as (t' & Ht' & Hstatus & Ho & Hm & Hf).
    destruct (keeps_run_body_request task_id task _ _ _ _ Hrun Htask)
      as (t1 & Ht1 & Hreq).
    destruct (keeps_run_body_message json_loads gather_context chat
                outline_prompt section_prompt py_str bibtex_entries write_file
                pandoc task_id task _ _ _ _ Hrun Htask) as (t2 & Ht2 & Hmsg).
    exists t'. split; [done|]. split; [congruence|]. left.
    repeat split; try done. congruence.
  - destruct (keeps_run_body_request task_id task _ _ _ _ Hrun Htask)
      as (t1 & Ht1 & Hreq).
    destruct (failed_update task_id (str_exn e) db1 t1 Ht1)
      as (t' & Ht' & Hstatus & _).
    exists t'. split; [done|]. split; [|by right].
    revert Ht'. unfold update_task_status. rewrite Ht1, lookup_insert_eq.
    intros [= <-]. by destruct (str_exn e).
Qed.

End run_table_facts.

(** The theorem on a run whose first section call raises. *)
Lemma run_ends_complete_or_failed_witness :
  let task := mkTask 1 "report_writing" "Write a survey" "queued"
                None None None None in
  ∃ t', run_failing_section 7 {[ 7 := task ]} !! 7 = Some t' ∧
    same_request task t' ∧
    ((status t' = "complete" ∧ is_Some (outline_json t') ∧
      is_Some (final_markdown_content t') ∧ is_Some (final_content t') ∧
      status_message t' = status_message task)
     ∨ status t' = "failed").
Proof.
  intros task.
  apply (run_ends_complete_or_failed Json.json_loads (fun _ _ => Ok "context")
           (fun n _ => match n with
                       | O => Ok sample_reply
                       | S _ => Raise (RuntimeError "model unavailable")
                       end)
           (fun prompt context => prompt +:+ context)
           (fun prompt report title description context => report)
           (fun v => match v with JStr s => s | _ => "" end)
           [Some "@misc{Smith2024_Article}"] (fun _ => Ok tt)
           (fun markdown _ => Ok markdown) 7 {[ 7 := task ]} task).
  reflexivity.
Defined.

(** X17. The two statuses that the guard of [run_task] looks for are the
    ones a run sets while it generates the outline and while it writes any
    section: in these phases a second start request is refused with 409 and
    no thread is started. *)
Theorem run_refused_while_writing (db : DB) (task_id : Z) (task : Task)
    (i total : nat) :
  db !! task_id = Some task →
  run_task (update_task_status task_id "generating_outline" None db) task_id
  = ((409, "Task is already running"), None) ∧
  run_task (update_task_status task_id
              ("writing_section_" +:+ pretty (S i) +:+ "_of_" +:+ pretty total)
              None db) task_id
  = ((409, "Task is already running"), None).
Proof.
  intros Htask. unfold run_task, update_task_status. rewrite Htask.
  cbn [truthy_message]. rewrite !lookup_insert_eq. split; reflexivity.
Qed.

Lemma run_refused_while_writing_witness :
  let task := mkTask 1 "report_writing" "Write a survey" "queued"
                None None None None in
  run_task (update_task_status 7 "generating_outline" None {[ 7 := task ]}) 7
  = ((409, "Task is already running"), None) ∧
  run_task (update_task_status 7
              ("writing_section_" +:+ pretty 2%nat +:+ "_of_" +:+ pretty 3%nat)
              None {[ 7 := task ]}) 7
  = ((409, "Task is already running"), None).
Proof.
  intros task.
  apply (run_refused_while_writing {[ 7 := task ]} 7 task 1 3).
  reflexivity.
Defined.

Section run_outline_facts.
Variable json_loads : string → option json.
Variable gather_context : Z → string → result string.
Variable chat : nat → string → result string.
Variable outline_prompt : string → string → string.
Variable section_prompt : string → string → string → string → string → string.
Variable py_str : json → string.
Variable bibtex_entries : list (option string).
Variable write_file : string → result unit.
Variable pandoc : string → string → result string.

Let run' :=
  run_report_writing_task json_loads gather_context chat outline_prompt
    section_prompt py_str bibtex_entries write_file pandoc.

(** The three ways in which the extracted text fails to give sections. *)
Lemma parse_outline_raise (cleaned : string) (e : exn) :
  parse_outline json_loads cleaned = Raise e →
  str_exn e ≠ "" ∧
  match json_loads cleaned with
  | None =>
      e = ValueError
        "The language model failed to return a valid JSON object for the report outline."
  | Some (JObj members) =>
      truthy (default (JArr []) (dict_get members "sections")) = false ∧
      e = ValueError
        "LLM returned valid JSON, but the 'sections' array is missing or empty."
  | Some v =>
      e = AttributeError ("'" +:+ type_name v +:+ "' object has no attribute 'get'")
  end.
Proof.
  unfold parse_outline. destruct (json_loads cleaned) as [v|]; [|by intros [= <-]].
  destruct v; simpl; try (by intros [= <-]).
  destruct (truthy _); [done|]. by intros [= <-].
Qed.

(** X18. When the context was gathered and the model replied, but the
    extracted text gives no sections, the run ends in status [failed] with
    the message of the cause: the text is not valid JSON; or it is an object
    whose [sections] member is missing or empty (or otherwise false); or it
    is valid JSON that is not an object, which has no [get]. Nothing else is
    written: the outline, the markdown body and the final report of an
    earlier run stay as they were. *)
Theorem outline_failure_recorded (task_id : Z) (db : DB) (task : Task)
    (context_str raw : string) (e : exn) :
  db !! task_id = Some task →
  gather_context (project_id task) (user_prompt task) = Ok context_str →
  chat 0 (outline_prompt (user_prompt task) context_str) = Ok raw →
  parse_outline json_loads (extract_json_from_llm_response raw) = Raise e →
  ∃ t', run' task_id db !! task_id = Some t' ∧
    status t' = "failed" ∧
    status_message t' = Some (str_exn e) ∧
    same_artifacts task t' ∧
    match json_loads (extract_json_from_llm_response raw) with
    | None =>
        e = ValueError
          "The language model failed to return a valid JSON object for the report outline."
    | Some (JObj members) =>
        truthy (default (JArr []) (dict_get members "sections")) = false ∧
        e = ValueError
          "LLM returned valid JSON, but the 'sections' array is missing or empty."
    | Some v =>
        e = AttributeError ("'" +:+ type_name v +:+ "' object has no attribute 'get'")
    end.
Proof.
  intros Htask Hgather Hchat Hparse.
  destruct (parse_outline_raise _ _ Hparse) as [Hmsg Hcause].
  assert (∀ s t, same_artifacts t (set_status s t)) as Hstatus by done.
  destruct (keeps_update_status same_artifacts task_id Hstatus "gathering_context"
              db (Ok tt) _ task eq_refl Htask) as (t1 & Ht1 & Ha1).
  destruct (keeps_update_status same_artifacts task_id Hstatus "generating_outline"
              _ (Ok tt) _ t1 eq_refl Ht1) as (t2 & Ht2 & Ha2).
  destruct (failed_update task_id (str_exn e) _ t2 Ht2)
    as (t' & Ht' & Hfailed & Hrec & _ & Ha3).
  exists t'. split.
  { unfold run', run_report_writing_task, run_body. rewrite Htask.
    unfold mbind, M_bind, commit, lift. rewrite Hgather, Hchat, Hparse.
    exact Ht'. }
  split; [done|]. split; [by apply Hrec|]. split; [|done].
  destruct Ha1 as (? & ? & ?), Ha2 as (? & ? & ?), Ha3 as (? & ? & ?).
  unfold same_artifacts. repeat split; congruence.
Qed.

End run_outline_facts.

(** The theorem on a reply that holds an object without sections, for a
    task whose earlier run had stored an outline. *)
Lemma outline_failure_recorded_witness :
  let task := mkTask 1 "report_writing" "Write a survey" "failed"
                (Some "model unavailable") (Some "{}") None None in
  let raw := "I cannot do that: {}" in
  let e := ValueError
    "LLM returned valid JSON, but the 'sections' array is missing or empty." in
  ∃ t', run_report_writing_task Json.json_loads (fun _ _ => Ok "context")
          (fun _ _ => Ok raw) (fun prompt context => prompt +:+ context)
          (fun prompt report title description context => report)
          (fun v => match v with JStr s => s | _ => "" end) []
          (fun _ => Ok tt) (fun markdown _ => Ok markdown) 7 {[ 7 := task ]} !! 7
        = Some t' ∧
    status t' = "failed" ∧
    status_message t' = Some (str_exn e) ∧
    same_artifacts task t' ∧
    match Json.json_loads (extract_json_from_llm_response raw) with
    | None =>
        e = ValueError
          "The language model failed to return a valid JSON object for the report outline."
    | Some (JObj members) =>
        truthy (default (JArr []) (dict_get members "sections")) = false ∧
        e = ValueError
          "LLM returned valid JSON, but the 'sections' array is missing or empty."
    | Some v =>
        e = AttributeError ("'" +:+ type_name v +:+ "' object has no attribute 'get'")
    end.
Proof.
  intros task raw e.
  apply (outline_failure_recorded Json.json_loads (fun _ _ => Ok "context")
           (fun _ _ => Ok raw) (fun prompt context => prompt +:+ context)
           (fun prompt report title description context => report)
           (fun v => match v with JStr s => s | _ => "" end) []
           (fun _ => Ok tt) (fun markdown _ => Ok markdown)
           7 {[ 7 := task ]} task "context" raw e).
  - reflexivity.
  - reflexivity.
  - reflexivity.
  - vm_compute. reflexivity.
Defined.

Section run_success_facts.
Variable json_loads : string → option json.
Variable gather_context : Z → string → result string.
Variable chat : nat → string → result string.
Variable outline_prompt : string → string → string.
Variable section_prompt : string → string → string → string → string → string.
Variable py_str : json → string.
Variable bibtex_entries : list (option string).
Variable write_file : string → result unit.
Variable pandoc : string → string → result string.

Let report_context' := report_context py_str.
Let write_sections' := write_sections chat section_prompt py_str.
Let run' :=
  run_report_writing_task json_loads gather_context chat outline_prompt
    section_prompt py_str bibtex_entries write_file pandoc.

(** A well-formed section: an object with a string under [title] and some
    value under [description]. *)
Let well_formed (section : json) (td : string * json) : Prop :=
  subscript section "title" = Ok (JStr td.1) ∧
  subscript section "description" = Ok td.2.

(** The block of a section in the markdown body. *)
Let block (td : string * json) (content : string) : string :=
  "## " +:+ py_str (JStr td.1) +:+ nl +:+ content +:+ nl.

Lemma generated_get_cons (generated : list (json * string)) (key t c : string) :
  key = t ∨ (∃ c', generated_get generated (JStr t) = Ok c') →
  ∃ c', generated_get ((JStr key, c) :: generated) (JStr t) = Ok c'.
Proof.
  unfold generated_get. cbn [unhashable list_find].
  intros Hcases. case_decide as Hkey; [by eexists|].
  destruct Hcases as [->|(c' & Hc')].
  - simpl in Hkey. by rewrite String.eqb_refl in Hkey.
  - destruct (list_find _ generated) as [[n [k v]]|]; [|done]. simpl. eauto.
Qed.

Lemma report_context_ok (sections : list json) (tds : list (string * json))
    (i j : nat) (generated : list (json * string)) :
  Forall2 well_formed sections tds →
  (∀ k td, tds !! k = Some td → (j + k < i)%nat →
     ∃ c, generated_get generated (JStr td.1) = Ok c) →
  ∃ ctx, report_context' sections i j generated = Ok ctx.
Proof.
  intros Hwf. revert j. induction Hwf as [|s td ss tds' [Ht Hd] _ IH]; intros j Hgen.
  - by eexists.
  - destruct (IH (S j)) as (others & Hothers).
    { intros k td' Hk Hlt. apply (Hgen (S k)); [done|lia]. }
    unfold report_context'. cbn [report_context]. rewrite Ht.
    unfold report_context' in Hothers.
    destruct (Nat.eqb i j) eqn:Hij; [|destruct (Nat.ltb j i) eqn:Hlt].
    + rewrite Hd. cbn [mbind result_bind]. rewrite Hothers. by eexists.
    + destruct (Hgen 0%nat td) as (c & Hc);
        [done|apply Nat.ltb_lt in Hlt; lia|].
      cbn [mbind result_bind]. rewrite Hc. cbn [mbind result_bind].
      rewrite Hothers. by eexists.
    + rewrite Hd. cbn [mbind result_bind]. rewrite Hothers. by eexists.
Qed.

Lemma write_sections_ok (task_id : Z) (task : Task) (context_str : string)
    (written todo : list json) (tds_written tds_todo : list (string * json))
    (generated : list (json * string)) (parts : list string) (db : DB) :
  (∀ n p, is_ok (chat (S n) p) = true) →
  Forall2 well_formed written tds_written →
  Forall2 well_formed todo tds_todo →
  (∀ td, td ∈ tds_written → ∃ c, generated_get generated (JStr td.1) = Ok c) →
  ∃ contents db',
    write_sections' task_id task context_str (written ++ todo) todo
      (length written) generated parts db
    = (Ok (parts ++ zip_with block tds_todo contents), db') ∧
    length contents = length todo ∧
    (∀ k c, contents !! k = Some c → ∃ p, chat (S (length written + k)) p = Ok c) ∧
    (∀ t, db !! task_id = Some t →
       ∃ s, db' !! task_id = Some (set_status s t)).
Proof.
  intros Hchat Hwritten Htodo. revert written tds_written generated parts db Hwritten.
  induction Htodo as [|sec td rest tds_rest [Ht Hd] Hrest IH];
    intros written tds_written generated parts db Hwritten Hgen.
  - exists [], db. split; [cbn; by rewrite app_nil_r|]. split; [done|].
    split; [by intros k c Hk|].
    intros t Hdb. exists (status t). rewrite Hdb. by destruct t.
  - destruct (report_context_ok (written ++ sec :: rest) (tds_written ++ td :: tds_rest)
                (length written) 0 generated) as (ctx & Hctx).
    { apply Forall2_app; [done|]. by constructor. }
    { intros k td' Hk Hlt. apply Hgen. rewrite lookup_app_l in Hk.
      - by eapply list_elem_of_lookup_2.
      - rewrite <- (Forall2_length _ _ _ Hwritten). lia. }
    destruct (chat (S (length written))
                (section_prompt (user_prompt task) ctx (py_str (JStr td.1))
                   (py_str td.2) context_str)) as [content|] eqn:Hcontent.
    2: { specialize (Hchat (length written)
           (section_prompt (user_prompt task) ctx (py_str (JStr td.1))
              (py_str td.2) context_str)). by rewrite Hcontent in Hchat. }
    destruct (IH (written ++ [sec]) (tds_written ++ [td])
                ((JStr td.1, content) :: generated) (parts ++ [block td content])
                (update_task_status task_id
                   ("writing_section_" +:+ pretty (S (length written)) +:+ "_of_"
                    +:+ pretty (length (written ++ sec :: rest))) None db))
      as (contents & db' & Hrun & Hlen & Hcalls & Hrow).
    { apply Forall2_app; [done|]. constructor; [done|constructor]. }
    { intros td' Htd'. apply generated_get_cons.
      apply elem_of_app in Htd' as [Htd'|Htd'].
      - right. by apply Hgen.
      - left. apply list_elem_of_singleton in Htd'. by subst. }
    exists (content :: contents), db'. split; [|split; [|split]].
    + unfold write_sections'. cbn [write_sections].
      unfold mbind at 1. unfold M_bind at 1. unfold commit at 1.
      unfold mbind at 1. unfold M_bind at 1. unfold lift at 1.
      fold report_context'. rewrite Hctx.
      unfold mbind at 1. unfold M_bind at 1. unfold lift at 1. rewrite Ht.
      unfold mbind at 1. unfold M_bind at 1. unfold lift at 1. rewrite Hd.
      unfold mbind at 1. unfold M_bind at 1. unfold lift at 1. rewrite Hcontent.
      unfold mbind at 1. unfold M_bind at 1. unfold lift at 1.
      cbn [unhashable].
      unfold write_sections' in Hrun.
      rewrite <- (assoc_L (++)) in Hrun. simpl app in Hrun at 1.
      rewrite length_app in Hrun. simpl length in Hrun at 2.
      rewrite Nat.add_1_r in Hrun. etrans; [exact Hrun|].
      by rewrite <- (assoc_L (++)).
    + simpl. by rewrite Hlen.
    + intros [|k] c Hk.
      * injection Hk as <-. rewrite Nat.add_0_r. eauto.
      * destruct (Hcalls k c Hk) as (p' & Hp'). exists p'.
        rewrite length_app in Hp'. simpl in Hp'.
        by replace (length written + S k)%nat with (length written + 1 + k)%nat by lia.
    + intros t Hdb.
      destruct (Hrow (set_status
                  ("writing_section_" +:+ pretty (S (length written)) +:+ "_of_"
                   +:+ pretty (length (written ++ sec :: rest))) t)) as (s' & Hs').
      { unfold update_task_status. rewrite Hdb. cbn. by rewrite lookup_insert_eq. }
      exists s'. by rewrite Hs'.
Qed.

(** X19. A run in which everything succeeds: the context is gathered, the
    reply of the model decodes to an object whose [sections] member is a
    non-empty list of well-formed sections, every section call of the chat
    capability succeeds, and so do the bibliography, its file and the
    citation formatter. Then the chat capability is called once per section,
    in order; the task ends in status [complete] with the extracted text as
    its outline, the blocks of title and content joined by newlines as its
    markdown body and the formatter's output as its final report; its
    status message is what it was. *)
Theorem run_writes_report (task_id : Z) (db : DB) (task : Task)
    (context_str raw : string) (members : list (string * json))
    (secs : list json) (tds : list (string * json)) (bib : string) :
  db !! task_id = Some task →
  gather_context (project_id task) (user_prompt task) = Ok context_str →
  chat 0 (outline_prompt (user_prompt task) context_str) = Ok raw →
  json_loads (extract_json_from_llm_response raw) = Some (JObj members) →
  dict_get members "sections" = Some (JArr secs) →
  secs ≠ [] →
  Forall2 (fun section td =>
             subscript section "title" = Ok (JStr td.1) ∧
             subscript section "description" = Ok td.2) secs tds →
  (∀ n p, is_ok (chat (S n) p) = true) →
  bibliography bibtex_entries = Ok bib →
  is_ok (write_file bib) = true →
  (∀ markdown, is_ok (pandoc markdown bib) = true) →
  ∃ contents latex,
    length contents = length secs ∧
    (∀ k c, contents !! k = Some c → ∃ p, chat (S k) p = Ok c) ∧
    let markdown :=
      join nl (zip_with (fun td c => "## " +:+ py_str (JStr td.1) +:+ nl +:+ c +:+ nl)
                 tds contents) in
    pandoc markdown bib = Ok latex ∧
    run' task_id db !! task_id
    = Some (mkTask (project_id task) (task_type task) (user_prompt task)
              "complete" (status_message task)
              (Some (extract_json_from_llm_response raw))
              (Some markdown) (Some latex)).
Proof.
  intros Htask Hgather Hchat0 Hloads Hsections Hne Hwf Hchat Hbib Hwrite Hpandoc.
  set (cleaned := extract_json_from_llm_response raw) in *.
  assert (parse_outline json_loads cleaned = Ok (JArr secs)) as Hparse.
  { unfold parse_outline, outline_sections. rewrite Hloads, Hsections.
    by destruct secs. }
  set (db3 := alter (set_outline_json cleaned) task_id
                (update_task_status task_id "generating_outline" None
                   (update_task_status task_id "gathering_context" None db))).
  assert (db3 !! task_id
          = Some (set_outline_json cleaned (set_status "generating_outline" task)))
    as Hdb3.
  { unfold db3, update_task_status. rewrite lookup_alter_eq, Htask. cbn.
    rewrite lookup_insert_eq. cbn. by rewrite lookup_insert_eq. }
  destruct (write_sections_ok task_id task context_str [] secs [] tds [] [] db3
              Hchat ltac:(constructor) Hwf)
    as (contents & db4 & Hrun & Hlen & Hcalls & Hrow).
  { intros td Htd. by apply elem_of_nil in Htd. }
  destruct (Hrow _ Hdb3) as (s4 & Hdb4). clear Hrow.
  cbn [app length] in Hrun.
  set (markdown := join nl (zip_with block tds contents)) in *.
  destruct (write_file bib) as [[]|] eqn:Hfile; [|done].
  destruct (pandoc markdown bib) as [latex|] eqn:Hlatex;
    [|specialize (Hpandoc markdown); by rewrite Hlatex in Hpandoc].
  exists contents, latex. split; [done|]. split; [exact Hcalls|].
  split; [exact Hlatex|].
  unfold run', run_report_writing_task, run_body, write_report.
  rewrite Htask. unfold mbind, M_bind, commit, lift.
  rewrite Hgather, Hchat0. fold cleaned. rewrite Hparse. fold db3.
  cbn [py_iter]. unfold write_sections' in Hrun. rewrite Hrun.
  cbn [app]. fold markdown. rewrite Hbib, Hfile, Hlatex.
  unfold update_task_status. rewrite Hdb4. cbn [truthy_message].
  rewrite lookup_alter_eq, lookup_alter_eq, lookup_insert_eq. cbn.
  rewrite lookup_insert_eq. done.
Qed.

End run_success_facts.

(** The theorem on a run with a one-section outline. *)
Lemma run_writes_report_witness :
  let task := mkTask 1 "report_writing" "Write a survey" "queued"
                None None None None in
  let secs := [JObj [("title", JStr "Intro"); ("description", JStr "Overview")]] in
  let tds := [("Intro", JStr "Overview")] in
  let chat : nat → string → result string :=
    fun n _ => match n with O => Ok sample_reply | S _ => Ok "It begins." end in
  ∃ contents latex,
    length contents = length secs ∧
    (∀ k c, contents !! k = Some c → ∃ p, chat (S k) p = Ok c) ∧
    let markdown :=
      join nl (zip_with (fun td c => "## " +:+ td.1 +:+ nl +:+ c +:+ nl)
                 tds contents) in
    Ok markdown = Ok latex ∧
    run_succeeding 7 {[ 7 := task ]} !! 7
    = Some (mkTask 1 "report_writing" "Write a survey" "complete" None
              (Some (extract_json_from_llm_response sample_reply))
              (Some markdown) (Some latex)).
Proof.
  intros task secs tds chat.
  apply (run_writes_report Json.json_loads (fun _ _ => Ok "context") chat
           (fun prompt context => prompt +:+ context)
           (fun prompt report title description context => report)
           (fun v => match v with JStr s => s | _ => "" end)
           [Some "@misc{Smith2024_Article}"] (fun _ => Ok tt)
           (fun markdown _ => Ok markdown)
           7 {[ 7 := task ]} task "context" sample_reply
           [("sections", JArr secs)] secs tds "@misc{Smith2024_Article}").
  - reflexivity.
  - reflexivity.
  - reflexivity.
  - vm_compute. reflexivity.
  - reflexivity.
  - discriminate.
  - repeat constructor.
  - intros n p. reflexivity.
  - reflexivity.
  - reflexivity.
  - intros markdown. reflexivity.
Defined.

End task_run_facts.

(** ** Extraction of the outline text, in general *)

Section extraction_facts.
Import Json Outline Braces.

Lemma find_split (c : ascii) (s : string) (a : nat) :
  find c s = Some a →
  ∃ p r, s = p +:+ String c r ∧ find c p = None ∧ String.length p = a.
Proof.
  revert a. induction s as [|x s IH]; intros a; simpl; [done|].
  destruct (Ascii.eqb_spec x c) as [->|Hne].
  - intros [= <-]. by exists "", s.
  - destruct (find c s) as [a'|]; [|done]. intros [= <-].
    destruct (IH a' eq_refl) as (p & r & -> & Hp & Hlen).
    exists (String x p), r. rewrite append_cons. split; [done|]. simpl.
    destruct (Ascii.eqb_spec x c); [done|]. rewrite Hp, Hlen. done.
Qed.

Lemma rfind_none_find (c : ascii) (s : string) :
  rfind c s = None → find c s = None.
Proof.
  induction s as [|x s IH]; simpl; [done|].
  destruct (rfind c s); [done|]. destruct (Ascii.eqb x c); [done|].
  intros _. by rewrite IH.
Qed.

Lemma rfind_split (c : ascii) (s : string) (b : nat) :
  rfind c s = Some b →
  ∃ p r, s = p +:+ String c r ∧ find c r = None ∧ String.length p = b.
Proof.
  revert b. induction s as [|x s IH]; intros b; simpl; [done|].
  destruct (rfind c s) as [i|] eqn:Hr.
  - intros [= <-]. destruct (IH i eq_refl) as (p & r & -> & Hfind & Hlen).
    exists (String x p), r. rewrite append_cons. simpl. by rewrite Hlen.
  - destruct (Ascii.eqb_spec x c) as [->|]; [|done]. intros [= <-].
    exists "", s. split; [done|]. split; [by apply rfind_none_find|done].
Qed.

Lemma append_split (a b x y : string) :
  a +:+ x = b +:+ y → (String.length a < String.length b)%nat →
  ∃ c m, b = a +:+ String c m ∧ x = String c m +:+ y.
Proof.
  revert b. induction a as [|c a IH]; intros b Heq Hlen.
  - destruct b as [|c' b]; [simpl in Hlen; lia|]. exists c', b.
    by rewrite append_nil_l in *.
  - destruct b as [|c' b]; [simpl in Hlen; lia|].
    rewrite !append_cons in Heq. injection Heq as <- Heq.
    destruct (IH b Heq) as (c2 & m & -> & ->); [simpl in Hlen; lia|].
    exists c2, m. by rewrite append_cons.
Qed.

Lemma find_in_append (c : ascii) (p x : string) :
  ∃ a, find c (p +:+ String c x) = Some a ∧ (a ≤ String.length p)%nat.
Proof.
  induction p as [|y p (a & Ha & Hle)].
  - exists 0%nat. rewrite append_nil_l. simpl. by rewrite Ascii.eqb_refl.
  - rewrite append_cons. simpl. destruct (Ascii.eqb y c).
    + exists 0%nat. split; [done|lia].
    + rewrite Ha. exists (S a). split; [done|lia].
Qed.

Lemma rfind_in_append (c : ascii) (y x : string) :
  ∃ b, rfind c (y +:+ String c x) = Some b ∧ (String.length y ≤ b)%nat.
Proof.
  induction y as [|z y (b & Hb & Hle)].
  - rewrite append_nil_l. simpl. destruct (rfind c x) as [i|].
    + exists (S i). split; [done|lia].
    + rewrite Ascii.eqb_refl. by exists 0%nat.
  - rewrite append_cons. simpl. rewrite Hb. exists (S b). split; [done|lia].
Qed.

(** The first opening brace and the last closing brace, when they come in
    this order, cut the text in three. *)
Lemma braces_split (raw : string) (a b : nat) :
  find "{" raw = Some a → rfind "}" raw = Some b → (a < b)%nat →
  ∃ before middle after,
    raw = before +:+ String "{" (middle +:+ String "}" after) ∧
    find "{" before = None ∧ find "}" after = None.
Proof.
  intros Ha Hb Hlt.
  destruct (find_split _ _ _ Ha) as (p & r & Hraw & Hp & Hlen).
  destruct (rfind_split _ _ _ Hb) as (p' & r' & Hraw' & Hr' & Hlen').
  rewrite Hraw in Hraw'.
  destruct (append_split p p' _ _ Hraw') as (c & m & -> & Hm); [lia|].
  rewrite append_cons in Hm. injection Hm as <- ->.
  exists p, m, r'. by rewrite Hraw.
Qed.

Lemma has_braces_positions (raw : string) :
  has_braces raw →
  ∃ a b, find "{" raw = Some a ∧ rfind "}" raw = Some b ∧ (a < b)%nat.
Proof.
  intros (before & middle & after & ->).
  destruct (find_in_append "{" before (middle +:+ String "}" after))
    as (a & Ha & Hle).
  replace (before +:+ String "{" (middle +:+ String "}" after))
    with ((before +:+ String "{" middle) +:+ String "}" after)
    by (by rewrite append_assoc, append_cons).
  destruct (rfind_in_append "}" (before +:+ String "{" middle) after)
    as (b & Hb & Hge).
  exists a, b. split.
  - by rewrite append_assoc, append_cons.
  - split; [done|]. rewrite length_append in Hge. simpl in Hge. lia.
Qed.

(** X20. What the outline extraction returns, for every reply: when the
    reply has an opening brace and a closing brace somewhere after it, the
    result is the text from the first opening brace to the last closing
    brace, with every backslash in between doubled, so it starts and ends
    with a brace; in every other case the reply is returned as it is. *)
Theorem extraction_characterised (raw : string) :
  (has_braces raw →
   ∃ before middle after,
     raw = before +:+ String "{" (middle +:+ String "}" after) ∧
     find "{" before = None ∧ find "}" after = None ∧
     extract_json_from_llm_response raw
     = String "{" (double_backslashes middle +:+ "}")) ∧
  (¬ has_braces raw → extract_json_from_llm_response raw = raw).
Proof.
  split.
  - intros Hbraces.
    destruct (has_braces_positions raw Hbraces) as (a & b & Ha & Hb & Hlt).
    destruct (braces_split raw a b Ha Hb Hlt)
      as (before & middle & after & -> & Hbefore & Hafter).
    exists before, middle, after. split; [done|]. split; [done|]. split; [done|].
    rewrite extract_wrapped by done.
    change (String "{" (middle +:+ "}")) with ("{" +:+ (middle +:+ "}")).
    by rewrite !double_backslashes_append.
  - intros Hnone. unfold extract_json_from_llm_response.
    destruct (find "{" raw) as [a|] eqn:Ha; [|done].
    destruct (rfind "}" raw) as [b|] eqn:Hb; [|done].
    destruct (Nat.ltb_spec a b) as [Hlt|]; [|done].
    destruct Hnone.
    destruct (braces_split raw a b Ha Hb Hlt) as (before & middle & after & -> & _).
    by exists before, middle, after.
Qed.

End extraction_facts.

(** ** Keys of documents, in general *)

Section key_facts.
Import Outline Bibliography.

Lemma upper_lower (c : ascii) : upper (lower c) = upper c.
Proof. by destruct c as [[] [] [] [] [] [] [] []]. Qed.

Lemma upper_space (c : ascii) : upper c = " "%char → c = " "%char.
Proof. by destruct c as [[] [] [] [] [] [] [] []]. Qed.

Lemma lower_space (c : ascii) : lower c = " "%char → c = " "%char.
Proof. by destruct c as [[] [] [] [] [] [] [] []]. Qed.

Lemma capitalize_same (s s' : string) :
  lower_all s = lower_all s' → capitalize s = capitalize s'.
Proof.
  destruct s as [|c r], s' as [|c' r']; simpl; try done.
  intros [= Hc Hr]. by rewrite <- (upper_lower c), Hc, upper_lower, Hr.
Qed.



Lemma find_append_none (c : ascii) (a b : string) :
  find c a = None → find c b = None → find c (a +:+ b) = None.
Proof.
  intros Ha Hb. induction a as [|x a IH]; [by rewrite append_nil_l|].
  rewrite append_cons. simpl in *. destruct (Ascii.eqb x c); [done|].
  destruct (find c a); [done|]. by rewrite IH.
Qed.

Lemma find_space_lower_all (s : string) :
  find " " s = None → find " " (lower_all s) = None.
Proof.
  induction s as [|c r IH]; simpl; [done|].
  destruct (Ascii.eqb_spec c " ") as [|Hc]; [done|].
  destruct (find " " r); [done|]. intros _.
  destruct (Ascii.eqb_spec (lower c) " ") as [Hl|_].
  - by apply lower_space in Hl.
  - by rewrite IH.
Qed.

Lemma find_space_capitalize (s : string) :
  find " " s = None → find " " (capitalize s) = None.
Proof.
  destruct s as [|c r]; simpl; [done|].
  destruct (Ascii.eqb_spec c " ") as [|Hc]; [done|].
  destruct (find " " r) eqn:Hr; [done|]. intros _.
  destruct (Ascii.eqb_spec (upper c) " ") as [Hu|_].
  - by apply upper_space in Hu.
  - by rewrite find_space_lower_all.
Qed.

Lemma find_space_first_word (s : string) : find " " (first_word s) = None.
Proof.
  induction s as [|c r IH]; simpl; [done|].
  destruct (Ascii.eqb_spec c " ") as [|Hc]; [done|]. simpl.
  destruct (Ascii.eqb_spec c " "); [done|]. by rewrite IH.
Qed.

(** X22. The key of a document holds no space when the year field holds
    none, whatever the author and title fields are: only the first words of
    author and title go into it. *)
Theorem bib_key_has_no_space (author year title : string) :
  find " " year = None → find " " (bib_key author year title) = None.
Proof.
  intros Hyear. unfold bib_key.
  apply find_append_none; [|apply find_append_none; [done|apply find_append_none]].
  - destruct (nonempty author); [|done].
    apply find_space_capitalize, find_space_first_word.
  - done.
  - destruct (nonempty title); [|done].
    apply find_space_capitalize, find_space_first_word.
Qed.

Lemma bib_key_has_no_space_witness :
  find " " (bib_key "First Author and Second Author" "2023" "Example Paper Title")
  = None.
Proof.
  apply (bib_key_has_no_space "First Author and Second Author" "2023"
           "Example Paper Title").
  reflexivity.
Defined.

End key_facts.

(** ** Uploading a document *)

Section upload_facts.
Import VectorIndex Bibliography Rebuild Ingestion.

Lemma store_document_ok (table table' : list Document) (project : Z)
    (filename author year title : string) :
  store_document table project filename author year title = Ok table' →
  table' = table ++ [mkDocument project filename (bib_key author year title)] ∧
  bib_key author year title ∉ bibtex_key <$> table.
Proof.
  unfold store_document, add_document. case_bool_decide; [done|].
  by intros [= <-].
Qed.

Lemma update_faiss_index_raise (st st' : Store) (doc : Z) (chunks : list string)
    (embeddings : list vector) (e : exn) :
  update_faiss_index st doc chunks embeddings = (Raise e, st') → st' = st.
Proof.
  unfold update_faiss_index.
  destruct (load_or_create st embeddings) as [[ix m]|]; [|by intros [= _ <-]].
  destruct (index_add ix embeddings); [done|]. by intros [= _ <-].
Qed.

Section with_collaborators.
Variable load_and_split_document : string → list string.
Variable read_metadata : list string → string → result (string * string * string).
Variable new_doc_id : list Document → Z.
Variable embed : string → result vector.

Let process :=
  process_and_embed_document load_and_split_document read_metadata new_doc_id embed.
Let upload :=
  upload_document load_and_split_document read_metadata new_doc_id embed.

(** What [process_and_embed_document] leaves behind, by outcome. *)
Lemma process_outcomes (s : State) (project : Z) (filename doc_type : string) :
  let out := process s project filename doc_type in
  files out.2 = files s ∧
  (table out.2 = table s ∨
   ∃ key, table out.2 = table s ++ [mkDocument project filename key]) ∧
  (∀ e, out.1 = Raise e → store out.2 = store s) ∧
  (∀ id key, out.1 = Ok (id, key) →
     table out.2 = table s ++ [mkDocument project filename key] ∧
     (store_inv (store s) → store_inv (store out.2))).
Proof.
  unfold process, process_and_embed_document.
  destruct (load_and_split_document filename) as [|c cs]; [by repeat split; eauto|].
  cbv beta iota zeta. remember (c :: cs) as chunks eqn:Hchunks. clear Hchunks.
  destruct (read_metadata chunks doc_type) as [[[title author] year]|e];
    [|by repeat split; eauto].
  destruct (store_document _ _ _ _ _ _) as [table'|e] eqn:Hstore;
    [|by repeat split; eauto].
  apply store_document_ok in Hstore as [-> _].
  destruct (embed_all embed chunks) as [embeddings|e] eqn:Hemb;
    [|by repeat split; eauto].
  apply embed_all_length in Hemb.
  pose proof (update_faiss_index_store_inv (store s) (new_doc_id (table s))
                chunks embeddings (eq_sym Hemb)) as Hinv.
  destruct (update_faiss_index _ _ _ _) as [[[]|e] store'] eqn:Hupdate; simpl.
  - split; [done|]. split; [eauto|]. split; [done|].
    intros id key [= <- <-]. by split.
  - apply update_faiss_index_raise in Hupdate as ->. by repeat split; eauto.
Qed.

(** X23. What the upload handler leaves behind, by response. With 201 the
    document's row is the one new row, the file stays on disk and the store
    invariant is kept. With any other response the index store is exactly
    what it was: the response is then 500 and the file is not on disk (also
    when a file of that name was there before the upload), or an exception
    left the handler and the file is still there; in both cases the table
    is unchanged or holds the new row, which was committed before the
    step that failed. *)
Theorem upload_outcomes (s : State) (project : Z) (filename doc_type : string) :
  let out := upload s project filename doc_type in
  (∀ key, out.1 = Ok (201, key) →
     table out.2 = table s ++ [mkDocument project filename key] ∧
     filename ∈ files out.2 ∧
     (store_inv (store s) → store_inv (store out.2))) ∧
  (∀ code msg, out.1 = Ok (code, msg) → code ≠ 201 →
     code = 500 ∧ (filename ∉ files out.2) ∧ store out.2 = store s) ∧
  (∀ e, out.1 = Raise e → filename ∈ files out.2 ∧ store out.2 = store s) ∧
  (table out.2 = table s ∨
   ∃ key, table out.2 = table s ++ [mkDocument project filename key]).
Proof.
  unfold upload, upload_document.
  set (saved := mkState (table s) (store s) ({[ filename ]} ∪ files s)).
  destruct (process_outcomes saved project filename doc_type)
    as (Hfiles & Htable & Hraise & Hok).
  fold process.
  destruct (process saved project filename doc_type) as [[[id key]|e] s'];
    simpl in *.
  - destruct (Hok id key eq_refl) as [Ht Hinv].
    split; [|split; [|split]].
    + intros key' [= <-]. split; [done|]. split; [|done].
      rewrite Hfiles. apply elem_of_union_l. by apply elem_of_singleton.
    + by intros code msg [= <- <-].
    + done.
    + eauto.
  - specialize (Hraise e eq_refl).
    assert (filename ∈ files s') as Hin
      by (rewrite Hfiles; apply elem_of_union_l; by apply elem_of_singleton).
    assert (filename ∉ files s' ∖ {[ filename ]}) as Hout.
    { intros [_ Hne]%elem_of_difference. apply Hne. by apply elem_of_singleton. }
    destruct e; simpl; (split; [done|split; [|split]]); try done;
      try (by intros e' [= <-]); by intros code msg' [= <- <-].
Qed.

End with_collaborators.

(** X24. An upload whose embedding calls fail answers 500 and removes the
    file, but the document's row, committed before the embeddings, stays in
    the table. A second upload of the same file, into whatever project and
    whatever the embedding calls do this time, is then refused by the unique
    key of that row: the exception leaves the handler, nothing is stored
    and the file stays on disk. *)
Theorem retry_after_embedding_failure
    (load_and_split_document : string → list string)
    (read_metadata : list string → string → result (string * string * string))
    (new_doc_id new_doc_id' : list Document → Z)
    (embed embed' : string → result vector)
    (s : State) (project project' : Z) (filename doc_type : string)
    (c : string) (cs : list string) (title author year : string)
    (table' : list Document) (e : exn) :
  load_and_split_document filename = c :: cs →
  read_metadata (c :: cs) doc_type = Ok (title, author, year) →
  store_document (table s) project filename author year title = Ok table' →
  embed_all embed (c :: cs) = Raise e →
  let first :=
    upload_document load_and_split_document read_metadata new_doc_id embed
      s project filename doc_type in
  let second :=
    upload_document load_and_split_document read_metadata new_doc_id' embed'
      first.2 project' filename doc_type in
  first.1 = Ok (500, "Failed to create embeddings with Ollama: " +:+ str_exn e) ∧
  table first.2 = table s ++ [mkDocument project filename (bib_key author year title)] ∧
  store first.2 = store s ∧ (filename ∉ files first.2) ∧
  (∃ msg, second.1 = Raise (OtherError msg)) ∧
  table second.2 = table first.2 ∧ store second.2 = store s ∧
  filename ∈ files second.2.
Proof.
  intros Hload Hmeta Hstore Hemb first second.
  apply store_document_ok in Hstore as Hrow. destruct Hrow as [-> Hfresh].
  assert (first = (Ok (500, "Failed to create embeddings with Ollama: " +:+ str_exn e),
                   mkState (table s ++ [mkDocument project filename (bib_key author year title)])
                     (store s) (({[ filename ]} ∪ files s) ∖ {[ filename ]}))) as Hfirst.
  { unfold first, upload_document, process_and_embed_document. simpl.
    rewrite Hload, Hmeta, Hstore, Hemb. done. }
  assert (second.1 = Raise (OtherError "UNIQUE constraint failed: document.bibtex_key") ∧
          second.2 = mkState (table first.2) (store first.2)
                       ({[ filename ]} ∪ files first.2)) as [Hsecond Hsecond'].
  { unfold second, upload_document, process_and_embed_document.
    rewrite Hfirst. simpl. rewrite Hload, Hmeta.
    unfold store_document, add_document. rewrite bool_decide_eq_true_2; [done|].
    rewrite fmap_app. apply elem_of_app. right. simpl. by left. }
  rewrite Hsecond, Hsecond', Hfirst. simpl.
  split; [done|]. split; [done|]. split; [done|]. split.
  { intros [_ Hne]%elem_of_difference. apply Hne. by apply elem_of_singleton. }
  split; [by eexists|]. split; [done|]. split; [done|].
  apply elem_of_union_l. by apply elem_of_singleton.
Qed.

Lemma retry_after_embedding_failure_witness :
  let load : string → list string := fun _ => ["Deep learning."; "More text."] in
  let read : list string → string → result (string * string * string) :=
    fun _ _ => Ok ("Deep learning for figures", "John Smith", "2024") in
  let embed : string → result vector := fun _ => Raise (OtherError "connection refused") in
  let embed' : string → result vector := fun _ => Ok [0#1]%Q in
  let new_id : list Document → Z := fun t => Z.of_nat (length t) + 1 in
  let s := mkState [] (mkStore None None) ∅ in
  let first := upload_document load read new_id embed s 1 "smith.pdf" "misc" in
  let second := upload_document load read new_id embed' first.2 2 "smith.pdf" "misc" in
  first.1 = Ok (500, "Failed to create embeddings with Ollama: "
                     +:+ str_exn (OtherError "connection refused")) ∧
  table first.2
  = table s ++ [mkDocument 1 "smith.pdf"
                  (bib_key "John Smith" "2024" "Deep learning for figures")] ∧
  store first.2 = store s ∧ ("smith.pdf" ∉ files first.2) ∧
  (∃ msg, second.1 = Raise (OtherError msg)) ∧
  table second.2 = table first.2 ∧ store second.2 = store s ∧
  "smith.pdf" ∈ files second.2.
Proof.
  intros load read embed embed' new_id s.
  apply (retry_after_embedding_failure load read new_id new_id embed embed' s 1 2
           "smith.pdf" "misc" "Deep learning." ["More text."]
           "Deep learning for figures" "John Smith" "2024"
           [mkDocument 1 "smith.pdf" "John2024_Deep"]
           (OtherError "connection refused")); reflexivity.
Defined.

End upload_facts.

(** ** Deleting a document *)

Section deletion_facts.
Import VectorIndex Rebuild Deletion.

(** X25. Deleting a document, whatever the embedding calls do during the
    rebuild: when no row has the id the response is 404 and nothing changes;
    otherwise the response is 200, the row is gone and so is its file, the
    rebuilt store satisfies the invariant, and every mapping entry belongs
    to a remaining document whose file is still on disk, so no entry
    carries the deleted id. A remaining document that shared the deleted
    document's file name has no entry either. *)
Theorem delete_document_forgets (embed : string → result vector)
    (load_and_split_document : string → list string) (p : Project)
    (document_id : Z) :
  let out := delete_document embed load_and_split_document p document_id in
  let mapping := default ∅ (mapping_file (store out.2)) in
  (document_id ∉ doc_ident <$> documents p →
     out = ((404, "Not Found"), p)) ∧
  (document_id ∈ doc_ident <$> documents p →
     ∃ doc, doc ∈ documents p ∧ doc_ident doc = document_id ∧
       out.1.1 = 200 ∧
       (document_id ∉ doc_ident <$> documents out.2) ∧
       (filename doc ∉ files out.2) ∧
       store_inv (store out.2) ∧
       map_Forall (fun _ e =>
         doc_id e ≠ document_id ∧
         ∃ d, d ∈ documents out.2 ∧ doc_id e = doc_ident d ∧
              filename d ∈ files out.2 ∧ filename d ≠ filename doc ∧
              chunk_text e ∈ load_and_split_document (filename d)) mapping).
Proof.
  intros out mapping. subst mapping out. unfold delete_document.
  destruct (list_find _ (documents p)) as [[i doc]|] eqn:Hfind.
  - apply list_find_Some in Hfind as (Hi & Hid & _).
    split.
    { intros Hnot. destruct Hnot. apply list_elem_of_fmap. exists doc.
      split; [done|]. by eapply list_elem_of_lookup_2. }
    intros _. exists doc. split; [by eapply list_elem_of_lookup_2|].
    split; [done|]. split; [done|]. cbn [fst snd documents files store].
    set (files' := files p ∖ {[ filename doc ]}).
    set (documents' := filter (fun d => doc_ident d ≠ document_id) (documents p)).
    assert (document_id ∉ doc_ident <$> documents') as Hgone.
    { intros Hin. apply list_elem_of_fmap in Hin as (d & Hd & Hin).
      apply list_elem_of_filter in Hin as [Hne _]. by apply Hne. }
    split; [done|]. split.
    { unfold files'. intros [_ Hne]%elem_of_difference. apply Hne.
      by apply elem_of_singleton. }
    split; [apply rebuild_store_inv|].
    intros key e He.
    apply (rebuild_entries_in_project embed (fun name => bool_decide (name ∈ files'))
             load_and_split_document (store p) documents') in He.
    apply elem_of_project_entries in He as (d & Hd & Hfile & Hdid & Hchunk).
    apply bool_decide_eq_true in Hfile.
    split.
    { intros Heq. apply Hgone. apply list_elem_of_fmap. exists d.
      split; [congruence|done]. }
    exists d. split; [done|]. split; [done|]. split; [done|]. split; [|done].
    intros Heq. rewrite Heq in Hfile. unfold files' in Hfile.
    apply elem_of_difference in Hfile as [_ Hne]. apply Hne.
    by apply elem_of_singleton.
  - split; [done|]. intros Hin.
    apply list_elem_of_fmap in Hin as (d & Hd & Hin).
    apply list_elem_of_lookup in Hin as [i Hi].
    eapply list_find_None in Hfind. rewrite Forall_forall in Hfind.
    destruct (Hfind d); [by eapply list_elem_of_lookup_2|done].
Qed.

(** A project of two documents, the first of which is deleted: the index
    is rebuilt from the one chunk of the second. *)
Example delete_first_of_two :
  let embed : string → result vector := fun _ => Ok [0#1]%Q in
  let load : string → list string :=
    fun name => if String.eqb name "a.txt" then ["alpha"; "beta"] else ["gamma"] in
  let a := VectorIndex.mkDocument 1 "a.txt" "A2020_One" [] in
  let c := VectorIndex.mkDocument 3 "c.txt" "C2022_Three" [] in
  let p := mkProject [a; c] (mkStore None None) {[ "a.txt"; "c.txt" ]} in
  let out := delete_document embed load p 1 in
  out.1 = (200, "Document and all associated files deleted; index rebuilt.") ∧
  documents out.2 = [c] ∧
  index_file (store out.2) = Some (mkIndex 1 [[0#1]%Q]) ∧
  mapping_file (store out.2) = Some {[ "0" := mkEntry 3 "gamma" ]}.
Proof. repeat split; vm_compute; reflexivity. Qed.

End deletion_facts.
